(** * odin-ai: evaluation metrics and the PLDA estimator

    A shallow embedding of [odin/backend/metrics.py] (Levenshtein distance,
    labelling error rate, Cavg, DET curve) and of [odin/ml/plda.py] (the PLDA
    estimator: pickling, initialisation, EM steps, scoring), followed by the
    properties established about them.

    Conventions of the embedding:
    - a Python exception is a value of [pyerr]; a call that can raise
      returns a [result]; a method that mutates [self] returns the new
      object next to its [result], so that what was assigned before a
      [raise] is kept;
    - float64 values are exact rationals ([Q]); the IEEE specials numpy
      produces instead of raising (nan, inf) are the extra constructors of
      [npfloat];
    - a 2-d array is an [ndarray]: its shape and its rows;
    - what the code calls outside the two files (scipy's kernels, the
      random generator, [np.log], the vector normaliser) is a parameter. *)

From Stdlib Require Import List ZArith QArith Lia Lqa Bool Arith Sorted.
From Stdlib Require Import Permutation.
From Stdlib Require Import String Ascii.
Import ListNotations.

Set Implicit Arguments.

(* ================================================================== *)
(** ** Python exceptions and results *)

Inductive pyerr : Set :=
| RuntimeError
| ValueError
| IndexError
| ZeroDivisionError
| AttributeError
| TypeError
| AssertionError
| LinAlgError.

Inductive result (A : Type) : Type :=
| Ok (a : A)
| Raise (e : pyerr).

Arguments Ok {A} a.
Arguments Raise {A} e.

Definition rbind {A B : Type} (r : result A) (k : A -> result B) : result B :=
  match r with
  | Ok a => k a
  | Raise e => Raise e
  end.

Declare Scope py_scope.
Delimit Scope py_scope with py.
Notation "x <- c ;; k" := (rbind c (fun x => k))
  (at level 61, c at next level, right associativity) : py_scope.
Notation "' pat <- c ;; k" := (rbind c (fun x => match x with pat => k end))
  (at level 61, pat pattern, c at next level, right associativity) : py_scope.

(** A [for] loop whose body can raise: the accumulator is threaded from left
    to right and the first exception leaves the loop. *)
Fixpoint for_each {A S : Type} (body : S -> A -> result S) (xs : list A) (s : S)
  : result S :=
  match xs with
  | [] => Ok s
  | x :: xs' => rbind (body s x) (for_each body xs')
  end.

(** [enumerate(xs)], counting from [start]. *)
Fixpoint enumerate_from {A : Type} (start : nat) (xs : list A) : list (nat * A) :=
  match xs with
  | [] => []
  | x :: xs' => (start, x) :: enumerate_from (S start) xs'
  end.

Definition enumerate {A : Type} (xs : list A) : list (nat * A) := enumerate_from 0 xs.

(* ================================================================== *)
(** ** numpy floating-point values *)

Inductive npfloat : Set :=
| Fin (q : Q)
| NaN
| Inf (positive : bool).

Definition Qltb (a b : Q) : bool := negb (Qle_bool b a).

Definition np_add (x y : npfloat) : npfloat :=
  match x, y with
  | Fin a, Fin b => Fin (a + b)
  | NaN, _ | _, NaN => NaN
  | Inf s, Inf s' => if Bool.eqb s s' then Inf s else NaN
  | Inf s, Fin _ | Fin _, Inf s => Inf s
  end.

Definition np_neg (x : npfloat) : npfloat :=
  match x with
  | Fin a => Fin (- a)
  | NaN => NaN
  | Inf s => Inf (negb s)
  end.

Definition np_sub (x y : npfloat) : npfloat := np_add x (np_neg y).

Definition np_mul (x y : npfloat) : npfloat :=
  match x, y with
  | Fin a, Fin b => Fin (a * b)
  | NaN, _ | _, NaN => NaN
  | Inf s, Inf s' => Inf (Bool.eqb s s')
  | Inf s, Fin a | Fin a, Inf s =>
      if Qeq_bool a 0 then NaN else Inf (Bool.eqb s (Qltb 0 a))
  end.

(** numpy's true division never raises: a zero divisor gives nan or inf. *)
Definition np_div (x y : npfloat) : npfloat :=
  match x, y with
  | NaN, _ | _, NaN => NaN
  | Inf _, Inf _ => NaN
  | Fin _, Inf _ => Fin 0
  | Inf s, Fin b => Inf (Bool.eqb s (Qle_bool 0 b))
  | Fin a, Fin b =>
      if Qeq_bool b 0
      then (if Qeq_bool a 0 then NaN else Inf (Qltb 0 a))
      else Fin (a / b)
  end.

(** Comparisons: anything involving nan is [False]. *)
Definition np_lt (x y : npfloat) : bool :=
  match x, y with
  | NaN, _ | _, NaN => false
  | Fin a, Fin b => Qltb a b
  | Fin _, Inf s => s
  | Inf s, Fin _ => negb s
  | Inf s, Inf s' => negb s && s'
  end.

Definition np_ge (x y : npfloat) : bool :=
  match x, y with
  | NaN, _ | _, NaN => false
  | _, _ => negb (np_lt x y)
  end.

Definition np_sum (xs : list npfloat) : npfloat := fold_left np_add xs (Fin 0).

(** [np.mean] of a 1-d array; the mean of an empty array is nan. *)
Definition np_mean (xs : list npfloat) : npfloat :=
  np_div (np_sum xs) (Fin (inject_Z (Z.of_nat (List.length xs)))).

(* ================================================================== *)
(** ** numpy arrays *)

Record ndarray (A : Type) : Type := mk_ndarray {
  shape0 : nat;
  shape1 : nat;
  rows : list (list A)
}.

(** Every row is there and has the width the shape announces. *)
Definition well_shaped {A : Type} (m : ndarray A) : Prop :=
  List.length (rows m) = shape0 m /\
  Forall (fun r => List.length r = shape1 m) (rows m).

(** An integer index into an axis of length [n]; negative indices count
    from the end. *)
Definition norm_index (j : Z) (n : nat) : option nat :=
  if ((0 <=? j) && (j <? Z.of_nat n))%Z then Some (Z.to_nat j)
  else if ((- Z.of_nat n <=? j) && (j <? 0))%Z then Some (Z.to_nat (j + Z.of_nat n))
  else None.

(** [a[mask]] for a boolean mask over the first axis. *)
Fixpoint select {A : Type} (mask : list bool) (xs : list A) : list A :=
  match mask, xs with
  | b :: mask', x :: xs' => if b then x :: select mask' xs' else select mask' xs'
  | _, _ => []
  end.

(* ================================================================== *)
(** ** metrics.py: LevenshteinDistance and LER *)

Module Metrics.

Section Levenshtein.
Variable A : Type.
Variable eqb : A -> A -> bool.

(** One round of the inner loop: [newDistances.append(...)]. *)
Definition lev_inner (char2 : A) (distances : list nat)
           (newDistances : list nat) (ic : nat * A) : list nat :=
  let '(index1, char1) := ic in
  if eqb char1 char2
  then newDistances ++ [nth index1 distances 0%nat]
  else newDistances ++
         [1 + Nat.min (Nat.min (nth index1 distances 0%nat)
                               (nth (index1 + 1) distances 0%nat))
                      (last newDistances 0%nat)]%nat.

(** One round of the outer loop: the row for [char2] from the row before. *)
Definition lev_outer (s1 : list A) (distances : list nat) (ic : nat * A)
  : list nat :=
  let '(index2, char2) := ic in
  fold_left (lev_inner char2 distances) (enumerate s1) [(index2 + 1)%nat].

Definition LevenshteinDistance (s1 s2 : list A) : nat :=
  let '(s1, s2) :=
    if (List.length s2 <? List.length s1)%nat then (s2, s1) else (s1, s2) in
  let distances := seq 0 (List.length s1 + 1) in
  let distances := fold_left (lev_outer s1) (enumerate s2) distances in
  last distances 0%nat.
End Levenshtein.

(** The argument of [LER]: a sequence of label sequences, or a single label
    sequence (elements without [__len__], or strings), which [LER] wraps. *)
Inductive ler_arg (A : Type) : Type :=
| Sequences (ys : list (list A))
| Single (y : list A).

Arguments Sequences {A} ys.
Arguments Single {A} y.

Section LER.
Variable A : Type.
Variable eqb : A -> A -> bool.

(** [if not hasattr(y[0], '__len__') or isinstance(y[0], str): y = [y]];
    [y[0]] raises on an empty sequence. *)
Definition ler_wrap (y : ler_arg A) : result (list (list A)) :=
  match y with
  | Sequences [] => Raise IndexError
  | Sequences ys => Ok ys
  | Single [] => Raise IndexError
  | Single y => Ok [y]
  end.

(** [LevenshteinDistance(ytrue, ypred) / len(ytrue)], Python's true
    division of two ints. *)
Definition ler_pair (results : list Q) (p : list A * list A) : result (list Q) :=
  let '(ytrue, ypred) := p in
  match List.length ytrue with
  | O => Raise ZeroDivisionError
  | S n =>
      Ok (results ++
            [Z.of_nat (LevenshteinDistance eqb ytrue ypred) # Pos.of_succ_nat n])
  end.

Definition LER_list (y_true y_pred : ler_arg A) : result (list Q) :=
  (yt <- ler_wrap y_true ;;
   yp <- ler_wrap y_pred ;;
   for_each ler_pair (combine yt yp) [])%py.

(** [LER(y_true, y_pred, return_mean=True)]. *)
Definition LER (y_true y_pred : ler_arg A) : result npfloat :=
  (results <- LER_list y_true y_pred ;;
   Ok (np_mean (map Fin results)))%py.
End LER.

(* ------------------------------------------------------------------ *)
(** *** Masked columns *)

(** [y[mask, j]]: a boolean mask over the rows and an integer column. *)
Definition select_col (y : ndarray npfloat) (mask : list bool) (j : Z)
  : result (list npfloat) :=
  if negb (List.length mask =? shape0 y)%nat then Raise IndexError
  else match norm_index j (shape1 y) with
       | None => Raise IndexError
       | Some c => Ok (map (fun r => nth c r NaN) (select mask (rows y)))
       end.

Definition count_true (bs : list bool) : nat := List.length (filter (fun b => b) bs).

(* ------------------------------------------------------------------ *)
(** *** Python scalars in arithmetic

An [int] or a [float] of Python, or a numpy float64 scalar. What the
result of an operation is, and whether a zero divisor raises, depends on
which of them the operands are. *)

Inductive pynum : Set :=
| PyInt (z : Z)
| PyFloat (q : Q)
| NpFloat (x : npfloat).

Definition py_q (a : pynum) : Q :=
  match a with
  | PyInt z => inject_Z z
  | PyFloat q => q
  | NpFloat (Fin q) => q
  | NpFloat _ => 0
  end.

Definition to_np (a : pynum) : npfloat :=
  match a with
  | NpFloat x => x
  | _ => Fin (py_q a)
  end.

Definition py_add (a b : pynum) : pynum :=
  match a, b with
  | NpFloat _, _ | _, NpFloat _ => NpFloat (np_add (to_np a) (to_np b))
  | PyInt x, PyInt y => PyInt (x + y)
  | _, _ => PyFloat (py_q a + py_q b)
  end.

Definition py_mul (a b : pynum) : pynum :=
  match a, b with
  | NpFloat _, _ | _, NpFloat _ => NpFloat (np_mul (to_np a) (to_np b))
  | PyInt x, PyInt y => PyInt (x * y)
  | _, _ => PyFloat (py_q a * py_q b)
  end.

(** [a / b] under [from __future__ import division]: between Python numbers
    a zero divisor raises, with a numpy operand it does not. *)
Definition py_truediv (a b : pynum) : result pynum :=
  match a, b with
  | NpFloat _, _ | _, NpFloat _ => Ok (NpFloat (np_div (to_np a) (to_np b)))
  | _, _ =>
      if Qeq_bool (py_q b) 0 then Raise ZeroDivisionError
      else Ok (PyFloat (py_q a / py_q b))
  end.

(* ------------------------------------------------------------------ *)
(** *** Cavg (the numpy path) *)

Section Cavg.
(** [np.log] on a float64: an external function. *)
Variable np_log : Q -> npfloat.

Definition np_log_f (x : npfloat) : npfloat :=
  match x with
  | Fin q => np_log q
  | NaN => NaN
  | Inf true => Inf true
  | Inf false => NaN
  end.

Definition np_clip (lo hi x : Q) : Q :=
  if Qltb x lo then lo else if Qltb hi x then hi else x.

(** [10e-8]. *)
Definition clip_eps : Q := 1 # 10000000.

(** [np.log(y / (1. - y))] after the clip, entry by entry. *)
Definition llr_of_probability (y : Q) : npfloat :=
  let y := np_clip clip_eps (1 - clip_eps) y in
  np_log_f (np_div (Fin y) (Fin (1 - y))).

Definition map_ndarray {A B : Type} (f : A -> B) (m : ndarray A) : ndarray B :=
  mk_ndarray (shape0 m) (shape1 m) (map (map f) (rows m)).

(** [thresh = np.log(Cfa / Cmiss) - np.log(Ptar / (1 - Ptar))]; the two
    quotients are divisions of Python floats. *)
Definition cavg_thresh (Ptar Cfa Cmiss : Q) : result npfloat :=
  (a <- py_truediv (PyFloat Cfa) (PyFloat Cmiss) ;;
   b <- py_truediv (PyFloat Ptar) (PyFloat (1 - Ptar)) ;;
   Ok (np_sub (np_log_f (to_np a)) (np_log_f (to_np b))))%py.

(** [N = np.sum(y_true == lang_i, dtype='float32'); N = max(N, 1.)]. *)
Definition class_count (y_true : list Z) (lang_i : Z) : Q :=
  let N := inject_Z (Z.of_nat (count_true (map (Z.eqb lang_i) y_true))) in
  if Qltb N 1 then 1 else N.

(** The body of [for lang_j in cluster]; the accumulator is [(fa, fr)]. *)
Definition cavg_inner (y_llr : ndarray npfloat) (y_true : list Z)
           (thresh : npfloat) (lang_i : Z) (N : Q)
           (acc : pynum * pynum) (lang_j : Z) : result (pynum * pynum) :=
  let '(fa, fr) := acc in
  if (lang_i =? lang_j)%Z then
    (col <- select_col y_llr (map (Z.eqb lang_i) y_true) lang_i ;;
     let hits := count_true (map (fun x => np_lt x thresh) col) in
     let err := NpFloat (np_div (Fin (inject_Z (Z.of_nat hits))) (Fin N)) in
     Ok (fa, py_add fr err))%py
  else
    (col <- select_col y_llr (map (Z.eqb lang_i) y_true) lang_j ;;
     let hits := count_true (map (fun x => np_ge x thresh) col) in
     let err := NpFloat (np_div (Fin (inject_Z (Z.of_nat hits))) (Fin N)) in
     Ok (py_add fa err, fr))%py.

(** The body of [for lang_i in cluster]. *)
Definition cavg_outer (y_llr : ndarray npfloat) (y_true : list Z)
           (thresh : npfloat) (cluster : list Z)
           (acc : pynum * pynum) (lang_i : Z) : result (pynum * pynum) :=
  for_each (cavg_inner y_llr y_true thresh lang_i (class_count y_true lang_i))
           cluster acc.

(** [100 * (Cmiss * Ptar * fr + Cfa * (1 - Ptar) * fa / (L - 1)) / L]. *)
Definition cavg_cost (Ptar Cfa Cmiss : Q) (L : nat) (fa fr : pynum)
  : result pynum :=
  let miss := py_mul (py_mul (PyFloat Cmiss) (PyFloat Ptar)) fr in
  (false_alarm <- py_truediv (py_mul (py_mul (PyFloat Cfa) (PyFloat (1 - Ptar))) fa)
                             (PyInt (Z.of_nat L - 1)) ;;
   py_truediv (py_mul (PyInt 100) (py_add miss false_alarm))
              (PyInt (Z.of_nat L)))%py.

(** The body of [for k, cluster in enumerate(cluster_idx)]: the cost that
    is stored in [cluster_cost[k]]. *)
Definition cavg_cluster (y_llr : ndarray npfloat) (y_true : list Z)
           (thresh : npfloat) (Ptar Cfa Cmiss : Q) (cluster : list Z)
  : result npfloat :=
  ('(fa, fr) <- for_each (cavg_outer y_llr y_true thresh cluster) cluster
                         (PyInt 0, PyInt 0) ;;
   cost <- cavg_cost Ptar Cfa Cmiss (List.length cluster) fa fr ;;
   Ok (to_np cost))%py.

Definition cavg_clusters (y_llr : ndarray npfloat) (y_true : list Z)
           (thresh : npfloat) (Ptar Cfa Cmiss : Q)
           (cluster_cost : list npfloat) (cluster : list Z)
  : result (list npfloat) :=
  (c <- cavg_cluster y_llr y_true thresh Ptar Cfa Cmiss cluster ;;
   Ok (cluster_cost ++ [c]))%py.

(** [Cavg(y_llr, y_true, cluster_idx, Ptar, Cfa, Cmiss, probability_input)]
    on numpy arrays; returns [(cluster_cost, total_cost)]. *)
Definition Cavg (y_llr : ndarray Q) (y_true : list Z)
           (cluster_idx : option (list (list Z)))
           (Ptar Cfa Cmiss : Q) (probability_input : bool)
  : result (list npfloat * npfloat) :=
  let y_llr := if probability_input
               then map_ndarray llr_of_probability y_llr
               else map_ndarray Fin y_llr in
  let cluster_idx :=
    match cluster_idx with
    | None => [map Z.of_nat (seq 0 (shape1 y_llr))]
    | Some cs => cs
    end in
  (thresh <- cavg_thresh Ptar Cfa Cmiss ;;
   cluster_cost <- for_each (cavg_clusters y_llr y_true thresh Ptar Cfa Cmiss)
                            cluster_idx [] ;;
   Ok (cluster_cost, np_mean cluster_cost))%py.
End Cavg.

(* ------------------------------------------------------------------ *)
(** *** det_curve *)

Section ArgSort.
(** [np.argsort(keys, kind='mergsort')]: numpy reads the kind by its first
    letter, a merge sort, so this is the stable sort of the indices by their
    keys. The index [i] goes in front of the first index whose key is
    strictly greater, so equal keys keep their order. *)
Fixpoint insert_index (keys : list Q) (i : nat) (sorted : list nat) : list nat :=
  match sorted with
  | [] => [i]
  | j :: rest =>
      if Qltb (nth i keys 0) (nth j keys 0)
      then i :: j :: rest
      else j :: insert_index keys i rest
  end.

Definition argsort (keys : list Q) : list nat :=
  fold_left (fun sorted i => insert_index keys i sorted)
            (seq 0 (List.length keys)) [].
End ArgSort.

(** [np.cumsum] of a 1-d array. *)
Fixpoint cumsum_from (acc : Q) (xs : list Q) : list Q :=
  match xs with
  | [] => []
  | x :: xs' => (acc + x) :: cumsum_from (acc + x) xs'
  end.

Definition cumsum (xs : list Q) : list Q := cumsum_from 0 xs.

(** [y_score[idx]] for a boolean mask [idx]. *)
Definition mask_select (y_score : list Q) (mask : list bool) : result (list Q) :=
  if negb (List.length mask =? List.length y_score)%nat then Raise IndexError
  else Ok (select mask y_score).

(** The preprocessing of [det_curve]: the true and the false scores, given
    or split from [y_score] by [y_true == pos_label]. *)
Definition det_curve_split (y_true : option (list Z)) (y_score : option (list Q))
           (pos_label : option Z) (true_scores false_scores : option (list Q))
  : result (list Q * list Q) :=
  match true_scores, false_scores with
  | Some ts, Some fs => Ok (ts, fs)
  | _, _ =>
      match y_true, y_score with
      | Some y_true, Some y_score =>
          let pos_label := match pos_label with None => 1%Z | Some l => l end in
          let true_idx := map (Z.eqb pos_label) y_true in
          (ts <- match true_scores with
                 | None => mask_select y_score true_idx
                 | Some ts => Ok ts
                 end ;;
           let false_idx := map (fun l => negb (Z.eqb pos_label l)) y_true in
           fs <- match false_scores with
                 | None => mask_select y_score false_idx
                 | Some fs => Ok fs
                 end ;;
           if negb (List.length fs + List.length ts =? List.length y_true)%nat
           then Raise RuntimeError
           else Ok (ts, fs))%py
      | _, _ => Raise ValueError
      end
  end.

(** The two columns of the sorted [scores] array. *)
Definition det_sorted_scores (true_scores false_scores : list Q) : list (Q * Q) :=
  let scores := map (fun s => (s, 0)) false_scores ++
                map (fun s => (s, 1)) true_scores in
  (* sort 2nd column *)
  let idx := argsort (map snd scores) in
  (* now sort 1st column: idx = idx[np.argsort(scores[:, 0])] *)
  let idx := map (fun k => nth k idx 0%nat) (argsort (map fst scores)) in
  map (fun k => nth k scores (0, 0)) idx.

(** [det_curve(y_true, y_score, pos_label, sample_weight, true_scores,
    false_scores)]; returns [(Pmiss, Pfa, threshold)]. *)
Definition det_curve (y_true : option (list Z)) (y_score : option (list Q))
           (pos_label : option Z) (true_scores false_scores : option (list Q))
  : result (list npfloat * list npfloat * list Q) :=
  ('(true_scores, false_scores) <-
     det_curve_split y_true y_score pos_label true_scores false_scores ;;
   let nb_true := List.length true_scores in
   let nb_false := List.length false_scores in
   let total := (nb_true + nb_false)%nat in
   let scores := det_sorted_scores true_scores false_scores in
   let sumtrue := cumsum (map snd scores) in
   let sumfalse :=
     map (fun '(k, st) => inject_Z (Z.of_nat nb_false) - (inject_Z (Z.of_nat k) - st))
         (combine (seq 1 total) sumtrue) in
   let Pmiss := map (fun x => np_div (Fin x) (Fin (inject_Z (Z.of_nat nb_true)))) sumtrue in
   let Pfa := map (fun x => np_div (Fin x) (Fin (inject_Z (Z.of_nat nb_false)))) sumfalse in
   (* threshold = scores[0, :] *)
   match scores with
   | [] => Raise IndexError
   | (s, l) :: _ => Ok (Pmiss, Pfa, [s; l])
   end)%py.

(* ------------------------------------------------------------------ *)
(** *** compute_minDCF *)

(** [np.argmin] of a 1-d array: the first position of the least value,
    where a nan counts as least; an empty array is refused. The scan keeps
    the best position [best] and its value [bv]. *)
Fixpoint argmin_from (best : nat) (bv : npfloat) (i : nat) (xs : list npfloat)
  : nat :=
  match xs with
  | [] => best
  | x :: xs' =>
      match bv, x with
      | NaN, _ => best
      | _, NaN => i
      | _, _ => if np_lt x bv then argmin_from i x (S i) xs'
                else argmin_from best bv (S i) xs'
      end
  end.

Definition np_argmin (xs : list npfloat) : result nat :=
  match xs with
  | [] => Raise ValueError
  | x :: xs' => Ok (argmin_from 0 x 1 xs')
  end.

(** [compute_minDCF(fpr, fnr, Cmiss, Cfa, Ptrue)] on two 1-d arrays;
    returns [(min_val, Pmiss[min_idx], Pfa[min_idx])]. *)
Definition compute_minDCF (fpr fnr : list npfloat) (Cmiss Cfa Ptrue : Q)
  : result (npfloat * npfloat * npfloat) :=
  let Pmiss := fpr in
  let Pfa := fnr in
  (* assert Pmiss.shape == Pfa.shape *)
  if negb (List.length Pmiss =? List.length Pfa)%nat then Raise AssertionError
  else
    let Pfalse := 1 - Ptrue in
    (* detection cost function vector *)
    let DCF_vector :=
      map (fun '(pm, pf) =>
             np_add (np_mul (np_mul (Fin Cmiss) pm) (Fin Ptrue))
                    (np_mul (np_mul (Fin Cfa) pf) (Fin Pfalse)))
          (combine Pmiss Pfa) in
    (* get the optimal value and corresponding index *)
    (min_idx <- np_argmin DCF_vector ;;
     Ok (nth min_idx DCF_vector NaN, nth min_idx Pmiss NaN, nth min_idx Pfa NaN))%py.

End Metrics.

(* ================================================================== *)
(** ** plda.py: the PLDA estimator *)

Module Plda.

Definition matrix : Type := ndarray Q.
Definition vector : Type := list Q.

(* ------------------------------------------------------------------ *)
(** *** Dense linear algebra on exact rationals *)

Definition np_zeros (n m : nat) : matrix :=
  mk_ndarray n m (repeat (repeat 0 m) n).

Definition np_eye (n : nat) : matrix :=
  mk_ndarray n n
    (map (fun i => map (fun j => if (i =? j)%nat then 1 else 0) (seq 0 n)) (seq 0 n)).

(** [m.T]. *)
Definition mat_T (m : matrix) : matrix :=
  mk_ndarray (shape1 m) (shape0 m)
    (map (fun j => map (fun r => nth j r 0) (rows m)) (seq 0 (shape1 m))).

Fixpoint vdot (u v : vector) : Q :=
  match u, v with
  | a :: u', b :: v' => a * b + vdot u' v'
  | _, _ => 0
  end.

(** The matrix product, row by column. *)
Definition matmul (a b : matrix) : matrix :=
  mk_ndarray (shape0 a) (shape1 b)
    (map (fun r => map (vdot r) (rows (mat_T b))) (rows a)).

(** [np.dot] of two matrices; the inner dimensions have to agree. *)
Definition np_dot (a b : matrix) : result matrix :=
  if negb (shape1 a =? shape0 b)%nat then Raise ValueError
  else Ok (matmul a b).

(** [np.dot] of a matrix and a 1-d array. *)
Definition np_dot_vec (a : matrix) (v : vector) : result vector :=
  if negb (shape1 a =? List.length v)%nat then Raise ValueError
  else Ok (map (fun r => vdot r v) (rows a)).

Fixpoint vzip (f : Q -> Q -> Q) (u v : vector) : vector :=
  match u, v with
  | a :: u', b :: v' => f a b :: vzip f u' v'
  | _, _ => []
  end.

Fixpoint mzip (f : Q -> Q -> Q) (a b : list vector) : list vector :=
  match a, b with
  | r :: a', s :: b' => vzip f r s :: mzip f a' b'
  | _, _ => []
  end.

Definition zip_matrix (f : Q -> Q -> Q) (a b : matrix) : matrix :=
  mk_ndarray (shape0 a) (shape1 a) (mzip f (rows a) (rows b)).

(** An entry-wise operation on two arrays of one shape. (Shapes that numpy
    would broadcast against each other do not occur between the operands of
    the estimator, which are square of one size; they are refused here.) *)
Definition elementwise (f : Q -> Q -> Q) (a b : matrix) : result matrix :=
  if negb ((shape0 a =? shape0 b)%nat && (shape1 a =? shape1 b)%nat)
  then Raise ValueError
  else Ok (zip_matrix f a b).

Definition mat_add : matrix -> matrix -> result matrix := elementwise Qplus.
Definition mat_sub : matrix -> matrix -> result matrix := elementwise Qminus.
Definition mat_mul : matrix -> matrix -> result matrix := elementwise Qmult.

(** [c * m] for a scalar [c]. *)
Definition mat_scale (c : Q) (m : matrix) : matrix :=
  mk_ndarray (shape0 m) (shape1 m) (map (map (Qmult c)) (rows m)).

(** Entry-wise equality of two arrays, up to the representation of the
    rationals. *)
Definition vec_eqb (u v : vector) : bool :=
  (List.length u =? List.length v)%nat &&
  forallb (fun p => Qeq_bool (fst p) (snd p)) (combine u v).

Definition mat_eqb (a b : matrix) : bool :=
  (shape0 a =? shape0 b)%nat && (shape1 a =? shape1 b)%nat &&
  (List.length (rows a) =? List.length (rows b))%nat &&
  forallb (fun p => vec_eqb (fst p) (snd p)) (combine (rows a) (rows b)).

(** [zeros((n, m))] and the like for sizes that are Python ints: a
    negative dimension is refused. *)
Definition dim (n : Z) : result nat :=
  if (n <? 0)%Z then Raise ValueError else Ok (Z.to_nat n).

(** [a[:n]] for a Python int [n]. *)
Definition py_slice_to {A : Type} (n : Z) (xs : list A) : list A :=
  if (0 <=? n)%Z then firstn (Z.to_nat n) xs
  else firstn (List.length xs - Z.to_nat (- n)) xs.

(** [np.diag] of a 1-d array. *)
Definition np_diag (s : vector) : matrix :=
  let n := List.length s in
  mk_ndarray n n
    (map (fun i => map (fun j => if (i =? j)%nat then nth i s 0 else 0) (seq 0 n))
         (seq 0 n)).

(** [np.bincount(y)]: the number of occurrences of each value from [0] to
    [max(y)]; a negative value is refused. *)
Definition np_bincount (y : list Z) : result (list Z) :=
  if existsb (fun v => (v <? 0)%Z) y then Raise ValueError
  else
    let top := fold_left Z.max y (-1)%Z in
    Ok (map (fun v => Z.of_nat (count_occ Z.eq_dec y (Z.of_nat v)))
            (seq 0 (Z.to_nat (top + 1)))).

(** [np.unique(y)]: the distinct values in increasing order. *)
Fixpoint insert_unique (v : Z) (sorted : list Z) : list Z :=
  match sorted with
  | [] => [v]
  | w :: rest =>
      if (v <? w)%Z then v :: w :: rest
      else if (v =? w)%Z then w :: rest
      else w :: insert_unique v rest
  end.

Definition np_unique (y : list Z) : list Z :=
  fold_left (fun sorted v => insert_unique v sorted) y [].

(** Modelled from the spec: [odin.utils.unique] is not among the sources.
    With [keep_order=True] it yields the distinct values ("computed once per
    distinct count") in the order of their first occurrence. *)
Definition unique_keep_order (xs : list Z) : list Z :=
  fold_left (fun seen v => if existsb (Z.eqb v) seen then seen else seen ++ [v])
            xs [].

(** [m[i, :] = v]: the row index may be negative; outside the array it is an
    [IndexError], a value of the wrong width a [ValueError]. *)
Fixpoint replace_nth {A : Type} (i : nat) (x : A) (xs : list A) : list A :=
  match xs, i with
  | [], _ => []
  | _ :: xs', O => x :: xs'
  | y :: xs', S i' => y :: replace_nth i' x xs'
  end.

Definition set_row (m : matrix) (i : Z) (v : vector) : result matrix :=
  match norm_index i (shape0 m) with
  | None => Raise IndexError
  | Some k =>
      if negb (List.length v =? shape1 m)%nat then Raise ValueError
      else Ok (mk_ndarray (shape0 m) (shape1 m) (replace_nth k v (rows m)))
  end.

(** [m[i, :]] for a Python int [i]. *)
Definition get_row (m : matrix) (i : Z) : result vector :=
  match norm_index i (shape0 m) with
  | None => Raise IndexError
  | Some k => Ok (nth k (rows m) [])
  end.

(** [X[mask, :].sum(axis=0)]. *)
Definition sum_rows_where (X : matrix) (mask : list bool) : result vector :=
  if negb (List.length mask =? shape0 X)%nat then Raise IndexError
  else Ok (fold_left (vzip Qplus) (select mask (rows X)) (repeat 0 (shape1 X))).

(* ------------------------------------------------------------------ *)
(** *** What the estimator calls outside this file

scipy's kernels, numpy's random generator, and two parts of the
repository that are not among the sources: the [VectorNormalizer] and
[compute_class_avg] of [odin.ml.scoring]. The estimator is defined over
any implementation of them. *)

Record Externals : Type := mk_externals {
(** [scipy.linalg.solve(a, b)], [inv], [svd(.., full_matrices=False)] and
    [cholesky]: each raises on a matrix it cannot handle. *)
solve : matrix -> matrix -> result matrix;
inv : matrix -> result matrix;
svd : matrix -> result (matrix * vector * matrix);
cholesky : matrix -> result matrix;
(** [np.log] and [np.pi]. *)
np_log : Q -> npfloat;
np_pi : Q;
(** [np.random.RandomState(seed)] and its [randn(n, m)], which advances
    the generator. *)
rand_state : Type;
RandomState : Z -> rand_state;
randn : rand_state -> nat -> nat -> matrix * rand_state;
(** [VectorNormalizer(centering, wccn, unit_length, lda=False,
    concat=False)], its [fit(X, y)] and [transform(X)]. *)
normalizer : Type;
VectorNormalizer : bool -> bool -> bool -> normalizer;
normalizer_fit : normalizer -> matrix -> list Z -> result normalizer;
normalizer_transform : normalizer -> matrix -> result matrix;
(** [compute_class_avg(X, y, classes)]. *)
compute_class_avg : matrix -> list Z -> list Z -> result matrix;
(** What [self._num_classes] finds on a new object: the attribute is
    assigned nowhere in [plda.py], so it is there only if a base class
    provides it. [None]: no such attribute; [Some None]: Python's [None]. *)
base_num_classes : option (option Z)
}.

Section Estimator.
Variable ext : Externals.

(** The attributes of a [PLDA] object. [Sigma_] to [St_] are [None] until
    [initialize] allocates them; [Lambda_] to [X_model_] do not exist
    until they are assigned ([None] here: [hasattr] is false). *)
Record PLDA : Type := mk_PLDA {
  num_phi : Z;
  num_iter : Z;
  _feat_dim : option Z;
  _labels : option (list Z);
  verbose_ : Z;
  _normalizer : normalizer ext;
  _dtype : string;
  _rand_state : rand_state ext;
  Sigma_ : option matrix;
  Phi_ : option matrix;
  Sb_ : option matrix;
  St_ : option matrix;
  Lambda_ : option matrix;
  Uk_ : option matrix;
  Q_hat_ : option matrix;
  X_model_ : option matrix;
  _num_classes : option (option Z)
}.

(** The tuple of sixteen fields [__getstate__] returns and [__setstate__]
    unpacks. (A tuple of another length cannot be unpacked; it is no value
    of this type.) *)
Record pickled : Type := mk_pickled {
  p_num_phi : Z;
  p_num_iter : Z;
  p_feat_dim : option Z;
  p_labels : option (list Z);
  p_verbose : Z;
  p_normalizer : normalizer ext;
  p_dtype : string;
  p_rand_state : rand_state ext;
  p_Sigma : option matrix;
  p_Phi : option matrix;
  p_Sb : option matrix;
  p_St : option matrix;
  p_Lambda : matrix;
  p_Uk : matrix;
  p_Q_hat : matrix;
  p_X_model : matrix
}.

(** A method: it may assign attributes of [self] and it may raise. *)
Definition method (A : Type) : Type := PLDA -> PLDA * result A.

Definition mret {A : Type} (a : A) : method A := fun self => (self, Ok a).

Definition mraise {A : Type} (e : pyerr) : method A := fun self => (self, Raise e).

Definition mbind {A B : Type} (m : method A) (k : A -> method B) : method B :=
  fun self =>
    match m self with
    | (self', Ok a) => k a self'
    | (self', Raise e) => (self', Raise e)
    end.

(** Reading an attribute, assigning one, and calling a function that may
    raise. *)
Definition attr {A : Type} (f : PLDA -> A) : method A := fun self => (self, Ok (f self)).
Definition assign (f : PLDA -> PLDA) : method unit := fun self => (f self, Ok tt).
Definition call {A : Type} (r : result A) : method A := fun self => (self, r).

(** An attribute that must hold an array: where it is [None], the
    operation that receives it raises [e] (an [AttributeError] for [.T]
    and [.dot], a [TypeError] for arithmetic, a [ValueError] in scipy). *)
Definition array_attr (e : pyerr) (f : PLDA -> option matrix) : method matrix :=
  fun self => match f self with
              | Some m => (self, Ok m)
              | None => (self, Raise e)
              end.

Fixpoint mfor {A S : Type} (body : S -> A -> method S) (xs : list A) (s : S)
  : method S :=
  match xs with
  | [] => mret s
  | x :: xs' => mbind (body s x) (mfor body xs')
  end.

Definition set_feat_dim (v : option Z) (o : PLDA) : PLDA :=
  mk_PLDA (num_phi o) (num_iter o) v (_labels o) (verbose_ o) (_normalizer o)
    (_dtype o) (_rand_state o) (Sigma_ o) (Phi_ o) (Sb_ o) (St_ o)
    (Lambda_ o) (Uk_ o) (Q_hat_ o) (X_model_ o) (_num_classes o).
Definition set_labels (v : option (list Z)) (o : PLDA) : PLDA :=
  mk_PLDA (num_phi o) (num_iter o) (_feat_dim o) v (verbose_ o) (_normalizer o)
    (_dtype o) (_rand_state o) (Sigma_ o) (Phi_ o) (Sb_ o) (St_ o)
    (Lambda_ o) (Uk_ o) (Q_hat_ o) (X_model_ o) (_num_classes o).
Definition set_normalizer (v : normalizer ext) (o : PLDA) : PLDA :=
  mk_PLDA (num_phi o) (num_iter o) (_feat_dim o) (_labels o) (verbose_ o) v
    (_dtype o) (_rand_state o) (Sigma_ o) (Phi_ o) (Sb_ o) (St_ o)
    (Lambda_ o) (Uk_ o) (Q_hat_ o) (X_model_ o) (_num_classes o).
Definition set_rand_state (v : rand_state ext) (o : PLDA) : PLDA :=
  mk_PLDA (num_phi o) (num_iter o) (_feat_dim o) (_labels o) (verbose_ o)
    (_normalizer o) (_dtype o) v (Sigma_ o) (Phi_ o) (Sb_ o) (St_ o)
    (Lambda_ o) (Uk_ o) (Q_hat_ o) (X_model_ o) (_num_classes o).
Definition set_Sigma (v : option matrix) (o : PLDA) : PLDA :=
  mk_PLDA (num_phi o) (num_iter o) (_feat_dim o) (_labels o) (verbose_ o)
    (_normalizer o) (_dtype o) (_rand_state o) v (Phi_ o) (Sb_ o) (St_ o)
    (Lambda_ o) (Uk_ o) (Q_hat_ o) (X_model_ o) (_num_classes o).
Definition set_Phi (v : option matrix) (o : PLDA) : PLDA :=
  mk_PLDA (num_phi o) (num_iter o) (_feat_dim o) (_labels o) (verbose_ o)
    (_normalizer o) (_dtype o) (_rand_state o) (Sigma_ o) v (Sb_ o) (St_ o)
    (Lambda_ o) (Uk_ o) (Q_hat_ o) (X_model_ o) (_num_classes o).
Definition set_Sb (v : option matrix) (o : PLDA) : PLDA :=
  mk_PLDA (num_phi o) (num_iter o) (_feat_dim o) (_labels o) (verbose_ o)
    (_normalizer o) (_dtype o) (_rand_state o) (Sigma_ o) (Phi_ o) v (St_ o)
    (Lambda_ o) (Uk_ o) (Q_hat_ o) (X_model_ o) (_num_classes o).
Definition set_St (v : option matrix) (o : PLDA) : PLDA :=
  mk_PLDA (num_phi o) (num_iter o) (_feat_dim o) (_labels o) (verbose_ o)
    (_normalizer o) (_dtype o) (_rand_state o) (Sigma_ o) (Phi_ o) (Sb_ o) v
    (Lambda_ o) (Uk_ o) (Q_hat_ o) (X_model_ o) (_num_classes o).
Definition set_Lambda (v : option matrix) (o : PLDA) : PLDA :=
  mk_PLDA (num_phi o) (num_iter o) (_feat_dim o) (_labels o) (verbose_ o)
    (_normalizer o) (_dtype o) (_rand_state o) (Sigma_ o) (Phi_ o) (Sb_ o) (St_ o)
    v (Uk_ o) (Q_hat_ o) (X_model_ o) (_num_classes o).
Definition set_Uk (v : option matrix) (o : PLDA) : PLDA :=
  mk_PLDA (num_phi o) (num_iter o) (_feat_dim o) (_labels o) (verbose_ o)
    (_normalizer o) (_dtype o) (_rand_state o) (Sigma_ o) (Phi_ o) (Sb_ o) (St_ o)
    (Lambda_ o) v (Q_hat_ o) (X_model_ o) (_num_classes o).
Definition set_Q_hat (v : option matrix) (o : PLDA) : PLDA :=
  mk_PLDA (num_phi o) (num_iter o) (_feat_dim o) (_labels o) (verbose_ o)
    (_normalizer o) (_dtype o) (_rand_state o) (Sigma_ o) (Phi_ o) (Sb_ o) (St_ o)
    (Lambda_ o) (Uk_ o) v (X_model_ o) (_num_classes o).
Definition set_X_model (v : option matrix) (o : PLDA) : PLDA :=
  mk_PLDA (num_phi o) (num_iter o) (_feat_dim o) (_labels o) (verbose_ o)
    (_normalizer o) (_dtype o) (_rand_state o) (Sigma_ o) (Phi_ o) (Sb_ o) (St_ o)
    (Lambda_ o) (Uk_ o) (Q_hat_ o) v (_num_classes o).

Declare Scope method_scope.
Delimit Scope method_scope with method.
Notation "x <- c ;; k" := (mbind c (fun x => k))
  (at level 61, c at next level, right associativity) : method_scope.
Notation "c ;;; k" := (mbind c (fun _ => k))
  (at level 61, right associativity) : method_scope.
Notation "' pat <- c ;; k" := (mbind c (fun x => match x with pat => k end))
  (at level 61, pat pattern, c at next level, right associativity) : method_scope.

Local Open Scope method_scope.

(** [PLDA(num_phi, num_iter, centering, wccn, unit_length, labels, dtype,
    seed, verbose)]. *)
Definition __init__ (num_phi num_iter : Z) (centering wccn unit_length : bool)
           (labels : option (list Z)) (dtype : string) (seed verbose : Z) : PLDA :=
  mk_PLDA num_phi num_iter None labels verbose
    (VectorNormalizer ext centering wccn unit_length)
    dtype (RandomState ext seed)
    None None None None
    None None None None
    (base_num_classes ext).

(** The [is_fitted] property: all four cached attributes exist. *)
Definition is_fitted (self : PLDA) : bool :=
  match Lambda_ self, Uk_ self, Q_hat_ self, X_model_ self with
  | Some _, Some _, Some _, Some _ => true
  | _, _, _, _ => false
  end.

(** The [num_classes] property: [len(self._labels)]. *)
Definition num_classes : method nat :=
  fun self => match _labels self with
              | Some ls => (self, Ok (List.length ls))
              | None => (self, Raise TypeError)
              end.

(* ==================== Pickling ==================== *)

Definition __getstate__ (self : PLDA) : result pickled :=
  match Lambda_ self, Uk_ self, Q_hat_ self, X_model_ self with
  | Some L, Some U, Some Qh, Some Xm =>
      Ok (mk_pickled (num_phi self) (num_iter self) (_feat_dim self)
            (_labels self) (verbose_ self) (_normalizer self) (_dtype self)
            (_rand_state self) (Sigma_ self) (Phi_ self) (Sb_ self) (St_ self)
            L U Qh Xm)
  | _, _, _, _ => Raise RuntimeError
  end.

(** [__setstate__]: the tuple is unpacked into the attributes, nothing
    else. *)
Definition __setstate__ (self : PLDA) (states : pickled) : PLDA * result unit :=
  (mk_PLDA (p_num_phi states) (p_num_iter states) (p_feat_dim states)
     (p_labels states) (p_verbose states) (p_normalizer states)
     (p_dtype states) (p_rand_state states)
     (p_Sigma states) (p_Phi states) (p_Sb states) (p_St states)
     (Some (p_Lambda states)) (Some (p_Uk states)) (Some (p_Q_hat states))
     (Some (p_X_model states))
     (_num_classes self),
   Ok tt).

(* ==================== helpers ==================== *)

(** [self._rand_state.randn(n, m)] for Python ints [n], [m]. *)
Definition draw (n m : Z) : method matrix :=
  n' <- call (dim n) ;;
  m' <- call (dim m) ;;
  rs <- attr _rand_state ;;
  let '(r, rs') := randn ext rs n' m' in
  assign (set_rand_state rs') ;;;
  mret r.

(** [self.feat_dim is None or self._num_classes is None]: the second
    operand is looked up only when the first is false. *)
Definition needs_initialising : method bool :=
  fd <- attr _feat_dim ;;
  match fd with
  | None => mret true
  | Some _ =>
      nc <- attr _num_classes ;;
      match nc with
      | None => mraise AttributeError
      | Some None => mret true
      | Some (Some _) => mret false
      end
  end.

Definition initialize (X : matrix) (labels : list Z) : method unit :=
  let feat_dim := Z.of_nat (shape1 X) in
  fresh <- needs_initialising ;;
  (if fresh : bool then
     assign (set_feat_dim (Some feat_dim)) ;;;
     old_labels <- attr _labels ;;
     (match old_labels with
      | None => assign (set_labels (Some labels))
      | Some _ => mret tt
      end) ;;;
     phi <- attr num_phi ;;
     if (feat_dim <=? phi)%Z then mraise RuntimeError
     else
       (* Sigma_ = 1. / feat_dim * eye(feat_dim) + randn(feat_dim, feat_dim) *)
       (if (feat_dim =? 0)%Z then mraise ZeroDivisionError else mret tt) ;;;
       noise <- draw feat_dim feat_dim ;;
       sigma <- call (mat_add (mat_scale (1 / inject_Z feat_dim)
                                         (np_eye (Z.to_nat feat_dim))) noise) ;;
       assign (set_Sigma (Some sigma)) ;;;
       (* Phi_ = normalizer.transform(randn(num_phi, feat_dim)).T *)
       r <- draw phi feat_dim ;;
       nz <- attr _normalizer ;;
       r <- call (normalizer_transform ext nz r) ;;
       assign (set_Phi (Some (mat_T r))) ;;;
       assign (set_Sb (Some (np_zeros (Z.to_nat feat_dim) (Z.to_nat feat_dim)))) ;;;
       assign (set_St (Some (np_zeros (Z.to_nat feat_dim) (Z.to_nat feat_dim))))
   else mret tt) ;;;
  (* validate the dimension *)
  fd <- attr _feat_dim ;;
  (if match fd with Some d => (d =? feat_dim)%Z | None => false end
   then mret tt else mraise ValueError) ;;;
  k <- num_classes ;;
  if (k =? List.length labels)%nat then mret tt else mraise ValueError.

(* ==================== sklearn ==================== *)

Definition _update_caches : method unit :=
  St <- array_attr ValueError St_ ;;
  iSt <- call (inv ext St) ;;
  Sb <- array_attr TypeError Sb_ ;;
  t <- call (np_dot Sb iSt) ;;
  t <- call (np_dot t Sb) ;;
  t <- call (mat_sub St t) ;;
  iS <- call (inv ext t) ;;
  Q <- call (mat_sub iSt iS) ;;
  t <- call (np_dot iSt Sb) ;;
  P <- call (np_dot t iS) ;;
  '(U, s, V) <- call (svd ext P) ;;
  phi <- attr num_phi ;;
  assign (set_Lambda (Some (np_diag (py_slice_to phi s)))) ;;;
  let Uk := mk_ndarray (shape0 U) (List.length (py_slice_to phi (seq 0 (shape1 U))))
              (map (py_slice_to phi) (rows U)) in
  assign (set_Uk (Some Uk)) ;;;
  t <- call (np_dot (mat_T Uk) Q) ;;
  Qh <- call (np_dot t Uk) ;;
  assign (set_Q_hat (Some Qh)).

(** [np.flatnonzero(xs == v)[0]]. *)
Fixpoint first_index (v : Z) (xs : list Z) : result nat :=
  match xs with
  | [] => Raise IndexError
  | x :: xs' => if (x =? v)%Z then Ok O
                else rbind (first_index v xs') (fun i => Ok (S i))
  end.

(** [a[i]] for a list and a position within [range]. *)
Definition item {A : Type} (xs : list A) (i : nat) : result A :=
  match nth_error xs i with
  | Some x => Ok x
  | None => Raise IndexError
  end.

(** [Ey_clz * cls_counts[:, None]]: every row times the count of its
    class; a single count is broadcast over the rows. *)
Definition scale_rows (m : matrix) (counts : list Z) : result matrix :=
  if (List.length counts =? shape0 m)%nat then
    Ok (mk_ndarray (shape0 m) (shape1 m)
          (map (fun p => map (Qmult (inject_Z (snd p))) (fst p))
               (combine (rows m) counts)))
  else match counts with
       | [c] => Ok (mat_scale (inject_Z c) m)
       | _ => Raise ValueError
       end.

(** The first loop of [expectation_plda]: one inverse per distinct count. *)
Definition inv_term (I PhiT_invS_Phi : matrix) (invTerms : list matrix) (n : Z)
  : result (list matrix) :=
  (m <- mat_add I (mat_scale (inject_Z n) PhiT_invS_Phi) ;;
   c <- inv ext m ;;
   Ok (invTerms ++ [c]))%py.

(** The second loop: the accumulator is [(Ey_clz, Eyy)]. *)
Definition expectation_class (F : matrix) (cls_counts uniqFreqs : list Z)
           (invTerms : list matrix) (PhiT_invS : matrix)
           (acc : matrix * matrix) (clz : nat) : result (matrix * matrix) :=
  let '(Ey_clz, Eyy) := acc in
  (num_samples <- item cls_counts clz ;;
   Fc <- get_row F (Z.of_nat clz) ;;
   PhiT_invS_y <- np_dot_vec PhiT_invS Fc ;;
   idx <- first_index num_samples uniqFreqs ;;
   Cyy <- item invTerms idx ;;
   row <- np_dot_vec Cyy PhiT_invS_y ;;
   Ey_clz <- set_row Ey_clz (Z.of_nat clz) row ;;
   Eyy <- mat_add Eyy (mat_scale (inject_Z num_samples) Cyy) ;;
   Ok (Ey_clz, Eyy))%py.

Definition expectation_plda (F : matrix) (cls_counts : list Z)
  : method (matrix * matrix) :=
  let num_classes := shape0 F in
  phi <- attr num_phi ;;
  p <- call (dim phi) ;;
  let Eyy := np_zeros p p in
  let Ey_clz := np_zeros num_classes p in
  let uniqFreqs := unique_keep_order cls_counts in
  Sigma <- array_attr AttributeError Sigma_ ;;
  Phi <- array_attr ValueError Phi_ ;;
  t <- call (solve ext (mat_T Sigma) Phi) ;;
  let PhiT_invS := mat_T t in
  PhiT_invS_Phi <- call (np_dot PhiT_invS Phi) ;;
  let I := np_eye p in
  invTerms <- call (for_each (inv_term I PhiT_invS_Phi) uniqFreqs []) ;;
  '(Ey_clz, Eyy) <-
     call (for_each (expectation_class F cls_counts uniqFreqs invTerms PhiT_invS)
                    (seq 0 num_classes) (Ey_clz, Eyy)) ;;
  weighted <- call (scale_rows Ey_clz cls_counts) ;;
  outer <- call (np_dot (mat_T weighted) Ey_clz) ;;
  Eyy <- call (mat_add Eyy outer) ;;
  mret (Ey_clz, Eyy).

(** [logdet(A)]: twice the sum of the logs of the Cholesky factor's
    diagonal. *)
Definition logdet (A : matrix) : result npfloat :=
  (u <- cholesky ext A ;;
   let diag := map (fun i => nth i (nth i (rows u) []) 0)
                   (seq 0 (Nat.min (shape0 u) (shape1 u))) in
   Ok (np_mul (Fin 2) (np_sum (map (np_log ext) diag))))%py.

Definition compute_llk (X : matrix) : method npfloat :=
  let num_samples := inject_Z (Z.of_nat (shape0 X)) in
  Phi <- array_attr AttributeError Phi_ ;;
  S <- call (np_dot Phi (mat_T Phi)) ;;
  Sigma <- array_attr TypeError Sigma_ ;;
  S <- call (mat_add S Sigma) ;;
  fd <- attr _feat_dim ;;
  match fd with
  | None => mraise TypeError
  | Some feat_dim =>
      ld <- call (logdet S) ;;
      t <- call (solve ext S (mat_T X)) ;;
      prod <- call (mat_mul X (mat_T t)) ;;
      let total := fold_left Qplus (List.concat (rows prod)) 0 in
      mret (np_mul (Fin (- (1 # 2)))
              (np_add (np_add (np_mul (Fin (inject_Z feat_dim * num_samples))
                                      (np_log ext (2 * np_pi ext)))
                              (np_mul (Fin num_samples) ld))
                      (Fin total)))
  end.

Definition maximization_plda (X X_sqr F Ey Eyy : matrix) : method unit :=
  let num_samples := shape0 X in
  Ey_FT <- call (np_dot (mat_T Ey) F) ;;
  Z <- call (solve ext (mat_T Eyy) Ey_FT) ;;
  assign (set_Phi (Some (mat_T Z))) ;;;
  (* 1. / num_samples *)
  (if (num_samples =? 0)%nat then mraise ZeroDivisionError else mret tt) ;;;
  Phi <- array_attr AttributeError Phi_ ;;
  t <- call (np_dot Phi Ey_FT) ;;
  d <- call (mat_sub X_sqr t) ;;
  assign (set_Sigma (Some (mat_scale (1 / inject_Z (Z.of_nat num_samples)) d))).

(** The body of [for clz in np.unique(y)]:
    [F[clz, :] = X[y == clz, :].sum(axis=0)]. *)
Definition accumulate_class (X : matrix) (y : list Z) (F : matrix) (clz : Z)
  : result matrix :=
  (total <- sum_rows_where X (map (Z.eqb clz) y) ;;
   set_row F clz total)%py.

(** The body of [for iter in range(self.num_iter)]. *)
Definition em_iteration (X X_sqr F : matrix) (y_counts : list Z)
           (_ : unit) (iter : nat) : method unit :=
  '(Ey, Eyy) <- expectation_plda F y_counts ;;
  maximization_plda X X_sqr F Ey Eyy ;;;
  v <- attr verbose_ ;;
  if (1 <? v)%Z then (_ <- compute_llk X ;; mret tt) else mret tt.

Definition fit (X : matrix) (y : list Z) : method unit :=
  (if (shape0 X =? List.length y)%nat then mret tt else mraise AssertionError) ;;;
  (* normalize and initialize *)
  y_counts <- call (np_bincount y) ;;
  let classes := np_unique y in
  nz <- attr _normalizer ;;
  nz <- call (normalizer_fit ext nz X y) ;;
  assign (set_normalizer nz) ;;;
  X <- call (normalizer_transform ext nz X) ;;
  initialize X classes ;;;
  (* Initializing *)
  k <- num_classes ;;
  fd <- attr _feat_dim ;;
  d <- match fd with
       | Some d => call (dim d)
       | None => mraise TypeError
       end ;;
  F <- call (for_each (accumulate_class X y) (np_unique y) (np_zeros k d)) ;;
  X_sqr <- call (np_dot (mat_T X) X) ;;
  n <- attr num_iter ;;
  mfor (em_iteration X X_sqr F y_counts) (seq 0 (Z.to_nat n)) tt ;;;
  (* Update the eigenvoice space *)
  Phi <- array_attr AttributeError Phi_ ;;
  Sb <- call (np_dot Phi (mat_T Phi)) ;;
  assign (set_Sb (Some Sb)) ;;;
  Sigma <- array_attr TypeError Sigma_ ;;
  St <- call (mat_add Sb Sigma) ;;
  assign (set_St (Some St)) ;;;
  (* the default class_avg *)
  _update_caches ;;;
  model_vecs <- call (compute_class_avg ext X y classes) ;;
  Uk <- array_attr AttributeError Uk_ ;;
  Xm <- call (np_dot model_vecs Uk) ;;
  assign (set_X_model (Some Xm)).

Definition transform (X : matrix) : method matrix :=
  fitted <- attr is_fitted ;;
  if negb fitted then mraise RuntimeError
  else
    nz <- attr _normalizer ;;
    X_norm <- call (normalizer_transform ext nz X) ;;
    Uk <- array_attr AttributeError Uk_ ;;
    call (np_dot X_norm Uk).

(** [np.sum(np.dot(A, Q) * A, axis=1)]: one quadratic form per row. *)
Definition row_quadratic_forms (A Qh : matrix) : result vector :=
  (AQ <- np_dot A Qh ;;
   prod <- mat_mul AQ A ;;
   Ok (map (fun r => fold_left Qplus r 0) (rows prod)))%py.

Definition predict_log_proba (X : matrix) (X_model : option matrix)
  : method matrix :=
  fitted <- attr is_fitted ;;
  if negb fitted then mraise RuntimeError
  else
    nz <- attr _normalizer ;;
    Uk <- array_attr AttributeError Uk_ ;;
    (* check X_model *)
    X_model <- match X_model with
               | None => array_attr AttributeError X_model_
               | Some Xm =>
                   t <- call (normalizer_transform ext nz Xm) ;;
                   call (np_dot t Uk)
               end ;;
    k <- num_classes ;;
    if negb (shape0 X_model =? k)%nat then mraise ValueError
    else
      (* transform the input matrices *)
      t <- call (normalizer_transform ext nz X) ;;
      X <- call (np_dot t Uk) ;;
      Qh <- array_attr AttributeError Q_hat_ ;;
      score_h1 <- call (row_quadratic_forms X_model Qh) ;;
      score_h2 <- call (row_quadratic_forms X Qh) ;;
      L <- array_attr AttributeError Lambda_ ;;
      t <- call (np_dot X_model L) ;;
      cross <- call (np_dot X (mat_T t)) ;;
      let score_h1h2 := mat_scale 2 cross in
      (* scores = score_h1h2 + score_h1.T + score_h2 *)
      mret (mk_ndarray (shape0 score_h1h2) (shape1 score_h1h2)
              (map (fun p => map (fun q => fst q + snd q + snd p)
                                 (combine (fst p) score_h1))
                   (combine (rows score_h1h2) score_h2))).

End Estimator.

End Plda.

(* ================================================================== *)
(** ** A reference implementation of the externals

Exact Gauss-Jordan elimination for [solve] and [inv], the identity for
the normaliser, a fixed stream for the random generator. It is what the
closed examples below run the estimator on. *)

Module Reference.
Import Plda.

(** [r - a * p]. *)
Definition row_axpy (a : Q) (p r : vector) : vector :=
  vzip (fun x y => Qred (y - a * x)) p r.

(** The first row with a non-zero entry in column [c], and the others. *)
Fixpoint find_pivot (c : nat) (todo : list vector) : option (vector * list vector) :=
  match todo with
  | [] => None
  | r :: rest =>
      if Qeq_bool (nth c r 0) 0
      then match find_pivot c rest with
           | Some (p, others) => Some (p, r :: others)
           | None => None
           end
      else Some (r, rest)
  end.

Fixpoint gauss_jordan (cols : list nat) (done todo : list vector)
  : option (list vector) :=
  match cols with
  | [] => Some done
  | c :: cols' =>
      match find_pivot c todo with
      | None => None
      | Some (p, others) =>
          let p' := map (fun x => Qred (x / nth c p 0)) p in
          let clear r := row_axpy (nth c r 0) p' r in
          gauss_jordan cols' (map clear done ++ [p']) (map clear others)
      end
  end.

(** [solve a b]: the solution found by elimination is returned only after
    it has been multiplied back. *)
Definition solve (a b : matrix) : result matrix :=
  if negb ((shape0 a =? shape1 a)%nat && (shape0 a =? shape0 b)%nat)
  then Raise ValueError
  else
    let n := shape0 a in
    match gauss_jordan (seq 0 n) [] (map (fun p => fst p ++ snd p)
                                         (combine (rows a) (rows b))) with
    | None => Raise LinAlgError
    | Some done =>
        let z := mk_ndarray n (shape1 b) (map (skipn n) done) in
        match np_dot a z with
        | Ok az => if mat_eqb az b then Ok z else Raise LinAlgError
        | Raise e => Raise e
        end
    end.

Definition inv (a : matrix) : result matrix := solve a (np_eye (shape0 a)).

(** A truncated series for the logarithm:
    [2 * (z + z^3/3 + z^5/5)] with [z = (x - 1) / (x + 1)]. *)
Definition np_log (x : Q) : npfloat :=
  if Qeq_bool x 0 then Inf false
  else if Qltb x 0 then NaN
  else let z := (x - 1) / (x + 1) in
       Fin (Qred (2 * (z + z * z * z / 3 + z * z * z * z * z / 5))).

(** The generator's state is a counter; [randn(n, m)] hands out the next
    [n * m] values of a fixed pattern. *)
Definition randn (state : Z) (n m : nat) : matrix * Z :=
  (mk_ndarray n m
     (map (fun i => map (fun j =>
                           let k := (state + Z.of_nat (i * m + j))%Z in
                           (((k * k + 3 * k + 1) mod 7) - 3) # 4)
                        (seq 0 m))
          (seq 0 n)),
   (state + Z.of_nat (n * m))%Z).

(** The mean of the rows of every class. *)
Definition compute_class_avg (X : matrix) (y classes : list Z) : result matrix :=
  (means <- for_each
     (fun acc c =>
        let mask := map (Z.eqb c) y in
        total <- sum_rows_where X mask ;;
        let n := inject_Z (Z.of_nat (Metrics.count_true mask)) in
        Ok (acc ++ [map (fun t => Qred (t / n)) total]))
     classes [] ;;
   Ok (mk_ndarray (List.length classes) (shape1 X) means))%py.

Definition externals : Externals :=
  {| Plda.solve := solve;
     Plda.inv := inv;
     Plda.svd := fun P => Raise LinAlgError;
     Plda.cholesky := fun A => Raise LinAlgError;
     Plda.np_log := np_log;
     Plda.np_pi := 355 # 113;
     Plda.rand_state := Z;
     Plda.RandomState := fun seed => seed;
     Plda.randn := randn;
     Plda.normalizer := unit;
     Plda.VectorNormalizer := fun _ _ _ => tt;
     Plda.normalizer_fit := fun nz _ _ => Ok nz;
     Plda.normalizer_transform := fun _ X => Ok X;
     Plda.compute_class_avg := compute_class_avg;
     Plda.base_num_classes := None |}.

(** A singular value decomposition for the matrices that are one already:
    square and diagonal, with non-negative entries in non-increasing
    order. Then [U = V = I] and the singular values are the diagonal; any
    other matrix is refused. *)
Definition diagonal_of (P : matrix) : vector :=
  map (fun i => nth i (nth i (rows P) []) 0) (seq 0 (shape0 P)).

Fixpoint non_increasing (s : vector) : bool :=
  match s with
  | a :: (b :: _) as rest => Qle_bool b a && non_increasing rest
  | _ => true
  end.

Definition svd_of_diagonal (P : matrix) : result (matrix * vector * matrix) :=
  let s := diagonal_of P in
  if (shape0 P =? shape1 P)%nat && mat_eqb P (np_diag s)
     && forallb (Qle_bool 0) s && non_increasing s
  then Ok (np_eye (shape0 P), s, np_eye (shape0 P))
  else Raise LinAlgError.

(** The reference externals with that decomposition in the place of
    [svd]. *)
Definition externals_svd : Externals :=
  {| Plda.solve := solve;
     Plda.inv := inv;
     Plda.svd := svd_of_diagonal;
     Plda.cholesky := fun A => Raise LinAlgError;
     Plda.np_log := np_log;
     Plda.np_pi := 355 # 113;
     Plda.rand_state := Z;
     Plda.RandomState := fun seed => seed;
     Plda.randn := randn;
     Plda.normalizer := unit;
     Plda.VectorNormalizer := fun _ _ _ => tt;
     Plda.normalizer_fit := fun nz _ _ => Ok nz;
     Plda.normalizer_transform := fun _ X => Ok X;
     Plda.compute_class_avg := compute_class_avg;
     Plda.base_num_classes := None |}.

End Reference.
(* ================================================================== *)
(** ** Notions the properties are stated with *)

Import Plda.

(** A matrix given by its rows. *)
Definition matrix_of_rows (r : list (list Q)) : matrix :=
  mk_ndarray (List.length r) (List.length (hd [] r)) r.

(** The states of the estimator: it is initialised once [initialize] has
    allocated [Sigma_], [Phi_], [Sb_] and [St_]. *)
Definition allocated {ext : Externals} (self : PLDA ext) : bool :=
  match Sigma_ self, Phi_ self, Sb_ self, St_ self with
  | Some _, Some _, Some _, Some _ => true
  | _, _, _, _ => false
  end.

(** What [__setstate__] leaves behind. *)
Definition restored {ext : Externals} (self : PLDA ext) (states : pickled ext)
  : PLDA ext :=
  fst (__setstate__ self states).

(** A pickled bundle agrees with itself when [Phi] is a
    [feat_dim x num_phi] matrix, and with the object it is restored into when
    it carries that object's [feat_dim] and [num_phi]. *)
Definition bundle_consistent {ext : Externals} (self : PLDA ext)
           (states : pickled ext) : bool :=
  match p_feat_dim states, p_Phi states with
  | Some d, Some Phi =>
      (Z.of_nat (shape0 Phi) =? d)%Z &&
      (Z.of_nat (shape1 Phi) =? p_num_phi states)%Z &&
      (p_num_phi states =? num_phi self)%Z &&
      match _feat_dim self with
      | Some d' => (d =? d')%Z
      | None => true
      end
  | _, _ => false
  end.

Section EditDistance.
Variable A : Type.
Variable eqb : A -> A -> bool.

(** The classic edit distance. [edits s t n]: [s] is turned into [t] by [n] single-element insertions,
    deletions and substitutions. *)
Inductive edits : list A -> list A -> nat -> Prop :=
| edits_nil : edits [] [] 0
| edits_keep a s t n : edits s t n -> edits (a :: s) (a :: t) n
| edits_subst a b s t n : edits s t n -> edits (a :: s) (b :: t) (S n)
| edits_delete a s t n : edits s t n -> edits (a :: s) t (S n)
| edits_insert b s t n : edits s t n -> edits s (b :: t) (S n).

(** The recursive distance, in the shape of the recurrence the code runs:
    equal first elements cost nothing, otherwise one more than the least of
    the three neighbours. *)
Fixpoint lev_rec (s : list A) : list A -> nat :=
  match s with
  | [] => fun t => List.length t
  | a :: s' =>
      fix lev_s (t : list A) : nat :=
        match t with
        | [] => S (List.length s')
        | b :: t' =>
            if eqb a b then lev_rec s' t'
            else S (Nat.min (Nat.min (lev_rec s' t') (lev_s t')) (lev_rec s' (b :: t')))
        end
  end.
(** The row of the dynamic program after the prefix [p2] of [s2]: entry [i]
    is the distance between the first [i] elements of [s1] and [p2]. *)
Definition lev_row (s1 p2 : list A) : list nat :=
  map (fun i => lev_rec (rev (firstn i s1)) (rev p2)) (seq 0 (S (List.length s1))).

End EditDistance.

(** Cavg in the words of the specification. A class is a column of the
    score matrix. The error rate of class [i] against column [j] is the
    number of samples of class [i] whose score in column [j] is a hit,
    divided by the number of samples of class [i], floored to 1: a miss is
    an own-class score strictly below the threshold, a false alarm a
    cross-class score at or above it. *)
Definition valid_class {A : Type} (y : ndarray A) (c : Z) : Prop :=
  (0 <= c < Z.of_nat (shape1 y))%Z.

(** The clusters [Cavg] works on: those given, or the single cluster of all
    the columns. *)
Definition effective_clusters {A : Type} (y : ndarray A)
           (cluster_idx : option (list (list Z))) : list (list Z) :=
  match cluster_idx with
  | None => [map Z.of_nat (seq 0 (shape1 y))]
  | Some cs => cs
  end.

Definition error_rate (hit : npfloat -> bool) (y : ndarray npfloat)
           (y_true : list Z) (i j : Z) : Q :=
  inject_Z (Z.of_nat (List.length
     (filter (fun p => Z.eqb i (fst p) && hit (nth (Z.to_nat j) (snd p) NaN))
             (combine y_true (rows y)))))
  / inject_Z (Z.of_nat (Nat.max (count_occ Z.eq_dec y_true i) 1)).

Definition miss_rate (thresh : npfloat) (y : ndarray npfloat) (y_true : list Z)
           (i : Z) : Q :=
  error_rate (fun x => np_lt x thresh) y y_true i i.

Definition false_alarm_rate (thresh : npfloat) (y : ndarray npfloat)
           (y_true : list Z) (i j : Z) : Q :=
  error_rate (fun x => np_ge x thresh) y y_true i j.

Definition Qsum (xs : list Q) : Q := fold_right Qplus 0 xs.

(** [100 (Cmiss Ptar sum_i miss_i + Cfa (1 - Ptar) sum_i sum_(j <> i) fa_ij
    / (L - 1)) / L]. *)
Definition cluster_cost_spec (Ptar Cfa Cmiss : Q) (thresh : npfloat)
           (y : ndarray npfloat) (y_true : list Z) (cluster : list Z) : Q :=
  let L := inject_Z (Z.of_nat (List.length cluster)) in
  let misses := Qsum (map (miss_rate thresh y y_true) cluster) in
  let false_alarms :=
    Qsum (map (fun i => Qsum (map (false_alarm_rate thresh y y_true i)
                                  (filter (fun j => negb (Z.eqb i j)) cluster)))
              cluster) in
  100 * (Cmiss * Ptar * misses + Cfa * (1 - Ptar) * false_alarms / (L - 1)) / L.

(** A Python number that is neither nan nor inf. *)
Definition finite_num (a : Metrics.pynum) : Prop :=
  match a with
  | Metrics.NpFloat (Fin _) => True
  | Metrics.NpFloat _ => False
  | _ => True
  end.

(** The distinct labels are exactly [0 .. num_classes - 1]. *)
Definition labels_are_range (y : list Z) : Prop :=
  np_unique y = map Z.of_nat (seq 0 (List.length (np_unique y))).

(** The re-estimate of [Phi] in the words of the specification:
    [solve(Eyy, Ey^T F)^T]. *)
Definition spec_Phi (ext : Externals) (Ey Eyy F : matrix) : result matrix :=
  (Ey_FT <- np_dot (mat_T Ey) F ;;
   Z <- solve ext Eyy Ey_FT ;;
   Ok (mat_T Z))%py.

(** What is assumed of a linear solver: what it returns solves the system. *)
Definition solve_sound (ext : Externals) : Prop :=
  forall a b z, solve ext a b = Ok z ->
                shape1 a = shape0 z /\ mat_eqb (matmul a z) b = true.

(** A small data set: four samples of three features, two per class, and
    an estimator with two latent dimensions and one EM iteration. *)
Definition example_X : matrix :=
  matrix_of_rows [[1; 0; 2]; [0; 1; 1]; [1; 1; 0]; [2; 0; 1]].

Definition example_y : list Z := [0; 0; 1; 1]%Z.

Definition example_plda : PLDA Reference.externals :=
  __init__ Reference.externals 2 1 true true true None "float64" 5218 0.

(** The per-class sums [F] of the data set, as [fit] accumulates them. *)
Definition example_F : matrix := matrix_of_rows [[1; 1; 3]; [3; 1; 1]].

(** A bundle that disagrees with itself and with [example_plda]: it
    announces 3 features and 7 latent dimensions next to a 1 x 1 [Phi]. *)
Definition inconsistent_bundle : pickled Reference.externals :=
  mk_pickled Reference.externals 7 12 (Some 3%Z) (Some [0; 1]%Z) 0 tt "float64" 0%Z
    (Some (np_eye 3)) (Some (matrix_of_rows [[1]])) (Some (np_zeros 3 3))
    (Some (np_zeros 3 3))
    (np_eye 7) (np_zeros 3 7) (np_eye 7) (np_zeros 2 7).

(** The order of a stable sort of indices: by key, and by position among
    equal keys. *)
Definition key_then_index (keys : list Q) (i j : nat) : Prop :=
  nth i keys 0 < nth j keys 0 \/ (nth i keys 0 == nth j keys 0 /\ (i < j)%nat).

(** The trials [det_curve] sorts: every false score with the mark 0, then
    every true score with the mark 1. *)
Definition det_trials (true_scores false_scores : list Q) : list (Q * Q) :=
  map (fun s => (s, 0)) false_scores ++ map (fun s => (s, 1)) true_scores.


(** A trial carries the mark 0 (false) or 1 (true). *)
Definition marked (p : Q * Q) : Prop := snd p = 0 \/ snd p = 1.

(** The true and the false trials of a list of marked trials. *)
Definition true_trials (l : list (Q * Q)) : list (Q * Q) :=
  filter (fun p => Qeq_bool (snd p) 1) l.

Definition false_trials (l : list (Q * Q)) : list (Q * Q) :=
  filter (fun p => Qeq_bool (snd p) 0) l.

(** The finite values of the two rate arrays of [det_curve]: the running
    count of true trials over their number, and the number of false
    trials less the running count of false trials, over their number. *)
Definition det_Pmiss (true_scores false_scores : list Q) : list Q :=
  let nb_true := inject_Z (Z.of_nat (List.length true_scores)) in
  map (fun x => x / nb_true)
      (Metrics.cumsum (map snd (Metrics.det_sorted_scores true_scores false_scores))).

Definition det_Pfa (true_scores false_scores : list Q) : list Q :=
  let nb_false := inject_Z (Z.of_nat (List.length false_scores)) in
  let total := (List.length true_scores + List.length false_scores)%nat in
  map (fun x => x / nb_false)
      (map (fun '(k, st) => nb_false - (inject_Z (Z.of_nat k) - st))
           (combine (seq 1 total)
                    (Metrics.cumsum
                       (map snd (Metrics.det_sorted_scores true_scores false_scores))))).

(** The detection cost of one point of a curve. *)
Definition detection_cost (Cmiss Cfa Ptrue : Q) (pmiss pfa : Q) : Q :=
  Cmiss * pmiss * Ptrue + Cfa * pfa * (1 - Ptrue).

(** [best] is the first position of a least value among the first [i]. *)
Definition first_least (all : list Q) (best i : nat) : Prop :=
  (best < i)%nat /\
  (forall j, (j < i)%nat -> nth best all 0 <= nth j all 0) /\
  (forall j, (j < best)%nat -> nth best all 0 < nth j all 0).

(** A method that assigns nothing: it hands [self] back as it got it. *)
Definition read_only {ext : Externals} {A : Type} (m : method ext A) : Prop :=
  forall self, fst (m self) = self.

(** Two arrays of one shape. *)
Definition same_shape (a b : matrix) : Prop :=
  shape0 a = shape0 b /\ shape1 a = shape1 b.

(** A data set whose classes sum to zero: six samples of three features,
    four in class 0 and two in class 1, and an estimator over the
    externals that decompose a diagonal matrix. *)
Definition balanced_X : matrix :=
  matrix_of_rows [[1; 0; 0]; [-1; 0; 0]; [0; 1; 0]; [0; -1; 0]; [0; 0; 1]; [0; 0; -1]].

Definition balanced_y : list Z := [0; 0; 0; 0; 1; 1]%Z.

Definition balanced_plda : PLDA Reference.externals_svd :=
  __init__ Reference.externals_svd 2 1 true true true None "float64" 5218 0.

(** A fitted estimator: [example_plda] after a bundle of matching shapes
    has been restored into it. *)
Definition fitted_bundle : pickled Reference.externals :=
  mk_pickled Reference.externals 2 1 (Some 3%Z) (Some [0; 1]%Z) 0 tt "float64" 0%Z
    (Some (np_eye 3)) (Some (np_zeros 3 2)) (Some (np_zeros 3 3))
    (Some (np_eye 3))
    (np_eye 2) (matrix_of_rows [[1; 0]; [0; 1]; [0; 0]]) (np_eye 2)
    (matrix_of_rows [[1; 0]; [0; 1]]).

Definition fitted_plda : PLDA Reference.externals :=
  restored example_plda fitted_bundle.

(* ================================================================== *)
(** ** Properties of the estimator's life cycle *)

Section LifeCycle.
Variable ext : Externals.
Implicit Types (self : PLDA ext) (X : matrix).

Lemma is_fitted_false self :
  is_fitted self = false <->
  (Lambda_ self = None \/ Uk_ self = None \/ Q_hat_ self = None \/
   X_model_ self = None).
Proof.
  unfold is_fitted.
  destruct (Lambda_ self), (Uk_ self), (Q_hat_ self), (X_model_ self);
    split; intros H; try reflexivity; try discriminate; auto;
    repeat (destruct H as [H | H]; try discriminate).
Qed.

(** C7. An estimator that is not fitted -- one of the cached [Lambda_],
    [Uk_], [Q_hat_], [X_model_] is missing -- raises the not-fitted
    [RuntimeError] from [transform], from [predict_log_proba] and from
    [__getstate__], whatever the input, and is left as it was. *)
Theorem unfitted_calls_raise self X (X_model : option matrix) :
  (Lambda_ self = None \/ Uk_ self = None \/ Q_hat_ self = None \/
   X_model_ self = None) ->
  transform X self = (self, Raise RuntimeError) /\
  predict_log_proba X X_model self = (self, Raise RuntimeError) /\
  __getstate__ self = Raise RuntimeError.
Proof.
  intros H. apply is_fitted_false in H.
  unfold transform, predict_log_proba, __getstate__, mbind, attr.
  rewrite H. cbn.
  repeat split.
  unfold is_fitted in H.
  destruct (Lambda_ self), (Uk_ self), (Q_hat_ self), (X_model_ self);
    try reflexivity; discriminate.
Qed.

(** C2, as the code has it. [__setstate__] validates nothing: it accepts
    every state tuple, stores each field as it comes, and the object it
    leaves counts as fitted -- [__getstate__] gives the same tuple back. *)
Theorem setstate_accepts_every_bundle self (states : pickled ext) :
  snd (__setstate__ self states) = Ok tt /\
  num_phi (restored self states) = p_num_phi states /\
  _feat_dim (restored self states) = p_feat_dim states /\
  Phi_ (restored self states) = p_Phi states /\
  is_fitted (restored self states) = true /\
  __getstate__ (restored self states) = Ok states.
Proof.
  unfold restored, __setstate__, __getstate__, is_fitted; cbn.
  destruct states; cbn. repeat split.
Qed.

Ltac run_method :=
  unfold mbind, mret, mraise, attr, assign, call, array_attr; cbn.

(** With [feat_dim <= num_phi], [initialize] allocates nothing, in
    whatever state it is called. *)
Lemma initialize_small_allocates_nothing self X labels :
  (Z.of_nat (shape1 X) <= num_phi self)%Z ->
  let self' := fst (initialize X labels self) in
  num_phi self' = num_phi self /\
  Sigma_ self' = Sigma_ self /\ Phi_ self' = Phi_ self /\
  Sb_ self' = Sb_ self /\ St_ self' = St_ self /\
  Lambda_ self' = Lambda_ self /\ Uk_ self' = Uk_ self /\
  Q_hat_ self' = Q_hat_ self /\ X_model_ self' = X_model_ self.
Proof.
  intros Hle. apply Z.leb_le in Hle.
  unfold initialize, needs_initialising, num_classes. run_method.
  destruct (_feat_dim self) as [d|] eqn:Hfd; cbn.
  - destruct (_num_classes self) as [[k|]|] eqn:Hnc; cbn.
    + rewrite Hfd.
      destruct (d =? Z.of_nat (shape1 X))%Z; cbn.
      * destruct (_labels self); cbn; [|repeat split].
        destruct (_ =? _)%nat; cbn; repeat split.
      * repeat split.
    + destruct (_labels self); cbn; rewrite Hle; cbn; repeat split.
    + repeat split.
  - destruct (_labels self); cbn; rewrite Hle; cbn; repeat split.
Qed.

(** C6. On an estimator that has not been initialised, the first
    [initialize(X, labels)] with [X.shape[1] <= num_phi] raises the
    dimension [RuntimeError], for every [X] and every label set; nothing
    is allocated by it, and nothing will be by any later [initialize] on
    features that narrow: the estimator stays short of the initialised
    state and is not fitted. Of [X] only the width is looked at, not the
    data in it. *)
Theorem initialize_rejects_num_phi_ge_feat_dim self X labels :
  _feat_dim self = None ->
  allocated self = false ->
  (Z.of_nat (shape1 X) <= num_phi self)%Z ->
  snd (initialize X labels self) = Raise RuntimeError /\
  allocated (fst (initialize X labels self)) = false /\
  is_fitted (fst (initialize X labels self)) = is_fitted self /\
  (forall X' labels',
      (Z.of_nat (shape1 X') <= num_phi self)%Z ->
      allocated (fst (initialize X' labels' (fst (initialize X labels self))))
      = false) /\
  (forall X', shape1 X' = shape1 X ->
              initialize X' labels self = initialize X labels self).
Proof.
  intros Hfd Hal Hle.
  pose proof (initialize_small_allocates_nothing self X labels Hle) as Hkeep.
  cbn zeta in Hkeep.
  destruct Hkeep as (Hphi & HS & HP & HSb & HSt & HL & HU & HQ & HX).
  split; [|split; [|split; [|split]]].
  - apply Z.leb_le in Hle.
    unfold initialize, needs_initialising. run_method.
    rewrite Hfd; cbn.
    destruct (_labels self); cbn; rewrite Hle; reflexivity.
  - unfold allocated in *. rewrite HS, HP, HSb, HSt. exact Hal.
  - unfold is_fitted. rewrite HL, HU, HQ, HX. reflexivity.
  - intros X' labels' Hle'.
    rewrite <- Hphi in Hle'.
    pose proof (initialize_small_allocates_nothing _ X' labels' Hle') as Hk.
    cbn zeta in Hk.
    destruct Hk as (_ & HS' & HP' & HSb' & HSt' & _).
    unfold allocated in *.
    rewrite HS', HP', HSb', HSt', HS, HP, HSb, HSt. exact Hal.
  - intros X' Hsh. unfold initialize. now rewrite Hsh.
Qed.

(** A constructed estimator is in the uninitialised state. *)
Lemma constructed_uninitialised num_phi num_iter centering wccn unit_length
      labels dtype seed verbose :
  let self := __init__ ext num_phi num_iter centering wccn unit_length
                       labels dtype seed verbose in
  _feat_dim self = None /\ allocated self = false /\ is_fitted self = false.
Proof. repeat split. Qed.
End LifeCycle.

(* ================================================================== *)
(** ** Properties of the EM steps *)

Section EMSteps.
Variable ext : Externals.
Implicit Types (self : PLDA ext) (X F Ey Eyy : matrix).

Lemma mat_eqb_shape (a b : matrix) :
  mat_eqb a b = true -> shape0 a = shape0 b /\ shape1 a = shape1 b.
Proof.
  unfold mat_eqb. intros H.
  repeat (apply andb_prop in H; destruct H as [H ?]).
  split; now apply Nat.eqb_eq.
Qed.

(** C3, as the code has it. When the solver succeeds, the maximization
    step sets [Phi_] to the transpose of the solution [Z] of
    [Eyy^T Z = Ey^T F] -- the system of the transposed [Eyy] -- and
    [Sigma_] to [(X_sqr - Phi (Ey^T F)) / num_samples], with [num_samples]
    the number of rows of [X]; it touches nothing else. For a symmetric
    [Eyy] this [Phi_] is [solve(Eyy, Ey^T F)^T]. Inside an EM iteration the
    step runs on the [Ey], [Eyy] the expectation step has just returned. *)
Theorem maximization_plda_solves_transposed_system
        self X X_sqr F Ey Eyy (Z : matrix) :
  solve_sound ext ->
  shape0 Ey = shape0 F ->
  shape0 Eyy = shape1 Ey ->
  shape0 X_sqr = shape1 F ->
  shape1 X_sqr = shape1 F ->
  shape0 X <> 0%nat ->
  solve ext (mat_T Eyy) (matmul (mat_T Ey) F) = Ok Z ->
  let Ey_FT := matmul (mat_T Ey) F in
  let Phi := mat_T Z in
  let Sigma := mat_scale (1 / inject_Z (Z.of_nat (shape0 X)))
                         (zip_matrix Qminus X_sqr (matmul Phi Ey_FT)) in
  let self' := set_Sigma (Some Sigma) (set_Phi (Some Phi) self) in
  maximization_plda X X_sqr F Ey Eyy self = (self', Ok tt) /\
  mat_eqb (matmul (mat_T Eyy) Z) Ey_FT = true /\
  (mat_T Eyy = Eyy -> spec_Phi ext Ey Eyy F = Ok Phi) /\
  (forall y_counts iter self0,
      expectation_plda F y_counts self0 = (self, Ok (Ey, Eyy)) ->
      (verbose_ self <= 1)%Z ->
      em_iteration X X_sqr F y_counts tt iter self0 = (self', Ok tt)).
Proof.
  intros Hsound HEyF HEyy HX0 HX1 Hn Hsolve Ey_FT Phi Sigma self'.
  destruct (Hsound _ _ _ Hsolve) as [Hsh Heq].
  destruct (mat_eqb_shape _ _ Heq) as [Hs0 Hs1].
  assert (Hmax : maximization_plda X X_sqr F Ey Eyy self = (self', Ok tt)).
  { unfold maximization_plda, mbind, call, assign, array_attr, mret, mraise.
    unfold np_dot at 1.
    replace (shape1 (mat_T Ey) =? shape0 F)%nat with true
      by (symmetry; apply Nat.eqb_eq; exact HEyF).
    cbn [negb]. rewrite Hsolve. fold Ey_FT Phi.
    replace (shape0 X =? 0)%nat with false
      by (symmetry; apply Nat.eqb_neq; exact Hn).
    cbn [Phi_ set_Phi].
    unfold np_dot.
    replace (shape1 Phi =? shape0 Ey_FT)%nat with true
      by (symmetry; apply Nat.eqb_eq; cbn in *; congruence).
    cbn [negb]. unfold mat_sub, elementwise.
    replace (shape0 X_sqr =? shape0 (matmul Phi Ey_FT))%nat with true
      by (symmetry; apply Nat.eqb_eq; cbn in *; congruence).
    replace (shape1 X_sqr =? shape1 (matmul Phi Ey_FT))%nat with true
      by (symmetry; apply Nat.eqb_eq; cbn in *; congruence).
    reflexivity. }
  split; [exact Hmax|]. split; [exact Heq|]. split.
  - intros Hsym. unfold spec_Phi, rbind, np_dot.
    replace (shape1 (mat_T Ey) =? shape0 F)%nat with true
      by (symmetry; apply Nat.eqb_eq; exact HEyF).
    cbn [negb]. rewrite Hsym in Hsolve. rewrite Hsolve. reflexivity.
  - intros y_counts iter self0 Hexp Hv.
    unfold em_iteration, mbind at 1. rewrite Hexp.
    unfold mbind at 1. rewrite Hmax.
    unfold mbind, attr, mret. subst self'. cbn [verbose_ set_Sigma set_Phi].
    replace (1 <? verbose_ self)%Z with false
      by (symmetry; apply Z.ltb_ge; exact Hv).
    reflexivity.
Qed.
End EMSteps.

(** The reference solver multiplies its result back before returning it. *)
Lemma reference_solve_sound : solve_sound Reference.externals.
Proof.
  intros a b z. cbn [solve Reference.externals]. unfold Reference.solve.
  destruct (negb _); [discriminate|].
  destruct (Reference.gauss_jordan _ _ _) as [done|]; [|discriminate].
  set (z' := mk_ndarray _ _ _).
  unfold np_dot.
  destruct (shape1 a =? shape0 z')%nat eqn:Hsh; cbn [negb]; [|discriminate].
  destruct (mat_eqb (matmul a z') b) eqn:Heq; [|discriminate].
  intros H. injection H as <-.
  split; [now apply Nat.eqb_eq | exact Heq].
Qed.

(** The step on 1 x 1 matrices, with the reference solver. *)
Lemma maximization_plda_example :
  let X := matrix_of_rows [[3]] in
  let X_sqr := matrix_of_rows [[9]] in
  let F := matrix_of_rows [[2]] in
  let Ey := matrix_of_rows [[1]] in
  let Eyy := matrix_of_rows [[2]] in
  let Z := matrix_of_rows [[1]] in
  let Ey_FT := matmul (mat_T Ey) F in
  let Phi := mat_T Z in
  let Sigma := mat_scale (1 / inject_Z (Z.of_nat (shape0 X)))
                         (zip_matrix Qminus X_sqr (matmul Phi Ey_FT)) in
  let self' := set_Sigma (Some Sigma) (set_Phi (Some Phi) example_plda) in
  maximization_plda X X_sqr F Ey Eyy example_plda = (self', Ok tt) /\
  mat_eqb (matmul (mat_T Eyy) Z) Ey_FT = true /\
  (mat_T Eyy = Eyy -> spec_Phi Reference.externals Ey Eyy F = Ok Phi) /\
  (forall y_counts iter self0,
      expectation_plda F y_counts self0 = (example_plda, Ok (Ey, Eyy)) ->
      (verbose_ example_plda <= 1)%Z ->
      em_iteration X X_sqr F y_counts tt iter self0 = (self', Ok tt)).
Proof.
  apply (@maximization_plda_solves_transposed_system Reference.externals
           example_plda (matrix_of_rows [[3]]) (matrix_of_rows [[9]])
           (matrix_of_rows [[2]]) (matrix_of_rows [[1]]) (matrix_of_rows [[2]])
           (matrix_of_rows [[1]]));
    [ exact reference_solve_sound
    | reflexivity | reflexivity | reflexivity | reflexivity
    | discriminate
    | vm_compute; reflexivity ].
Defined.

(** C3 does not hold as stated. In the first EM iteration on the small
    data set the expectation step returns an [Eyy] that is not symmetric;
    the [Phi_] the maximization step then assigns solves the transposed
    system, is not [solve(Eyy, Ey^T F)^T], and does not solve
    [Eyy Z = Ey^T F]. *)
Lemma first_em_iteration_Phi_differs_from_spec :
  let self0 := fst (initialize example_X [0; 1]%Z example_plda) in
  match expectation_plda example_F [2; 2]%Z self0 with
  | (self1, Ok (Ey, Eyy)) =>
      match maximization_plda example_X (matmul (mat_T example_X) example_X)
                              example_F Ey Eyy self1,
            spec_Phi Reference.externals Ey Eyy example_F with
      | (self2, Ok tt), Ok Expected =>
          match Phi_ self2 with
          | Some Phi =>
              mat_eqb Eyy (mat_T Eyy) = false /\
              mat_eqb Phi Expected = false /\
              mat_eqb (matmul Eyy (mat_T Phi)) (matmul (mat_T Ey) example_F) = false /\
              mat_eqb (matmul (mat_T Eyy) (mat_T Phi)) (matmul (mat_T Ey) example_F) = true /\
              Phi_ (fst (fit example_X example_y example_plda)) = Some Phi
          | None => False
          end
      | _, _ => False
      end
  | _ => False
  end.
Proof. vm_compute. repeat split. Qed.

(* ================================================================== *)
(** ** Properties of [fit]: labels as row indices *)

Section FitLabels.
Variable ext : Externals.
Implicit Types (self : PLDA ext) (X F : matrix) (y : list Z).

Lemma mbind_ok {A B : Type} (m : method ext A) (k : A -> method ext B)
      self self1 a :
  m self = (self1, Ok a) -> mbind m k self = k a self1.
Proof. intros H. unfold mbind. now rewrite H. Qed.

Lemma mbind_raise {A B : Type} (m : method ext A) (k : A -> method ext B)
      self self1 e :
  m self = (self1, Raise e) -> mbind m k self = (self1, Raise e).
Proof. intros H. unfold mbind. now rewrite H. Qed.

Lemma mbind_inv {A B : Type} (m : method ext A) (k : A -> method ext B)
      self self2 b :
  mbind m k self = (self2, Ok b) ->
  exists self1 a, m self = (self1, Ok a) /\ k a self1 = (self2, Ok b).
Proof.
  unfold mbind. destruct (m self) as [self1 [a|e]]; intros H.
  - now exists self1, a.
  - discriminate.
Qed.

Lemma insert_unique_In v x (l : list Z) :
  In x (insert_unique v l) <-> x = v \/ In x l.
Proof.
  induction l as [|w l IH]; cbn.
  - intuition.
  - destruct (v <? w)%Z eqn:Hlt; cbn; [intuition|].
    destruct (v =? w)%Z eqn:Heq; cbn.
    + apply Z.eqb_eq in Heq. subst. intuition.
    + rewrite IH. intuition.
Qed.

Lemma np_unique_In x y : In x (np_unique y) <-> In x y.
Proof.
  unfold np_unique.
  assert (H : forall acc, In x (fold_left (fun s v => insert_unique v s) y acc)
                          <-> In x y \/ In x acc).
  { induction y as [|v y IH]; intros acc; cbn.
    - intuition.
    - rewrite IH, insert_unique_In. intuition. }
  rewrite H. cbn. intuition.
Qed.

Lemma np_bincount_negative y l :
  In l y -> (l < 0)%Z -> np_bincount y = Raise ValueError.
Proof.
  intros Hin Hneg. unfold np_bincount.
  replace (existsb (fun v => (v <? 0)%Z) y) with true; [reflexivity|].
  symmetry. apply existsb_exists. exists l. split; [exact Hin|].
  now apply Z.ltb_lt.
Qed.

Lemma np_bincount_nonnegative y :
  Forall (fun l => 0 <= l)%Z y -> exists counts, np_bincount y = Ok counts.
Proof.
  intros H. unfold np_bincount.
  replace (existsb (fun v => (v <? 0)%Z) y) with false; [eauto|].
  symmetry. apply not_true_is_false. intros Hex.
  apply existsb_exists in Hex. destruct Hex as (l & Hin & Hl).
  rewrite Forall_forall in H. apply H in Hin. apply Z.ltb_lt in Hl. lia.
Qed.

Lemma select_Forall {A : Type} (P : A -> Prop) (mask : list bool) (xs : list A) :
  Forall P xs -> Forall P (select mask xs).
Proof.
  revert mask. induction xs as [|x xs IH]; intros [|b mask] H; cbn; auto.
  inversion H; subst. destruct b; auto.
Qed.

Lemma vzip_length f (u v : vector) :
  List.length (vzip f u v) = Nat.min (List.length u) (List.length v).
Proof.
  revert v. induction u as [|a u IH]; intros [|b v]; cbn; auto.
Qed.

Lemma sum_rows_length (rs : list vector) (acc : vector) d :
  Forall (fun r => List.length r = d) rs -> List.length acc = d ->
  List.length (fold_left (vzip Qplus) rs acc) = d.
Proof.
  revert acc. induction rs as [|r rs IH]; intros acc Hrs Hacc; cbn; auto.
  inversion Hrs; subst. apply IH; auto.
  rewrite vzip_length. lia.
Qed.

(** The loop over the classes stops with an [IndexError] as soon as a
    label is not a row of [F]. *)
Lemma accumulate_beyond X y (cls : list Z) F v :
  well_shaped X -> shape1 F = shape1 X ->
  Forall (fun c => 0 <= c)%Z cls ->
  In v cls -> (Z.of_nat (shape0 F) <= v)%Z ->
  for_each (accumulate_class X y) cls F = Raise IndexError.
Proof.
  intros [_ HX] HF Hnn. revert F HF.
  induction cls as [|c cls IH]; intros F HF Hin Hv; [destruct Hin|].
  inversion Hnn as [|? ? Hc Hnn']; subst.
  cbn [for_each]. unfold accumulate_class at 1, sum_rows_where, rbind at 2.
  destruct (negb _); [reflexivity|].
  set (total := fold_left _ _ _).
  assert (Htot : List.length total = shape1 X).
  { apply sum_rows_length; [now apply select_Forall | apply repeat_length]. }
  unfold set_row, norm_index.
  destruct (c <? Z.of_nat (shape0 F))%Z eqn:Hlt.
  - replace (0 <=? c)%Z with true by (symmetry; now apply Z.leb_le).
    cbn [andb]. rewrite Htot, HF, Nat.eqb_refl. cbn [negb rbind].
    apply IH; auto.
    + destruct Hin as [<-|Hin]; [|exact Hin].
      apply Z.ltb_lt in Hlt. lia.
  - rewrite andb_false_r.
    replace (c <? 0)%Z with false by (symmetry; apply Z.ltb_ge; exact Hc).
    rewrite andb_false_r. reflexivity.
Qed.

(** What a successful [initialize] has locked. *)
Lemma initialize_ok_locks self X labels self' :
  initialize X labels self = (self', Ok tt) ->
  _feat_dim self' = Some (Z.of_nat (shape1 X)) /\
  exists ls, _labels self' = Some ls /\ List.length ls = List.length labels.
Proof.
  unfold initialize. intros H.
  apply mbind_inv in H. destruct H as (s1 & fresh & _ & H).
  apply mbind_inv in H. destruct H as (s2 & [] & _ & H).
  unfold mbind, attr, num_classes, mret, mraise in H.
  destruct (_feat_dim s2) as [d|] eqn:Hfd; [|discriminate].
  destruct (d =? Z.of_nat (shape1 X))%Z eqn:Hd; [|discriminate].
  destruct (_labels s2) as [ls|] eqn:Hls; [|discriminate].
  destruct (List.length ls =? List.length labels)%nat eqn:Hlen; [|discriminate].
  injection H as <-.
  apply Z.eqb_eq in Hd. apply Nat.eqb_eq in Hlen. subst d.
  split; [exact Hfd|]. now exists ls.
Qed.

(** A label at or beyond the number of distinct labels stops [fit] in the
    accumulation of [F]. *)
Lemma fit_label_beyond_raises
        self X y (nz : normalizer ext) (X' : matrix) self' (v : Z) :
  shape0 X = List.length y ->
  Forall (fun l => 0 <= l)%Z y ->
  normalizer_fit ext (_normalizer self) X y = Ok nz ->
  normalizer_transform ext nz X = Ok X' ->
  well_shaped X' ->
  initialize X' (np_unique y) (set_normalizer nz self) = (self', Ok tt) ->
  In v y ->
  (Z.of_nat (List.length (np_unique y)) <= v)%Z ->
  fit X y self = (self', Raise IndexError).
Proof.
  intros Hlen Hnn Hfit Htr HX' Hinit Hin Hv.
  destruct (np_bincount_nonnegative Hnn) as [counts Hcounts].
  destruct (initialize_ok_locks _ _ _ Hinit) as (Hfd & ls & Hls & Hlslen).
  unfold fit.
  rewrite (@mbind_ok _ _ _ _ self self tt)
    by (rewrite Hlen, Nat.eqb_refl; reflexivity).
  rewrite (@mbind_ok _ _ _ _ self self counts)
    by (unfold call; now rewrite Hcounts).
  rewrite (@mbind_ok _ _ _ _ self self (_normalizer self)) by reflexivity.
  rewrite (@mbind_ok _ _ _ _ self self nz)
    by (unfold call; now rewrite Hfit).
  rewrite (@mbind_ok _ _ _ _ self (set_normalizer nz self) tt) by reflexivity.
  rewrite (@mbind_ok _ _ _ _ (set_normalizer nz self) (set_normalizer nz self) X')
    by (unfold call; now rewrite Htr).
  rewrite (@mbind_ok _ _ _ _ _ _ _ Hinit).
  rewrite (@mbind_ok _ _ _ _ self' self' (List.length ls))
    by (unfold num_classes; now rewrite Hls).
  rewrite (@mbind_ok _ _ _ _ self' self' (_feat_dim self')) by reflexivity.
  rewrite Hfd.
  rewrite (@mbind_ok _ _ _ _ self' self' (shape1 X')).
  2:{ unfold call, dim.
      replace (Z.of_nat (shape1 X') <? 0)%Z with false
        by (symmetry; apply Z.ltb_ge; lia).
      now rewrite Nat2Z.id. }
  apply mbind_raise. unfold call. f_equal.
  apply accumulate_beyond with (v := v); auto.
  - rewrite Forall_forall in *. intros c Hc. apply Hnn. now apply np_unique_In.
  - now apply np_unique_In.
  - cbn [shape0 np_zeros]. now rewrite Hlslen.
Qed.

Lemma insert_unique_sorted v (l : list Z) :
  StronglySorted Z.lt l -> StronglySorted Z.lt (insert_unique v l).
Proof.
  induction 1 as [|w l Hs IH Hall]; cbn.
  - repeat constructor.
  - destruct (v <? w)%Z eqn:Hlt.
    + apply Z.ltb_lt in Hlt. constructor; [now constructor|].
      constructor; [exact Hlt|].
      eapply Forall_impl; [|exact Hall]. cbn. intros; lia.
    + destruct (v =? w)%Z eqn:Heq; [now constructor|].
      apply Z.ltb_ge in Hlt. apply Z.eqb_neq in Heq.
      constructor; [exact IH|].
      apply Forall_forall. intros x Hx. apply insert_unique_In in Hx.
      destruct Hx as [->|Hx]; [lia|].
      rewrite Forall_forall in Hall. now apply Hall.
Qed.

Lemma np_unique_sorted y : StronglySorted Z.lt (np_unique y).
Proof.
  unfold np_unique.
  assert (H : forall acc, StronglySorted Z.lt acc ->
                          StronglySorted Z.lt
                            (fold_left (fun s v => insert_unique v s) y acc)).
  { induction y as [|v y IH]; intros acc Hacc; cbn; [exact Hacc|].
    apply IH. now apply insert_unique_sorted. }
  apply H. constructor.
Qed.

Lemma sorted_length_bound (l : list Z) : forall lo hi,
  StronglySorted Z.lt l ->
  Forall (fun z => lo <= z < hi)%Z l ->
  (l = [] \/ lo + Z.of_nat (List.length l) <= hi)%Z.
Proof.
  induction l as [|x l IH]; intros lo hi Hs Hall; [now left|right].
  inversion Hs as [|? ? Hs' Hlt]; subst.
  inversion Hall as [|? ? Hx Hall']; subst.
  assert (Hl : Forall (fun z => (x + 1) <= z < hi)%Z l).
  { rewrite Forall_forall in *. intros z Hz.
    specialize (Hlt z Hz). specialize (Hall' z Hz). cbn beta in *. lia. }
  destruct (IH (x + 1)%Z hi Hs' Hl) as [-> | Hb]; cbn [List.length]; lia.
Qed.

(** A strictly increasing list of integers that fits between [a] and
    [a + length] is the range from [a]. *)
Lemma sorted_within_is_range (l : list Z) : forall a,
  StronglySorted Z.lt l ->
  Forall (fun x => a <= x < a + Z.of_nat (List.length l))%Z l ->
  l = map (fun i => (a + Z.of_nat i)%Z) (seq 0 (List.length l)).
Proof.
  induction l as [|x l IH]; intros a Hs Hall; [reflexivity|].
  inversion Hs as [|? ? Hs' Hlt]; subst.
  inversion Hall as [|? ? Hx Hall']; subst.
  cbn [List.length] in *.
  assert (Hl : Forall (fun z => (a + 1) <= z < (a + 1) + Z.of_nat (List.length l))%Z l).
  { rewrite Forall_forall in *. intros z Hz.
    specialize (Hlt z Hz). specialize (Hall' z Hz). cbn beta in *. lia. }
  assert (Hxa : x = a).
  { assert (Hl' : Forall (fun z => (x + 1) <= z < a + 1 + Z.of_nat (List.length l))%Z l).
    { rewrite Forall_forall in *. intros z Hz.
      specialize (Hlt z Hz). specialize (Hl z Hz). cbn beta in *. lia. }
    destruct (@sorted_length_bound l _ _ Hs' Hl') as [-> | Hb]; cbn in *; lia. }
  subst x. cbn [seq map]. f_equal; [lia|].
  rewrite (IH (a + 1)%Z Hs' Hl) at 1.
  rewrite <- seq_shift, map_map. apply map_ext. intros i. lia.
Qed.

(** Non-negative labels are exactly [0 .. K - 1], or one of them is at or
    beyond their number [K]. *)
Lemma labels_range_or_beyond y :
  Forall (fun l => 0 <= l)%Z y ->
  labels_are_range y \/
  exists v, In v y /\ (Z.of_nat (List.length (np_unique y)) <= v)%Z.
Proof.
  intros Hnn. unfold labels_are_range.
  set (l := np_unique y).
  destruct (existsb (fun x => (Z.of_nat (List.length l) <=? x)%Z) l) eqn:E.
  - right. apply existsb_exists in E. destruct E as (v & Hv & Hle).
    exists v. split; [now apply np_unique_In | now apply Z.leb_le].
  - left.
    assert (Hall : Forall (fun x => 0 <= x < 0 + Z.of_nat (List.length l))%Z l).
    { apply Forall_forall. intros x Hx. split.
      - rewrite Forall_forall in Hnn. apply Hnn. now apply np_unique_In.
      - destruct (Z.of_nat (List.length l) <=? x)%Z eqn:Hx'; [|apply Z.leb_gt in Hx'; lia].
        exfalso. rewrite <- not_true_iff_false in E. apply E.
        apply existsb_exists. now exists x. }
    rewrite (@sorted_within_is_range l 0%Z (np_unique_sorted y) Hall) at 1.
    apply map_ext. intros i. lia.
Qed.

Lemma labels_range_within y v :
  labels_are_range y -> In v y ->
  (0 <= v < Z.of_nat (List.length (np_unique y)))%Z.
Proof.
  unfold labels_are_range. intros Hr Hin.
  apply np_unique_In in Hin. rewrite Hr in Hin.
  apply in_map_iff in Hin. destruct Hin as (i & <- & Hi).
  apply in_seq in Hi. lia.
Qed.

(** With every label a row of [F], the loop over the classes completes. *)
Lemma accumulate_within X y (cls : list Z) : forall F,
  well_shaped X -> shape0 X = List.length y -> shape1 F = shape1 X ->
  Forall (fun c => 0 <= c < Z.of_nat (shape0 F))%Z cls ->
  exists F', for_each (accumulate_class X y) cls F = Ok F'.
Proof.
  intros F [_ HX] Hlen. revert F.
  induction cls as [|c cls IH]; intros F HF Hcls; [now exists F|].
  inversion Hcls as [|? ? Hc Hcls']; subst.
  cbn [for_each]. unfold accumulate_class at 1, sum_rows_where, rbind at 2.
  rewrite length_map, Hlen, Nat.eqb_refl. cbn [negb].
  set (total := fold_left _ _ _).
  assert (Htot : List.length total = shape1 X).
  { apply sum_rows_length; [now apply select_Forall | apply repeat_length]. }
  unfold set_row, norm_index.
  replace (0 <=? c)%Z with true by (symmetry; apply Z.leb_le; lia).
  replace (c <? Z.of_nat (shape0 F))%Z with true by (symmetry; apply Z.ltb_lt; lia).
  cbn [andb]. rewrite Htot, HF, Nat.eqb_refl. cbn [negb rbind].
  rewrite <- HF. apply IH; [exact HF | exact Hcls'].
Qed.

(** C9, as the code has it. [F] has one row per distinct label and is
    indexed by the raw label, and the class counts are [np.bincount] of the
    raw labels. So, for non-negative labels, once the normaliser has run and
    [initialize] has succeeded, the accumulation of [F] is well defined
    exactly when the distinct labels are [0 .. num_classes - 1]; otherwise
    -- in particular whenever a label is at or beyond the number of distinct
    labels -- [fit] raises [IndexError] in that accumulation: before the
    first EM iteration, with the estimator as [initialize] left it. *)
Theorem fit_labels_index_the_rows_of_F
        self X y (nz : normalizer ext) (X' : matrix) self' :
  shape0 X = List.length y ->
  Forall (fun l => 0 <= l)%Z y ->
  normalizer_fit ext (_normalizer self) X y = Ok nz ->
  normalizer_transform ext nz X = Ok X' ->
  well_shaped X' ->
  shape0 X' = List.length y ->
  initialize X' (np_unique y) (set_normalizer nz self) = (self', Ok tt) ->
  let K := List.length (np_unique y) in
  (labels_are_range y ->
   exists F, for_each (accumulate_class X' y) (np_unique y) (np_zeros K (shape1 X'))
             = Ok F) /\
  (~ labels_are_range y -> fit X y self = (self', Raise IndexError)) /\
  (forall v, In v y -> (Z.of_nat K <= v)%Z ->
             ~ labels_are_range y /\ fit X y self = (self', Raise IndexError)).
Proof.
  intros Hlen Hnn Hfit Htr HX' Hlen' Hinit K.
  split; [|split].
  - intros Hr. apply accumulate_within; auto.
    apply Forall_forall. intros c Hc.
    apply (proj1 (np_unique_In c y)) in Hc.
    cbn [shape0 np_zeros]. exact (@labels_range_within y c Hr Hc).
  - intros Hnr. destruct (labels_range_or_beyond Hnn) as [Hr | (v & Hin & Hv)];
      [contradiction|].
    now apply (@fit_label_beyond_raises self X y nz X' self' v).
  - intros v Hin Hv. split.
    + intros Hr. pose proof (@labels_range_within y v Hr Hin) as H. fold K in H. lia.
    + now apply (@fit_label_beyond_raises self X y nz X' self' v).
Qed.

(** A negative label never gets that far: [np.bincount] refuses it. *)
Lemma fit_negative_label_raises self X y l :
  shape0 X = List.length y -> In l y -> (l < 0)%Z ->
  fit X y self = (self, Raise ValueError).
Proof.
  intros Hlen Hin Hl. unfold fit.
  rewrite (@mbind_ok _ _ _ _ self self tt)
    by (rewrite Hlen, Nat.eqb_refl; reflexivity).
  apply mbind_raise. unfold call. f_equal.
  now apply np_bincount_negative with (l := l).
Qed.
End FitLabels.

(** The labels [0, 0, 2, 2]: two classes, and a label 2. *)
Lemma fit_labels_index_the_rows_of_F_example :
  let y := [0; 0; 2; 2]%Z in
  let self' := fst (initialize example_X (np_unique y) example_plda) in
  let K := List.length (np_unique y) in
  (labels_are_range y ->
   exists F, for_each (accumulate_class example_X y) (np_unique y)
                      (np_zeros K (shape1 example_X)) = Ok F) /\
  (~ labels_are_range y -> fit example_X y example_plda = (self', Raise IndexError)) /\
  (forall v, In v y -> (Z.of_nat K <= v)%Z ->
             ~ labels_are_range y /\
             fit example_X y example_plda = (self', Raise IndexError)).
Proof.
  apply (@fit_labels_index_the_rows_of_F Reference.externals
           example_plda example_X [0; 0; 2; 2]%Z tt example_X
           (fst (initialize example_X [0; 2]%Z example_plda))).
  - reflexivity.
  - repeat constructor; discriminate.
  - reflexivity.
  - reflexivity.
  - split; [reflexivity | repeat constructor].
  - reflexivity.
  - vm_compute. reflexivity.
Defined.

(** C9 does not hold as stated. The label vector [-1, -1, 2, 2] holds
    the value [2], which is the number of its distinct labels, and [fit]
    raises [ValueError] (from [np.bincount]), not an index error. *)
Lemma fit_negative_label_is_no_index_error :
  In 2%Z [-1; -1; 2; 2]%Z /\
  (Z.of_nat (List.length (np_unique [-1; -1; 2; 2]%Z)) <= 2)%Z /\
  fit example_X [-1; -1; 2; 2]%Z example_plda = (example_plda, Raise ValueError).
Proof.
  split; [cbn; auto|]. split; [vm_compute; discriminate|].
  vm_compute. reflexivity.
Qed.

(* ================================================================== *)
(** ** Properties of [det_curve] *)

Section DetCurve.
Import Metrics.

Lemma insert_index_length keys i sorted :
  List.length (insert_index keys i sorted) = S (List.length sorted).
Proof.
  induction sorted as [|j rest IH]; cbn; [reflexivity|].
  destruct (Qltb _ _); cbn; auto.
Qed.

Lemma argsort_length keys : List.length (argsort keys) = List.length keys.
Proof.
  unfold argsort.
  assert (H : forall ks acc,
             List.length (fold_left (fun sorted i => insert_index keys i sorted) ks acc)
             = (List.length ks + List.length acc)%nat).
  { induction ks as [|i ks IH]; intros acc; cbn; [reflexivity|].
    rewrite IH, insert_index_length. lia. }
  rewrite H, length_seq. cbn. lia.
Qed.

Lemma det_sorted_scores_length ts fs :
  List.length (det_sorted_scores ts fs) = (List.length ts + List.length fs)%nat.
Proof.
  unfold det_sorted_scores.
  rewrite !length_map, argsort_length, length_map, length_app, !length_map.
  lia.
Qed.

(** The second column of the sorted array holds the class marks 0 and 1. *)
Lemma det_sorted_scores_marks ts fs :
  Forall (fun p : Q * Q => snd p = 0 \/ snd p = 1) (det_sorted_scores ts fs).
Proof.
  unfold det_sorted_scores.
  set (scores := map _ fs ++ map _ ts).
  assert (Hs : Forall (fun p : Q * Q => snd p = 0 \/ snd p = 1) scores).
  { apply Forall_app. split; apply Forall_forall; intros p Hp;
      apply in_map_iff in Hp; destruct Hp as (x & <- & _); cbn; auto. }
  apply Forall_forall. intros p Hp.
  apply in_map_iff in Hp. destruct Hp as (k & <- & _).
  destruct (nth_in_or_default k scores (0, 0)) as [Hin | ->].
  - rewrite Forall_forall in Hs. now apply Hs.
  - cbn. auto.
Qed.

Lemma cumsum_from_length acc xs :
  List.length (cumsum_from acc xs) = List.length xs.
Proof. revert acc. induction xs; intros; cbn; auto. Qed.

Lemma cumsum_from_sorted acc xs :
  Forall (fun x => 0 <= x) xs ->
  StronglySorted Qle (cumsum_from acc xs) /\
  Forall (fun e => acc <= e) (cumsum_from acc xs).
Proof.
  revert acc. induction xs as [|x xs IH]; intros acc Hx; cbn.
  - split; constructor.
  - inversion Hx as [|? ? H0 Hx']; subst.
    destruct (IH (acc + x) Hx') as [Hs Hall].
    split.
    + constructor; assumption.
    + constructor; [lra|].
      eapply Forall_impl; [|exact Hall]. cbn. intros e He. lra.
Qed.

Lemma inject_succ k :
  inject_Z (Z.of_nat (S k)) == inject_Z (Z.of_nat k) + 1.
Proof. rewrite Nat2Z.inj_succ. unfold Z.succ. now rewrite inject_Z_plus. Qed.

(** The running count of false trials: [k - sumtrue[k]] does not
    decrease, so [nb_false] minus it does not increase. *)
Lemma sumfalse_sorted (c : Q) xs : forall k m acc,
  Forall (fun x => x <= 1) xs ->
  let l := map (fun '(k, st) => c - (inject_Z (Z.of_nat k) - st))
               (combine (seq k m) (cumsum_from acc xs)) in
  StronglySorted (fun a b => b <= a) l /\
  Forall (fun e => e <= c - (inject_Z (Z.of_nat k) - 1 - acc)) l.
Proof.
  induction xs as [|x xs IH]; intros k m acc Hx; cbn zeta.
  - destruct m; cbn; split; constructor.
  - destruct m as [|m]; cbn; [split; constructor|].
    inversion Hx as [|? ? H1 Hx']; subst.
    destruct (IH (S k) m (acc + x) Hx') as [Hs Hall].
    assert (Hk := inject_succ k).
    split.
    + constructor; [exact Hs|].
      eapply Forall_impl; [|exact Hall]. intros e He. cbn beta in *. lra.
    + constructor; [lra|].
      eapply Forall_impl; [|exact Hall]. intros e He. cbn beta in *. lra.
Qed.

Lemma StronglySorted_map {A B : Type} (R : A -> A -> Prop) (R' : B -> B -> Prop)
      (f : A -> B) (l : list A) :
  (forall a b, R a b -> R' (f a) (f b)) ->
  StronglySorted R l -> StronglySorted R' (map f l).
Proof.
  intros Hf. induction 1 as [|a l Hs IH Hall]; cbn; constructor; auto.
  apply Forall_map. eapply Forall_impl; [|exact Hall]. auto.
Qed.

Lemma count_nonzero n : (0 < n)%nat -> 0 < inject_Z (Z.of_nat n).
Proof.
  intros H. change 0 with (inject_Z 0). rewrite <- Zlt_Qlt. lia.
Qed.

Lemma np_div_count (x : Q) n :
  (0 < n)%nat ->
  np_div (Fin x) (Fin (inject_Z (Z.of_nat n))) = Fin (x / inject_Z (Z.of_nat n)).
Proof.
  intros H. apply count_nonzero in H. unfold np_div.
  destruct (Qeq_bool _ 0) eqn:E; [|reflexivity].
  apply Qeq_bool_iff in E. lra.
Qed.

Lemma div_le_compat (a b n : Q) : 0 < n -> a <= b -> a / n <= b / n.
Proof.
  intros Hn Hab. unfold Qdiv. apply Qmult_le_compat_r; [exact Hab|].
  apply Qlt_le_weak. now apply Qinv_lt_0_compat.
Qed.

(** C4. For non-empty true and false scores, [det_curve] returns finite
    [Pmiss] and [Pfa] arrays with one entry per score, [Pmiss]
    non-decreasing and [Pfa] non-increasing along the sorted scores. *)
Theorem det_curve_monotone
        (y_true : option (list Z)) (y_score : option (list Q))
        (pos_label : option Z) (true_scores false_scores : list Q) :
  true_scores <> [] -> false_scores <> [] ->
  exists Pmiss Pfa threshold,
    det_curve y_true y_score pos_label (Some true_scores) (Some false_scores)
    = Ok (map Fin Pmiss, map Fin Pfa, threshold) /\
    List.length Pmiss = (List.length true_scores + List.length false_scores)%nat /\
    List.length Pfa = (List.length true_scores + List.length false_scores)%nat /\
    StronglySorted Qle Pmiss /\
    StronglySorted (fun a b => b <= a) Pfa.
Proof.
  intros Hts Hfs.
  assert (Hnt : (0 < List.length true_scores)%nat)
    by (destruct true_scores; [congruence | cbn; lia]).
  assert (Hnf : (0 < List.length false_scores)%nat)
    by (destruct false_scores; [congruence | cbn; lia]).
  unfold det_curve. cbn [det_curve_split rbind].
  pose proof (det_sorted_scores_length true_scores false_scores) as Hlen.
  pose proof (det_sorted_scores_marks true_scores false_scores) as Hmarks.
  set (scores := det_sorted_scores true_scores false_scores) in *.
  set (marks := map snd scores).
  assert (Hm0 : Forall (fun x => 0 <= x) marks).
  { apply Forall_map. eapply Forall_impl; [|exact Hmarks].
    intros p [-> | ->]; lra. }
  assert (Hm1 : Forall (fun x => x <= 1) marks).
  { apply Forall_map. eapply Forall_impl; [|exact Hmarks].
    intros p [-> | ->]; lra. }
  set (nt := inject_Z (Z.of_nat (List.length true_scores))).
  set (nf := inject_Z (Z.of_nat (List.length false_scores))).
  set (total := (List.length true_scores + List.length false_scores)%nat).
  set (sumfalse := map _ (combine (seq 1 total) (cumsum marks))).
  exists (map (fun x => x / nt) (cumsum marks)),
         (map (fun x => x / nf) sumfalse).
  destruct scores as [|[s l] rest] eqn:Hsc; [cbn in Hlen; lia|].
  exists [s; l].
  assert (Hlm : List.length marks = total)
    by (unfold marks; now rewrite length_map).
  split; [|split; [|split; [|split]]].
  - f_equal. f_equal. f_equal.
    + rewrite map_map. apply map_ext. intros x. now apply np_div_count.
    + rewrite map_map. apply map_ext. intros x. now apply np_div_count.
  - unfold cumsum. now rewrite length_map, cumsum_from_length.
  - unfold sumfalse, cumsum.
    rewrite !length_map, length_combine, length_seq, cumsum_from_length, Hlm.
    lia.
  - apply StronglySorted_map with (R := Qle).
    + intros a b. apply div_le_compat. now apply count_nonzero.
    + now apply cumsum_from_sorted.
  - apply StronglySorted_map with (R := fun a b => b <= a).
    + intros a b. apply div_le_compat. now apply count_nonzero.
    + exact (proj1 (@sumfalse_sorted nf marks 1%nat total 0 Hm1)).
Qed.
End DetCurve.

(** Two true and two false scores. *)
Lemma det_curve_monotone_example :
  exists Pmiss Pfa threshold,
    Metrics.det_curve None None None (Some [35 # 100; 8 # 10]) (Some [1 # 10; 4 # 10])
    = Ok (map Fin Pmiss, map Fin Pfa, threshold) /\
    List.length Pmiss = 4%nat /\
    List.length Pfa = 4%nat /\
    StronglySorted Qle Pmiss /\
    StronglySorted (fun a b => b <= a) Pfa.
Proof.
  apply (@det_curve_monotone None None None [35 # 100; 8 # 10] [1 # 10; 4 # 10]);
    discriminate.
Defined.

(** C1, where the code breaks its own documentation. On two true and two
    false scores [Pmiss] and [Pfa] have four entries each, but the third
    array is [scores[0, :]], the first row of the sorted array -- the lowest
    score and its class mark, two entries -- and not the four sorted
    scores. *)
Theorem det_curve_threshold_is_first_row :
  Metrics.det_curve None None None (Some [35 # 100; 8 # 10]) (Some [1 # 10; 4 # 10])
  = Ok ([Fin (0 # 2); Fin (1 # 2); Fin (1 # 2); Fin (2 # 2)],
        [Fin (1 # 2); Fin (1 # 2); Fin (0 # 2); Fin (0 # 2)],
        [1 # 10; 0]) /\
  map fst (Metrics.det_sorted_scores [35 # 100; 8 # 10] [1 # 10; 4 # 10])
  = [1 # 10; 35 # 100; 4 # 10; 8 # 10].
Proof. split; vm_compute; reflexivity. Qed.

(* ================================================================== *)
(** ** Properties of [Cavg] *)

Section CavgProofs.
Import Metrics.
Variable np_log : Q -> npfloat.

Lemma to_np_finite a : finite_num a -> to_np a = Fin (py_q a).
Proof. destruct a as [z|q|[q| |b]]; cbn; intros H; try reflexivity; tauto. Qed.

Lemma py_add_finite a b :
  finite_num a -> finite_num b ->
  finite_num (py_add a b) /\ py_q (py_add a b) == py_q a + py_q b.
Proof.
  destruct a as [x|x|[x| |?]], b as [z|z|[z| |?]];
    cbn [py_add py_q to_np finite_num np_add]; try tauto;
    intros _ _; split; try exact I; try reflexivity.
  now rewrite inject_Z_plus.
Qed.

Lemma py_mul_finite a b :
  finite_num a -> finite_num b ->
  finite_num (py_mul a b) /\ py_q (py_mul a b) == py_q a * py_q b.
Proof.
  destruct a as [x|x|[x| |?]], b as [z|z|[z| |?]];
    cbn [py_mul py_q to_np finite_num np_mul]; try tauto;
    intros _ _; split; try exact I; reflexivity.
Qed.

Lemma py_truediv_finite a b :
  finite_num a -> finite_num b -> ~ py_q b == 0 ->
  exists c, py_truediv a b = Ok c /\ finite_num c /\ py_q c == py_q a / py_q b.
Proof.
  intros Ha Hb Hnz.
  assert (E : Qeq_bool (py_q b) 0 = false).
  { destruct (Qeq_bool (py_q b) 0) eqn:E; [|reflexivity].
    apply Qeq_bool_iff in E. contradiction. }
  destruct a as [x|x|[x| |?]], b as [z|z|[z| |?]];
    cbn [py_truediv py_q to_np finite_num np_div] in *; try tauto;
    rewrite ?E; eexists; (split; [reflexivity|]); split; try exact I; reflexivity.
Qed.

(** Between Python numbers a zero divisor raises. *)
Lemma py_truediv_zero a (z : Z) :
  match a with NpFloat _ => False | _ => True end ->
  z = 0%Z -> py_truediv a (PyInt z) = Raise ZeroDivisionError.
Proof. intros Ha ->. destruct a; cbn; [reflexivity | reflexivity | tauto]. Qed.

(** The only exception [py_truediv] raises. *)
Lemma py_truediv_raises a b e :
  py_truediv a b = Raise e -> e = ZeroDivisionError.
Proof.
  destruct a as [x|x|x], b as [z|z|z]; cbn; try discriminate;
    destruct (Qeq_bool _ 0); congruence.
Qed.

Lemma class_count_positive y_true i : 0 < class_count y_true i.
Proof.
  unfold class_count, Qltb.
  destruct (Qle_bool 1 _) eqn:E; cbn; [|lra].
  apply Qle_bool_iff in E. lra.
Qed.

(** [max(N, 1.)] is the number of samples of the class, floored to 1. *)
Lemma class_count_floor y_true i :
  class_count y_true i
  == inject_Z (Z.of_nat (Nat.max (count_occ Z.eq_dec y_true i) 1)).
Proof.
  unfold class_count.
  assert (Hc : count_true (map (Z.eqb i) y_true) = count_occ Z.eq_dec y_true i).
  { unfold count_true. induction y_true as [|l y_true IH]; cbn; [reflexivity|].
    destruct (Z.eq_dec l i) as [->|Hne].
    - rewrite Z.eqb_refl. cbn. now rewrite IH.
    - replace (i =? l)%Z with false by (symmetry; apply Z.eqb_neq; congruence).
      exact IH. }
  rewrite Hc. set (n := count_occ Z.eq_dec y_true i).
  unfold Qltb. destruct (Qle_bool 1 (inject_Z (Z.of_nat n))) eqn:E; cbn [negb].
  - apply Qle_bool_iff in E. change 1%Q with (inject_Z 1) in E.
    rewrite <- Zle_Qle in E. now replace (Nat.max n 1) with n by lia.
  - assert (Hn : n = 0%nat).
    { destruct n; [reflexivity|]. exfalso.
      rewrite <- not_true_iff_false in E. apply E. apply Qle_bool_iff.
      change 1%Q with (inject_Z 1). rewrite <- Zle_Qle. lia. }
    rewrite Hn. reflexivity.
Qed.

Lemma np_div_positive (h N : Q) : 0 < N -> np_div (Fin h) (Fin N) = Fin (h / N).
Proof.
  intros H. unfold np_div.
  destruct (Qeq_bool N 0) eqn:E; [|reflexivity].
  apply Qeq_bool_iff in E. lra.
Qed.

Lemma norm_index_valid (y : ndarray npfloat) c :
  valid_class y c -> norm_index c (shape1 y) = Some (Z.to_nat c).
Proof.
  intros [H0 H1]. unfold norm_index.
  replace (0 <=? c)%Z with true by (symmetry; now apply Z.leb_le).
  replace (c <? Z.of_nat (shape1 y))%Z with true by (symmetry; now apply Z.ltb_lt).
  reflexivity.
Qed.

(** The hits the code counts in a masked column are the hits of the
    specification. *)
Lemma masked_hits (hit : npfloat -> bool) (g : list npfloat -> npfloat) i
      (y_true : list Z) (rs : list (list npfloat)) :
  count_true (map hit (map g (select (map (Z.eqb i) y_true) rs)))
  = List.length (filter (fun p => Z.eqb i (fst p) && hit (g (snd p)))
                        (combine y_true rs)).
Proof.
  unfold count_true. revert rs.
  induction y_true as [|l y_true IH]; intros [|r rs]; cbn; try reflexivity.
  destruct (i =? l)%Z; cbn; [|apply IH].
  destruct (hit (g r)); cbn; now rewrite IH.
Qed.

Lemma select_col_valid (y : ndarray npfloat) (y_true : list Z) i c :
  List.length y_true = shape0 y -> valid_class y c ->
  select_col y (map (Z.eqb i) y_true) c
  = Ok (map (fun r => nth (Z.to_nat c) r NaN)
            (select (map (Z.eqb i) y_true) (rows y))).
Proof.
  intros Hlen Hc. unfold select_col.
  rewrite length_map, Hlen, Nat.eqb_refl. cbn [negb].
  now rewrite norm_index_valid.
Qed.

(** One round of the inner loop adds the rate of the pair to [fr] or to
    [fa]. *)
Lemma cavg_inner_step (y : ndarray npfloat) (y_true : list Z) thresh i j fa fr :
  List.length y_true = shape0 y -> valid_class y i -> valid_class y j ->
  finite_num fa -> finite_num fr ->
  exists fa' fr',
    cavg_inner y y_true thresh i (class_count y_true i) (fa, fr) j = Ok (fa', fr') /\
    finite_num fa' /\ finite_num fr' /\
    py_q fa' == py_q fa + (if (i =? j)%Z then 0
                           else false_alarm_rate thresh y y_true i j) /\
    py_q fr' == py_q fr + (if (i =? j)%Z then miss_rate thresh y y_true i
                           else 0).
Proof.
  intros Hlen Hi Hj Hfa Hfr.
  pose proof (class_count_positive y_true i) as HN.
  unfold cavg_inner.
  destruct (i =? j)%Z eqn:E.
  - rewrite (select_col_valid _ _ Hlen Hi). cbn [rbind].
    rewrite masked_hits, (np_div_positive _ HN).
    set (err := NpFloat (Fin _)).
    destruct (@py_add_finite fr err Hfr I) as [Hf Hv].
    exists fa, (py_add fr err).
    split; [reflexivity|]. split; [exact Hfa|]. split; [exact Hf|].
    split; [lra|]. rewrite Hv. subst err. cbn [py_q].
    unfold miss_rate, error_rate. now rewrite class_count_floor.
  - rewrite (select_col_valid _ _ Hlen Hj). cbn [rbind].
    rewrite masked_hits, (np_div_positive _ HN).
    set (err := NpFloat (Fin _)).
    destruct (@py_add_finite fa err Hfa I) as [Hf Hv].
    exists (py_add fa err), fr.
    split; [reflexivity|]. split; [exact Hf|]. split; [exact Hfr|].
    split; [|lra]. rewrite Hv. subst err. cbn [py_q].
    unfold false_alarm_rate, error_rate. now rewrite class_count_floor.
Qed.

Lemma Qsum_ext {A : Type} (f g : A -> Q) (l : list A) :
  (forall x, In x l -> f x == g x) -> Qsum (map f l) == Qsum (map g l).
Proof.
  induction l as [|x l IH]; intros H; cbn; [reflexivity|].
  rewrite (H x), IH; [reflexivity | | ]; cbn; auto.
  intros z Hz. apply H. now right.
Qed.

Lemma Qsum_filter {A : Type} (p : A -> bool) (f : A -> Q) (l : list A) :
  Qsum (map (fun x => if p x then 0 else f x) l)
  == Qsum (map f (filter (fun x => negb (p x)) l)).
Proof.
  unfold Qsum. induction l as [|x l IH]; cbn; [reflexivity|].
  destruct (p x); cbn; rewrite IH; lra.
Qed.

(** In a cluster without repetition a class meets itself once. *)
Lemma Qsum_own_class (m : Q) i (l : list Z) :
  NoDup l -> In i l ->
  Qsum (map (fun j => if (i =? j)%Z then m else 0) l) == m.
Proof.
  induction 1 as [|x l Hx Hnd IH]; intros Hin; [destruct Hin|].
  cbn. destruct (i =? x)%Z eqn:E.
  - apply Z.eqb_eq in E. subst x.
    rewrite (@Qsum_ext _ _ (fun _ => 0) l).
    + assert (H0 : Qsum (map (fun _ : Z => 0) l) == 0)
        by (clear; unfold Qsum; induction l; cbn; lra).
      rewrite H0. lra.
    + intros z Hz. destruct (i =? z)%Z eqn:E; [|reflexivity].
      apply Z.eqb_eq in E. subst z. contradiction.
  - destruct Hin as [->|Hin]; [rewrite Z.eqb_refl in E; discriminate|].
    rewrite (IH Hin). lra.
Qed.

Section Loops.
Variables (y : ndarray npfloat) (y_true : list Z) (thresh : npfloat).
Hypothesis Hlen : List.length y_true = shape0 y.

Lemma cavg_inner_loop i (js : list Z) : forall fa fr,
  valid_class y i -> Forall (valid_class y) js ->
  finite_num fa -> finite_num fr ->
  exists fa' fr',
    for_each (cavg_inner y y_true thresh i (class_count y_true i)) js (fa, fr)
    = Ok (fa', fr') /\
    finite_num fa' /\ finite_num fr' /\
    py_q fa' == py_q fa +
                Qsum (map (fun j => if (i =? j)%Z then 0
                                    else false_alarm_rate thresh y y_true i j) js) /\
    py_q fr' == py_q fr +
                Qsum (map (fun j => if (i =? j)%Z then miss_rate thresh y y_true i
                                    else 0) js).
Proof.
  induction js as [|j js IH]; intros fa fr Hi Hjs Hfa Hfr.
  - exists fa, fr. cbn. repeat (split; auto); lra.
  - inversion Hjs as [|? ? Hj Hjs']; subst.
    destruct (@cavg_inner_step _ _ thresh _ _ _ _ Hlen Hi Hj Hfa Hfr)
      as (fa1 & fr1 & Hstep & Hfa1 & Hfr1 & Hva & Hvr).
    destruct (IH fa1 fr1 Hi Hjs' Hfa1 Hfr1)
      as (fa2 & fr2 & Hrest & Hfa2 & Hfr2 & Hva2 & Hvr2).
    exists fa2, fr2.
    split; [cbn [for_each]; rewrite Hstep; exact Hrest|].
    split; [exact Hfa2|]. split; [exact Hfr2|].
    unfold Qsum in *. cbn [map fold_right]. split; lra.
Qed.

Lemma cavg_outer_loop (cluster ks : list Z) : forall fa fr,
  Forall (valid_class y) cluster -> Forall (valid_class y) ks ->
  finite_num fa -> finite_num fr ->
  exists fa' fr',
    for_each (cavg_outer y y_true thresh cluster) ks (fa, fr) = Ok (fa', fr') /\
    finite_num fa' /\ finite_num fr' /\
    py_q fa' == py_q fa +
                Qsum (map (fun i =>
                             Qsum (map (fun j => if (i =? j)%Z then 0
                                                 else false_alarm_rate thresh y y_true i j)
                                       cluster)) ks) /\
    py_q fr' == py_q fr +
                Qsum (map (fun i =>
                             Qsum (map (fun j => if (i =? j)%Z
                                                 then miss_rate thresh y y_true i
                                                 else 0)
                                       cluster)) ks).
Proof.
  induction ks as [|i ks IH]; intros fa fr Hcl Hks Hfa Hfr.
  - exists fa, fr. cbn. repeat (split; auto); lra.
  - inversion Hks as [|? ? Hi Hks']; subst.
    destruct (@cavg_inner_loop _ _ _ _ Hi Hcl Hfa Hfr)
      as (fa1 & fr1 & Hstep & Hfa1 & Hfr1 & Hva & Hvr).
    destruct (IH fa1 fr1 Hcl Hks' Hfa1 Hfr1)
      as (fa2 & fr2 & Hrest & Hfa2 & Hfr2 & Hva2 & Hvr2).
    exists fa2, fr2.
    split; [cbn [for_each]; unfold cavg_outer at 1; rewrite Hstep; exact Hrest|].
    split; [exact Hfa2|]. split; [exact Hfr2|].
    unfold Qsum in *. cbn [map fold_right]. split; lra.
Qed.
End Loops.

Lemma inject_Z_nonzero z : z <> 0%Z -> ~ inject_Z z == 0.
Proof.
  intros Hz H. apply Hz.
  exact (proj1 (inject_Z_injective z 0) H).
Qed.

Lemma inject_Z_pred z : inject_Z (z - 1) == inject_Z z - 1.
Proof.
  unfold Z.sub. rewrite inject_Z_plus, inject_Z_opp. reflexivity.
Qed.

(** With at least two classes in the cluster neither divisor is zero. *)
Lemma cavg_cost_finite Ptar Cfa Cmiss L fa fr :
  (2 <= L)%nat -> finite_num fa -> finite_num fr ->
  exists c, cavg_cost Ptar Cfa Cmiss L fa fr = Ok c /\ finite_num c /\
            py_q c == 100 * (Cmiss * Ptar * py_q fr
                             + Cfa * (1 - Ptar) * py_q fa
                               / (inject_Z (Z.of_nat L) - 1))
                      / inject_Z (Z.of_nat L).
Proof.
  intros HL Hfa Hfr. unfold cavg_cost.
  destruct (@py_mul_finite (py_mul (PyFloat Cmiss) (PyFloat Ptar)) fr I Hfr)
    as [Hm Hmv].
  destruct (@py_mul_finite (py_mul (PyFloat Cfa) (PyFloat (1 - Ptar))) fa I Hfa)
    as [Hn Hnv].
  set (miss := py_mul (py_mul (PyFloat Cmiss) (PyFloat Ptar)) fr) in *.
  set (num := py_mul (py_mul (PyFloat Cfa) (PyFloat (1 - Ptar))) fa) in *.
  destruct (@py_truediv_finite num (PyInt (Z.of_nat L - 1)) Hn I)
    as (t & Ht & Htf & Htv).
  { cbn [py_q]. apply inject_Z_nonzero. lia. }
  rewrite Ht. cbn [rbind].
  destruct (@py_add_finite miss t Hm Htf) as [Hs Hsv].
  destruct (@py_mul_finite (PyInt 100) (py_add miss t) I Hs) as [Hp Hpv].
  destruct (@py_truediv_finite (py_mul (PyInt 100) (py_add miss t))
                               (PyInt (Z.of_nat L)) Hp I)
    as (c & Hc & Hcf & Hcv).
  { cbn [py_q]. apply inject_Z_nonzero. lia. }
  exists c. split; [exact Hc|]. split; [exact Hcf|].
  rewrite Hcv, Hpv, Hsv, Htv, Hmv, Hnv.
  cbn [py_q py_mul]. rewrite inject_Z_pred. reflexivity.
Qed.

Lemma cavg_cost_raises Ptar Cfa Cmiss L fa fr e :
  cavg_cost Ptar Cfa Cmiss L fa fr = Raise e -> e = ZeroDivisionError.
Proof.
  unfold cavg_cost.
  destruct (py_truediv _ (PyInt (Z.of_nat L - 1))) as [t|e'] eqn:E; cbn [rbind].
  - apply py_truediv_raises.
  - intros H. injection H as <-. now apply py_truediv_raises in E.
Qed.

Lemma cavg_thresh_raises Ptar Cfa Cmiss e :
  cavg_thresh np_log Ptar Cfa Cmiss = Raise e -> e = ZeroDivisionError.
Proof.
  unfold cavg_thresh.
  destruct (py_truediv (PyFloat Cfa) _) as [a|e1] eqn:E1; cbn [rbind].
  - destruct (py_truediv (PyFloat Ptar) _) as [b|e2] eqn:E2; cbn [rbind].
    + discriminate.
    + intros H. injection H as <-. now apply py_truediv_raises in E2.
  - intros H. injection H as <-. now apply py_truediv_raises in E1.
Qed.

Lemma cavg_thresh_value Ptar Cfa Cmiss :
  ~ Cmiss == 0 -> ~ Ptar == 1 ->
  cavg_thresh np_log Ptar Cfa Cmiss
  = Ok (np_sub (np_log (Cfa / Cmiss)) (np_log (Ptar / (1 - Ptar)))).
Proof.
  intros H1 H2. unfold cavg_thresh, py_truediv. cbn [py_q].
  destruct (Qeq_bool Cmiss 0) eqn:E1; [apply Qeq_bool_iff in E1; contradiction|].
  destruct (Qeq_bool (1 - Ptar) 0) eqn:E2;
    [apply Qeq_bool_iff in E2; exfalso; apply H2; lra|].
  reflexivity.
Qed.

Section Clusters.
Variables (y : ndarray npfloat) (y_true : list Z) (thresh : npfloat).
Variables (Ptar Cfa Cmiss : Q).
Hypothesis Hlen : List.length y_true = shape0 y.

(** A cluster of valid classes costs a float or raises
    [ZeroDivisionError]; nothing else can happen. *)
Lemma cavg_cluster_outcome (cluster : list Z) :
  Forall (valid_class y) cluster ->
  (exists c, cavg_cluster y y_true thresh Ptar Cfa Cmiss cluster = Ok c) \/
  cavg_cluster y y_true thresh Ptar Cfa Cmiss cluster = Raise ZeroDivisionError.
Proof.
  intros Hv. unfold cavg_cluster.
  destruct (@cavg_outer_loop y y_true thresh Hlen cluster cluster
                             (PyInt 0) (PyInt 0) Hv Hv I I)
    as (fa & fr & Hloop & _).
  rewrite Hloop. cbn [rbind].
  destruct (cavg_cost Ptar Cfa Cmiss (List.length cluster) fa fr) as [c|e] eqn:E.
  - left. eexists. reflexivity.
  - right. apply cavg_cost_raises in E. now subst e.
Qed.

(** A cluster of one class: [fa] is still the Python int [0] when the
    cost is computed, and the division by [L - 1 = 0] is one of Python
    numbers. *)
Lemma cavg_cluster_singleton c :
  valid_class y c ->
  cavg_cluster y y_true thresh Ptar Cfa Cmiss [c] = Raise ZeroDivisionError.
Proof.
  intros Hc. unfold cavg_cluster. cbn [for_each]. unfold cavg_outer.
  cbn [for_each]. unfold cavg_inner. rewrite Z.eqb_refl.
  rewrite (select_col_valid _ _ Hlen Hc). cbn [rbind].
  unfold cavg_cost. cbn [List.length].
  rewrite py_truediv_zero; [reflexivity | exact I | reflexivity].
Qed.

Lemma cavg_cluster_value (cluster : list Z) :
  Forall (valid_class y) cluster -> NoDup cluster ->
  (2 <= List.length cluster)%nat ->
  exists q, cavg_cluster y y_true thresh Ptar Cfa Cmiss cluster = Ok (Fin q) /\
            q == cluster_cost_spec Ptar Cfa Cmiss thresh y y_true cluster.
Proof.
  intros Hv Hnd HL. unfold cavg_cluster.
  destruct (@cavg_outer_loop y y_true thresh Hlen cluster cluster
                             (PyInt 0) (PyInt 0) Hv Hv I I)
    as (fa & fr & Hloop & Hfa & Hfr & Hva & Hvr).
  rewrite Hloop. cbn [rbind].
  destruct (@cavg_cost_finite Ptar Cfa Cmiss _ fa fr HL Hfa Hfr)
    as (c & Hc & Hcf & Hcv).
  rewrite Hc. cbn [rbind]. rewrite (@to_np_finite c Hcf).
  exists (py_q c). split; [reflexivity|].
  rewrite Hcv, Hva, Hvr. unfold cluster_cost_spec.
  cbn [py_q]. change (inject_Z 0) with 0. rewrite !Qplus_0_l.
  rewrite (@Qsum_ext _ _ (miss_rate thresh y y_true) cluster)
    by (intros i Hi; now apply Qsum_own_class).
  rewrite (@Qsum_ext _
             (fun i => Qsum (map (fun j => if (i =? j)%Z then 0
                                           else false_alarm_rate thresh y y_true i j)
                                 cluster))
             (fun i => Qsum (map (false_alarm_rate thresh y y_true i)
                                 (filter (fun j => negb (i =? j)%Z) cluster)))
             cluster)
    by (intros i _; apply Qsum_filter).
  reflexivity.
Qed.

Lemma cavg_clusters_singleton (clusters : list (list Z)) c : forall acc,
  Forall (Forall (valid_class y)) clusters -> In [c] clusters ->
  for_each (cavg_clusters y y_true thresh Ptar Cfa Cmiss) clusters acc
  = Raise ZeroDivisionError.
Proof.
  induction clusters as [|cl clusters IH]; intros acc Hv Hin; [destruct Hin|].
  inversion Hv as [|? ? Hcl Hv']; subst.
  cbn [for_each]. unfold cavg_clusters at 1.
  destruct Hin as [->|Hin].
  - inversion Hcl; subst. now rewrite cavg_cluster_singleton.
  - destruct (cavg_cluster_outcome Hcl) as [[q Hq]|Hq]; rewrite Hq; cbn [rbind].
    + now apply IH.
    + reflexivity.
Qed.

Lemma cavg_clusters_value (clusters : list (list Z)) : forall acc,
  Forall (fun cluster => NoDup cluster /\ (2 <= List.length cluster)%nat /\
                         Forall (valid_class y) cluster) clusters ->
  exists costs,
    for_each (cavg_clusters y y_true thresh Ptar Cfa Cmiss) clusters acc
    = Ok (acc ++ map Fin costs) /\
    Forall2 (fun q cluster =>
               q == cluster_cost_spec Ptar Cfa Cmiss thresh y y_true cluster)
            costs clusters.
Proof.
  induction clusters as [|cl clusters IH]; intros acc Hall.
  - exists []. cbn. rewrite app_nil_r. split; [reflexivity | constructor].
  - inversion Hall as [|? ? (Hnd & HL & Hv) Hall']; subst.
    destruct (cavg_cluster_value Hv Hnd HL) as (q & Hq & Hqv).
    destruct (IH (acc ++ [Fin q]) Hall') as (costs & Hrest & Hcosts).
    exists (q :: costs). split.
    + cbn [for_each]. unfold cavg_clusters at 1. rewrite Hq. cbn [rbind].
      rewrite Hrest, <- app_assoc. reflexivity.
    + now constructor.
Qed.
End Clusters.

Lemma np_sum_finite (l : list Q) : forall acc,
  exists t, fold_left np_add (map Fin l) (Fin acc) = Fin t /\ t == acc + Qsum l.
Proof.
  induction l as [|x l IH]; intros acc; cbn.
  - exists acc. split; [reflexivity | lra].
  - destruct (IH (acc + x)) as (t & Ht & Hv).
    exists t. split; [exact Ht|]. unfold Qsum in *. lra.
Qed.

(** [np.mean] of finitely many finite costs is their arithmetic mean. *)
Lemma np_mean_finite (l : list Q) :
  l <> [] ->
  exists m, np_mean (map Fin l) = Fin m /\
            m == Qsum l / inject_Z (Z.of_nat (List.length l)).
Proof.
  intros Hl. unfold np_mean, np_sum.
  destruct (np_sum_finite l 0) as (t & Ht & Hv).
  rewrite Ht, length_map.
  assert (Hn : 0 < inject_Z (Z.of_nat (List.length l))).
  { change 0%Q with (inject_Z 0). rewrite <- Zlt_Qlt.
    destruct l; [congruence | cbn [List.length]; lia]. }
  rewrite (np_div_positive _ Hn).
  eexists. split; [reflexivity|]. rewrite Hv. rewrite Qplus_0_l. reflexivity.
Qed.

(** C5. On a score matrix with one label per row, clusters of at least two
    distinct classes that are columns of the matrix, and cost parameters
    for which the threshold's quotients exist ([Cmiss <> 0], [Ptar <> 1]),
    the numpy path of [Cavg] returns one finite cost per cluster and their
    mean. The threshold is [log(Cfa / Cmiss) - log(Ptar / (1 - Ptar))]; a
    cluster of [L] classes costs
    [100 (Cmiss Ptar sum(miss) + Cfa (1 - Ptar) sum(fa) / (L - 1)) / L],
    where the miss rate of a class counts its own-class scores strictly
    below the threshold, its false-alarm rates count the cross-class scores
    at or above it, and both divide by the class's sample count floored
    to 1. *)
Theorem Cavg_numpy_computes_cluster_costs
        (y_llr : ndarray Q) (y_true : list Z) (clusters : list (list Z))
        (Ptar Cfa Cmiss : Q) (probability_input : bool) :
  List.length y_true = shape0 y_llr ->
  Forall (fun cluster => NoDup cluster /\ (2 <= List.length cluster)%nat /\
                         Forall (valid_class y_llr) cluster) clusters ->
  ~ Cmiss == 0 -> ~ Ptar == 1 ->
  let y := if probability_input
           then map_ndarray (llr_of_probability np_log) y_llr
           else map_ndarray Fin y_llr in
  let thresh := np_sub (np_log (Cfa / Cmiss)) (np_log (Ptar / (1 - Ptar))) in
  exists costs total,
    Cavg np_log y_llr y_true (Some clusters) Ptar Cfa Cmiss probability_input
    = Ok (map Fin costs, total) /\
    Forall2 (fun q cluster =>
               q == cluster_cost_spec Ptar Cfa Cmiss thresh y y_true cluster)
            costs clusters /\
    total = np_mean (map Fin costs) /\
    (clusters <> [] ->
     exists m, total = Fin m /\
               m == Qsum costs / inject_Z (Z.of_nat (List.length clusters))).
Proof.
  intros Hlen Hcl HCmiss HPtar y thresh.
  assert (Hlen' : List.length y_true = shape0 y)
    by (subst y; destruct probability_input; exact Hlen).
  assert (Hcl' : Forall (fun cluster => NoDup cluster /\
                                        (2 <= List.length cluster)%nat /\
                                        Forall (valid_class y) cluster) clusters).
  { eapply Forall_impl; [|exact Hcl]. intros cl (H1 & H2 & H3).
    split; [exact H1|]. split; [exact H2|].
    eapply Forall_impl; [|exact H3]. intros c Hc.
    subst y; destruct probability_input; exact Hc. }
  destruct (@cavg_clusters_value y y_true thresh Ptar Cfa Cmiss Hlen' clusters [] Hcl')
    as (costs & Hloop & Hcosts).
  exists costs, (np_mean (map Fin costs)).
  split; [|split; [exact Hcosts|split; [reflexivity|]]].
  - unfold Cavg. fold y. rewrite (cavg_thresh_value Cfa HCmiss HPtar).
    cbn [rbind]. fold thresh. rewrite Hloop. reflexivity.
  - intros Hne.
    assert (Hc : costs <> []).
    { intros ->. inversion Hcosts; subst. congruence. }
    destruct (np_mean_finite Hc) as (m & Hm & Hmv).
    exists m. split; [exact Hm|].
    rewrite Hmv. now rewrite (Forall2_length Hcosts).
Qed.

(** C10. When a cluster has exactly one class -- given, or the default
    cluster over a one-column matrix -- and the classes of the clusters
    are columns of the matrix, the numpy path of [Cavg] raises
    [ZeroDivisionError] and returns no cost: for that cluster [fa] is
    still the Python int [0] when the cost is computed, so
    [Cfa * (1 - Ptar) * fa / (L - 1)] divides Python numbers by zero. *)
Theorem Cavg_singleton_cluster_raises
        (y_llr : ndarray Q) (y_true : list Z)
        (cluster_idx : option (list (list Z)))
        (Ptar Cfa Cmiss : Q) (probability_input : bool) (c : Z) :
  List.length y_true = shape0 y_llr ->
  Forall (Forall (valid_class y_llr)) (effective_clusters y_llr cluster_idx) ->
  In [c] (effective_clusters y_llr cluster_idx) ->
  Cavg np_log y_llr y_true cluster_idx Ptar Cfa Cmiss probability_input
  = Raise ZeroDivisionError /\
  (forall thresh,
      cavg_cluster (if probability_input
                    then map_ndarray (llr_of_probability np_log) y_llr
                    else map_ndarray Fin y_llr)
                   y_true thresh Ptar Cfa Cmiss [c]
      = Raise ZeroDivisionError).
Proof.
  intros Hlen Hv Hin.
  set (y := if probability_input
            then map_ndarray (llr_of_probability np_log) y_llr
            else map_ndarray Fin y_llr).
  assert (Hlen' : List.length y_true = shape0 y)
    by (subst y; destruct probability_input; exact Hlen).
  assert (Hsh : shape1 y = shape1 y_llr)
    by (subst y; destruct probability_input; reflexivity).
  assert (Hv' : Forall (Forall (valid_class y)) (effective_clusters y_llr cluster_idx)).
  { eapply Forall_impl; [|exact Hv]. intros cl Hcl.
    eapply Forall_impl; [|exact Hcl]. intros k Hk.
    unfold valid_class in *. now rewrite Hsh. }
  split.
  - unfold Cavg. fold y.
    destruct (cavg_thresh np_log Ptar Cfa Cmiss) as [thresh|e] eqn:E; cbn [rbind].
    + replace (match cluster_idx with
               | Some cs => cs
               | None => [map Z.of_nat (seq 0 (shape1 y))]
               end) with (effective_clusters y_llr cluster_idx)
        by (unfold effective_clusters; now rewrite Hsh).
      now rewrite (@cavg_clusters_singleton y y_true thresh Ptar Cfa Cmiss Hlen'
                     _ c [] Hv' Hin).
    + apply cavg_thresh_raises in E. now subst e.
  - intros thresh. apply cavg_cluster_singleton; [exact Hlen'|].
    rewrite Forall_forall in Hv'. specialize (Hv' _ Hin).
    now inversion Hv'.
Qed.
End CavgProofs.

(* ================================================================== *)
(** ** Properties of [LevenshteinDistance] and [LER] *)

Section LevProofs.
Import Metrics.
Variable A : Type.
Variable eqb : A -> A -> bool.
Hypothesis eqb_spec : forall x y, eqb x y = true <-> x = y.

Implicit Types (s t u p pre rest : list A).

Lemma lev_rec_nil_r s : lev_rec eqb s [] = List.length s.
Proof. destruct s; reflexivity. Qed.

Lemma lev_rec_cons a s b t :
  lev_rec eqb (a :: s) (b :: t)
  = if eqb a b then lev_rec eqb s t
    else S (Nat.min (Nat.min (lev_rec eqb s t) (lev_rec eqb (a :: s) t)) (lev_rec eqb s (b :: t))).
Proof. reflexivity. Qed.

Lemma edits_nil_l t : edits [] t (List.length t).
Proof. induction t; cbn; constructor; auto. Qed.

Lemma edits_nil_r s : edits s [] (List.length s).
Proof. induction s; cbn; constructor; auto. Qed.

Lemma edits_sym s t n : edits s t n -> edits t s n.
Proof. induction 1; constructor; auto. Qed.

Lemma edits_length s t n : edits s t n ->
  (List.length t <= List.length s + n /\ List.length s <= List.length t + n)%nat.
Proof. induction 1; cbn; lia. Qed.

(** Dropping the first element of the target costs at most one more edit. *)
Lemma edits_drop_target s u n :
  edits s u n -> forall b t, u = b :: t -> exists m, (m <= S n)%nat /\ edits s t m.
Proof.
  induction 1 as [|a s t n H IH|a c s t n H IH|a s t n H IH|c s t n H IH];
    intros b t' E; try discriminate.
  - injection E as <- <-. exists (S n). split; [lia|]. now constructor.
  - injection E as <- <-. exists (S n). split; [lia|]. now constructor.
  - destruct (IH _ _ E) as (m & Hm & Hed). exists (S m). split; [lia|].
    now constructor.
  - injection E as <- <-. exists n. split; [lia|]. assumption.
Qed.

Lemma edits_drop_source s t n a :
  edits (a :: s) t n -> exists m, (m <= S n)%nat /\ edits s t m.
Proof.
  intros H. apply edits_sym in H.
  destruct (edits_drop_target H eq_refl) as (m & Hm & Hed).
  exists m. split; [exact Hm|]. now apply edits_sym.
Qed.

Lemma lev_rec_edits s : forall t, edits s t (lev_rec eqb s t).
Proof.
  induction s as [|a s IHs]; intros t.
  - apply edits_nil_l.
  - induction t as [|b t IHt].
    + apply (edits_nil_r (a :: s)).
    + rewrite lev_rec_cons. destruct (eqb a b) eqn:E.
      * apply eqb_spec in E. subst b. constructor. apply IHs.
      * destruct (Nat.min_dec (Nat.min (lev_rec eqb s t) (lev_rec eqb (a :: s) t))
                              (lev_rec eqb s (b :: t))) as [-> | ->].
        -- destruct (Nat.min_dec (lev_rec eqb s t) (lev_rec eqb (a :: s) t)) as [-> | ->].
           ++ apply edits_subst. apply IHs.
           ++ apply edits_insert. apply IHt.
        -- apply edits_delete. apply IHs.
Qed.

Lemma lev_rec_least s : forall t n, edits s t n -> (lev_rec eqb s t <= n)%nat.
Proof.
  induction s as [|a s IHs]; intros t.
  - intros n H. apply edits_length in H. cbn in *. lia.
  - induction t as [|b t IHt]; intros n H.
    + apply edits_length in H. cbn in *. lia.
    + rewrite lev_rec_cons.
      inversion H as [|x s' t' n' H'|x y s' t' n' H'|x s' t' n' H'|y s' t' n' H']; subst.
      * replace (eqb b b) with true by (symmetry; now apply eqb_spec).
        now apply IHs.
      * specialize (IHs _ _ H'). destruct (eqb a b); lia.
      * pose proof (IHs _ _ H') as Hle. destruct (eqb a b) eqn:E; [|lia].
        destruct (edits_drop_target H' eq_refl) as (m & Hm & Hed).
        specialize (IHs _ _ Hed). lia.
      * pose proof (IHt _ H') as Hle. destruct (eqb a b) eqn:E; [|lia].
        destruct (edits_drop_source H') as (m & Hm & Hed).
        specialize (IHs _ _ Hed). lia.
Qed.


Lemma edits_snoc_keep a s t n : edits s t n -> edits (s ++ [a]) (t ++ [a]) n.
Proof. induction 1; cbn; repeat constructor; auto. Qed.

Lemma edits_snoc_subst a b s t n : edits s t n -> edits (s ++ [a]) (t ++ [b]) (S n).
Proof. induction 1; cbn; repeat constructor; auto. Qed.

Lemma edits_snoc_delete a s t n : edits s t n -> edits (s ++ [a]) t (S n).
Proof. induction 1; cbn; repeat constructor; auto. Qed.

Lemma edits_snoc_insert b s t n : edits s t n -> edits s (t ++ [b]) (S n).
Proof. induction 1; cbn; repeat constructor; auto. Qed.

Lemma edits_rev s t n : edits s t n -> edits (rev s) (rev t) n.
Proof.
  induction 1; cbn.
  - constructor.
  - now apply edits_snoc_keep.
  - now apply edits_snoc_subst.
  - now apply edits_snoc_delete.
  - now apply edits_snoc_insert.
Qed.

Lemma nth_map_seq (f : nat -> nat) n i :
  (i <= n)%nat -> nth i (map f (seq 0 (S n))) 0%nat = f i.
Proof.
  intros H. rewrite (nth_indep _ 0%nat (f 0%nat)) by (rewrite length_map, length_seq; lia).
  rewrite map_nth. now rewrite seq_nth by lia.
Qed.

Lemma last_map_seq (f : nat -> nat) k :
  last (map f (seq 0 (S k))) 0%nat = f k.
Proof. rewrite seq_S, map_app. cbn. apply last_last. Qed.

Lemma firstn_prefix (pre rest : list A) :
  firstn (List.length pre) (pre ++ rest) = pre.
Proof.
  rewrite firstn_app, firstn_all, Nat.sub_diag. cbn. apply app_nil_r.
Qed.

Lemma firstn_prefix_S (pre : list A) a rest :
  firstn (S (List.length pre)) (pre ++ a :: rest) = pre ++ [a].
Proof.
  rewrite firstn_app, firstn_all2 by lia.
  replace (S (List.length pre) - List.length pre)%nat with 1%nat by lia.
  reflexivity.
Qed.

Lemma lev_inner_loop c p2 s1 : forall rest pre,
  s1 = pre ++ rest ->
  fold_left (lev_inner eqb c (lev_row eqb s1 p2))
            (enumerate_from (List.length pre) rest)
            (map (fun i => lev_rec eqb (rev (firstn i s1)) (rev (p2 ++ [c])))
                 (seq 0 (S (List.length pre))))
  = lev_row eqb s1 (p2 ++ [c]).
Proof.
  induction rest as [|a rest IH]; intros pre Hs1.
  - cbn. rewrite app_nil_r in Hs1. subst pre. reflexivity.
  - cbn [enumerate_from fold_left].
    assert (Hlen : (S (List.length pre) <= List.length s1)%nat)
      by (subst s1; rewrite length_app; cbn; lia).
    replace (lev_inner eqb c (lev_row eqb s1 p2)
               (map (fun i => lev_rec eqb (rev (firstn i s1)) (rev (p2 ++ [c])))
                    (seq 0 (S (List.length pre))))
               (List.length pre, a))
      with (map (fun i => lev_rec eqb (rev (firstn i s1)) (rev (p2 ++ [c])))
                (seq 0 (S (List.length (pre ++ [a]))))).
    + replace (S (List.length pre)) with (List.length (pre ++ [a]))
        by (rewrite length_app; cbn; lia).
      apply IH. rewrite <- app_assoc. exact Hs1.
    + rewrite length_app. cbn [List.length]. rewrite Nat.add_1_r.
      rewrite (seq_S (S (List.length pre))), map_app. cbn [map Nat.add].
      unfold lev_inner. rewrite last_map_seq.
      unfold lev_row. rewrite !nth_map_seq by lia.
      rewrite Nat.add_1_r.
      clear IH. subst s1.
      rewrite !firstn_prefix_S, !firstn_prefix.
      rewrite !rev_app_distr. cbn [rev app].
      rewrite lev_rec_cons.
      destruct (eqb a c); reflexivity.
Qed.

Lemma lev_outer_loop s1 : forall rest p2,
  fold_left (lev_outer eqb s1) (enumerate_from (List.length p2) rest) (lev_row eqb s1 p2)
  = lev_row eqb s1 (p2 ++ rest).
Proof.
  induction rest as [|c rest IH]; intros p2.
  - cbn. now rewrite app_nil_r.
  - cbn [enumerate_from fold_left].
    assert (Hrow : lev_outer eqb s1 (lev_row eqb s1 p2) (List.length p2, c)
                   = lev_row eqb s1 (p2 ++ [c])).
    { pose proof (@lev_inner_loop c p2 s1 s1 [] eq_refl) as H.
      cbn [List.length seq map firstn rev] in H.
      rewrite rev_app_distr in H at 1. cbn [rev app lev_rec] in H.
      cbn [List.length] in H. rewrite length_rev in H.
      unfold lev_outer, enumerate. rewrite Nat.add_1_r. exact H. }
    rewrite Hrow.
    replace (S (List.length p2)) with (List.length (p2 ++ [c]))
      by (rewrite length_app; cbn; lia).
    rewrite IH, <- app_assoc. reflexivity.
Qed.

Lemma lev_row_initial s1 : seq 0 (List.length s1 + 1) = lev_row eqb s1 [].
Proof.
  unfold lev_row. rewrite Nat.add_1_r.
  rewrite <- (map_id (seq 0 (S (List.length s1)))) at 1.
  apply map_ext_in. intros i Hi. apply in_seq in Hi.
  cbn [rev]. rewrite lev_rec_nil_r, length_rev, length_firstn. lia.
Qed.

(** The two rolling rows compute the recursive distance of the reversed
    sequences. *)
Lemma lev_rows_compute s1 s2 :
  last (fold_left (lev_outer eqb s1) (enumerate s2) (seq 0 (List.length s1 + 1))) 0%nat
  = lev_rec eqb (rev s1) (rev s2).
Proof.
  rewrite lev_row_initial. unfold enumerate.
  pose proof (lev_outer_loop s1 s2 []) as H. cbn [List.length app] in H.
  rewrite H. unfold lev_row. rewrite last_map_seq, firstn_all. reflexivity.
Qed.

(** [LevenshteinDistance s1 s2] is the least number of single-element
    edits that turn [s1] into [s2]. *)
Lemma LevenshteinDistance_least s1 s2 :
  edits s1 s2 (LevenshteinDistance eqb s1 s2) /\
  forall n, edits s1 s2 n -> (LevenshteinDistance eqb s1 s2 <= n)%nat.
Proof.
  unfold LevenshteinDistance.
  destruct (List.length s2 <? List.length s1)%nat; rewrite lev_rows_compute.
  - split.
    + apply edits_sym.
      rewrite <- (rev_involutive s1), <- (rev_involutive s2) at 1.
      apply edits_rev, lev_rec_edits.
    + intros n H. apply lev_rec_least. now apply edits_rev, edits_sym.
  - split.
    + rewrite <- (rev_involutive s1), <- (rev_involutive s2) at 1.
      apply edits_rev, lev_rec_edits.
    + intros n H. apply lev_rec_least. now apply edits_rev.
Qed.
End LevProofs.

Section LERProofs.
Import Metrics.
Variable A : Type.
Variable eqb : A -> A -> bool.

(** One pair adds the quotient of its edit distance and the length of the
    reference to the results. *)
Lemma ler_pairs_rates (pairs : list (list A * list A)) : forall results,
  Forall (fun p => fst p <> []) pairs ->
  exists rates,
    for_each (ler_pair eqb) pairs results = Ok (results ++ rates) /\
    Forall2 (fun r p =>
               r == inject_Z (Z.of_nat (LevenshteinDistance eqb (fst p) (snd p)))
                    / inject_Z (Z.of_nat (List.length (fst p))))
            rates pairs.
Proof.
  induction pairs as [|[ytrue ypred] pairs IH]; intros results Hne.
  - exists []. cbn. rewrite app_nil_r. split; [reflexivity | constructor].
  - inversion Hne as [|? ? Hy Hne']; subst. cbn [fst] in Hy.
    destruct ytrue as [|a ytrue]; [congruence|].
    cbn [for_each ler_pair List.length rbind].
    destruct (IH (results ++
                    [Z.of_nat (LevenshteinDistance eqb (a :: ytrue) ypred)
                     # Pos.of_succ_nat (List.length ytrue)]) Hne')
      as (rates & Hrest & Hrates).
    eexists (_ :: rates). split.
    + rewrite Hrest, <- app_assoc. reflexivity.
    + constructor; [|exact Hrates].
      cbn [fst snd List.length]. rewrite Qmake_Qdiv.
      now rewrite Zpos_P_of_succ_nat, <- Nat2Z.inj_succ.
Qed.

(** [LER] on sequences of non-empty references: the mean of the pairs'
    rates. *)
Lemma LER_mean_of_rates (y_true y_pred : list (list A)) :
  y_true <> [] -> y_pred <> [] -> Forall (fun y => y <> []) y_true ->
  exists rates,
    LER eqb (Sequences y_true) (Sequences y_pred) = Ok (np_mean (map Fin rates)) /\
    Forall2 (fun r p =>
               r == inject_Z (Z.of_nat (LevenshteinDistance eqb (fst p) (snd p)))
                    / inject_Z (Z.of_nat (List.length (fst p))))
            rates (combine y_true y_pred).
Proof.
  intros Ht Hp Hne.
  assert (Hpairs : Forall (fun p : list A * list A => fst p <> [])
                          (combine y_true y_pred)).
  { apply Forall_forall. intros [t q] Hin. apply in_combine_l in Hin.
    rewrite Forall_forall in Hne. now apply Hne. }
  destruct (ler_pairs_rates [] Hpairs) as (rates & Hloop & Hrates).
  exists rates. split; [|exact Hrates].
  unfold LER, LER_list, ler_wrap.
  destruct y_true; [congruence|]. destruct y_pred; [congruence|].
  cbn [rbind]. rewrite Hloop. reflexivity.
Qed.
End LERProofs.

(** C8. [LevenshteinDistance] is the classic edit distance: the least
    number of single-element insertions, deletions and substitutions that
    turn one sequence into the other; so it is 3 from "kitten" to "sitting".
    [LER] divides each pair's distance by the length of the reference and
    takes the mean: 0.0 for [a, b, c] against itself and 1/3 against
    [a, x, c]. *)
Theorem Levenshtein_is_edit_distance_and_LER_its_mean_rate :
  (forall (A : Type) (eqb : A -> A -> bool),
      (forall x y, eqb x y = true <-> x = y) ->
      forall s1 s2 : list A,
        edits s1 s2 (Metrics.LevenshteinDistance eqb s1 s2) /\
        (forall n, edits s1 s2 n ->
                   (Metrics.LevenshteinDistance eqb s1 s2 <= n)%nat)) /\
  Metrics.LevenshteinDistance Ascii.eqb (list_ascii_of_string "kitten")
                              (list_ascii_of_string "sitting") = 3%nat /\
  (forall (A : Type) (eqb : A -> A -> bool) (y_true y_pred : list (list A)),
      y_true <> [] -> y_pred <> [] -> Forall (fun y => y <> []) y_true ->
      exists rates,
        Metrics.LER eqb (Metrics.Sequences y_true) (Metrics.Sequences y_pred)
        = Ok (np_mean (map Fin rates)) /\
        Forall2 (fun r p =>
                   r == inject_Z (Z.of_nat (Metrics.LevenshteinDistance eqb (fst p) (snd p)))
                        / inject_Z (Z.of_nat (List.length (fst p))))
                rates (combine y_true y_pred)) /\
  (exists q, Metrics.LER String.eqb (Metrics.Sequences [["a"; "b"; "c"]%string])
                         (Metrics.Sequences [["a"; "b"; "c"]%string]) = Ok (Fin q) /\
             q == 0) /\
  (exists q, Metrics.LER String.eqb (Metrics.Sequences [["a"; "b"; "c"]%string])
                         (Metrics.Sequences [["a"; "x"; "c"]%string]) = Ok (Fin q) /\
             q == 1 # 3).
Proof.
  split; [|split; [|split; [|split]]].
  - intros A eqb Heqb s1 s2. now apply LevenshteinDistance_least.
  - vm_compute. reflexivity.
  - intros A eqb y_true y_pred. apply LER_mean_of_rates.
  - exists (0 # 3). split; [vm_compute; reflexivity | reflexivity].
  - exists (1 # 3). split; [vm_compute; reflexivity | reflexivity].
Qed.

(* ================================================================== *)
(** ** [LevenshteinDistance] is a metric *)

Section LevMetric.
Import Metrics.
Variable A : Type.
Variable eqb : A -> A -> bool.
Hypothesis eqb_spec : forall x y, eqb x y = true <-> x = y.

Implicit Types (s t u : list A).

Lemma edits_refl s : edits s s 0.
Proof. induction s; constructor; auto. Qed.

Lemma edits_zero s t n : edits s t n -> n = 0%nat -> s = t.
Proof. induction 1; intros E; try discriminate; [reflexivity | f_equal; auto]. Qed.

(** Two edit scripts in a row make one that is no longer than both. *)
Lemma edits_trans_bounded (N : nat) : forall s t u n m,
  (List.length s + List.length t + List.length u <= N)%nat ->
  edits s t n -> edits t u m -> exists k, (k <= n + m)%nat /\ edits s u k.
Proof.
  induction N as [|N IH]; intros s t u n m Hsize H1 H2.
  - destruct s, t, u; cbn in Hsize; try lia.
    apply edits_length in H1, H2. cbn in *.
    exists 0%nat. split; [lia | constructor].
  - inversion H1 as [|a s' t' n' H1'|a b s' t' n' H1'|a s' t' n' H1'|b s' t' n' H1'];
      subst.
    + exists m. split; [lia | exact H2].
    + (* keep a *)
      inversion H2 as [|a' t'' u' m' H2'|a' c t'' u' m' H2'|a' t'' u' m' H2'
                      |c t'' u' m' H2']; subst.
      * destruct (IH s' t' u' n m) as (k & Hk & He); [cbn in Hsize; lia|auto|auto|].
        exists k. split; [lia | now constructor].
      * destruct (IH s' t' u' n m') as (k & Hk & He); [cbn in Hsize; lia|auto|auto|].
        exists (S k). split; [lia | now constructor].
      * destruct (IH s' t' u n m') as (k & Hk & He); [cbn in Hsize; lia|auto|auto|].
        exists (S k). split; [lia | now constructor].
      * destruct (IH (a :: s') (a :: t') u' n m') as (k & Hk & He);
          [cbn in *; lia|auto|auto|].
        exists (S k). split; [lia | now constructor].
    + (* subst a b *)
      inversion H2 as [|a' t'' u' m' H2'|a' c t'' u' m' H2'|a' t'' u' m' H2'
                      |c t'' u' m' H2']; subst.
      * destruct (IH s' t' u' n' m) as (k & Hk & He); [cbn in Hsize; lia|auto|auto|].
        exists (S k). split; [lia | now constructor].
      * destruct (IH s' t' u' n' m') as (k & Hk & He); [cbn in Hsize; lia|auto|auto|].
        exists (S k). split; [lia | now constructor].
      * destruct (IH s' t' u n' m') as (k & Hk & He); [cbn in Hsize; lia|auto|auto|].
        exists (S k). split; [lia | now constructor].
      * destruct (IH (a :: s') (b :: t') u' (S n') m') as (k & Hk & He);
          [cbn in *; lia|auto|auto|].
        exists (S k). split; [lia | now constructor].
    + (* delete a *)
      destruct (IH s' t u n' m) as (k & Hk & He); [cbn in Hsize; lia|auto|auto|].
      exists (S k). split; [lia | now constructor].
    + (* insert b *)
      inversion H2 as [|a' t'' u' m' H2'|a' c t'' u' m' H2'|a' t'' u' m' H2'
                      |c t'' u' m' H2']; subst.
      * destruct (IH s t' u' n' m) as (k & Hk & He); [cbn in Hsize; lia|auto|auto|].
        exists (S k). split; [lia | now constructor].
      * destruct (IH s t' u' n' m') as (k & Hk & He); [cbn in Hsize; lia|auto|auto|].
        exists (S k). split; [lia | now constructor].
      * destruct (IH s t' u n' m') as (k & Hk & He); [cbn in Hsize; lia|auto|auto|].
        exists k. split; [lia | assumption].
      * destruct (IH s (b :: t') u' (S n') m') as (k & Hk & He);
          [cbn in *; lia|auto|auto|].
        exists (S k). split; [lia | now constructor].
Qed.

Lemma edits_trans s t u n m :
  edits s t n -> edits t u m -> exists k, (k <= n + m)%nat /\ edits s u k.
Proof. now apply edits_trans_bounded with (N := (List.length s + List.length t + List.length u)%nat). Qed.

(** Substituting along the common length and deleting or inserting the
    rest. *)
Lemma edits_max s : forall t, edits s t (Nat.max (List.length s) (List.length t)).
Proof.
  induction s as [|a s IH]; intros t.
  - cbn. apply edits_nil_l.
  - destruct t as [|b t].
    + apply (edits_nil_r (a :: s)).
    + cbn [List.length]. rewrite <- Nat.succ_max_distr. apply edits_subst, IH.
Qed.

(** X1. [LevenshteinDistance] is symmetric: swapping the two sequences
    leaves the distance as it is, also when they have one length and the
    code does not swap them. *)
Theorem LevenshteinDistance_symmetric s1 s2 :
  LevenshteinDistance eqb s1 s2 = LevenshteinDistance eqb s2 s1.
Proof.
  destruct (@LevenshteinDistance_least _ eqb eqb_spec s1 s2) as [H12 L12].
  destruct (@LevenshteinDistance_least _ eqb eqb_spec s2 s1) as [H21 L21].
  apply Nat.le_antisymm.
  - apply L12. now apply edits_sym.
  - apply L21. now apply edits_sym.
Qed.

(** X2. The distance is 0 exactly when the two sequences are equal. *)
Theorem LevenshteinDistance_zero_iff_equal s1 s2 :
  LevenshteinDistance eqb s1 s2 = 0%nat <-> s1 = s2.
Proof.
  destruct (@LevenshteinDistance_least _ eqb eqb_spec s1 s2) as [H L].
  split.
  - intros E. rewrite E in H. now apply (edits_zero H).
  - intros ->. specialize (L 0%nat (edits_refl s2)). lia.
Qed.

(** X3. The triangle inequality: going through a third sequence is never
    shorter. *)
Theorem LevenshteinDistance_triangle s1 s2 s3 :
  (LevenshteinDistance eqb s1 s3
   <= LevenshteinDistance eqb s1 s2 + LevenshteinDistance eqb s2 s3)%nat.
Proof.
  destruct (@LevenshteinDistance_least _ eqb eqb_spec s1 s2) as [H12 _].
  destruct (@LevenshteinDistance_least _ eqb eqb_spec s2 s3) as [H23 _].
  destruct (@LevenshteinDistance_least _ eqb eqb_spec s1 s3) as [_ L13].
  destruct (edits_trans H12 H23) as (k & Hk & He).
  specialize (L13 k He). lia.
Qed.

(** X4. The distance lies between the difference of the two lengths and
    the greater of them. *)
Theorem LevenshteinDistance_bounds s1 s2 :
  (Nat.max (List.length s1) (List.length s2) - Nat.min (List.length s1) (List.length s2)
   <= LevenshteinDistance eqb s1 s2
   <= Nat.max (List.length s1) (List.length s2))%nat.
Proof.
  destruct (@LevenshteinDistance_least _ eqb eqb_spec s1 s2) as [H L].
  split.
  - apply edits_length in H. lia.
  - apply L, edits_max.
Qed.
End LevMetric.

(* ================================================================== *)
(** ** What [LER] compares, and when it raises *)

Section LERBehaviour.
Import Metrics.
Variable A : Type.
Variable eqb : A -> A -> bool.

Lemma ler_pairs_outcome (pairs : list (list A * list A)) : forall results,
  (Forall (fun p => fst p <> []) pairs /\
   exists rates, for_each (ler_pair eqb) pairs results = Ok rates) \/
  (Exists (fun p => fst p = []) pairs /\
   for_each (ler_pair eqb) pairs results = Raise ZeroDivisionError).
Proof.
  induction pairs as [|[ytrue ypred] pairs IH]; intros results.
  - left. split; [constructor | now exists results].
  - destruct ytrue as [|a ytrue].
    + right. split; [now constructor | reflexivity].
    + cbn [for_each ler_pair List.length rbind].
      destruct (IH (results ++
                    [Z.of_nat (LevenshteinDistance eqb (a :: ytrue) ypred)
                     # Pos.of_succ_nat (List.length ytrue)]))
        as [[Hall Hok] | [Hex Hraise]].
      * left. split; [constructor; [discriminate | exact Hall] | exact Hok].
      * right. split; [now apply Exists_cons_tl | exact Hraise].
Qed.

Lemma Forall_not_Exists_empty (pairs : list (list A * list A)) :
  Forall (fun p => fst p <> []) pairs ->
  ~ Exists (fun p => fst p = []) pairs.
Proof.
  intros Hall Hex. apply Exists_exists in Hex. destruct Hex as (p & Hin & Hp).
  rewrite Forall_forall in Hall. now apply (Hall p).
Qed.

(** X5. What [LER] raises on two sequences of sequences: an [IndexError]
    exactly when one of them is empty ([y[0]]), a [ZeroDivisionError]
    exactly when neither is and one of the compared references is empty,
    and nothing else. *)
Theorem LER_raises_exactly (y_true y_pred : list (list A)) :
  (LER eqb (Sequences y_true) (Sequences y_pred) = Raise IndexError
   <-> y_true = [] \/ y_pred = []) /\
  (LER eqb (Sequences y_true) (Sequences y_pred) = Raise ZeroDivisionError
   <-> y_true <> [] /\ y_pred <> [] /\
       Exists (fun p => fst p = []) (combine y_true y_pred)) /\
  (forall e, LER eqb (Sequences y_true) (Sequences y_pred) = Raise e ->
             e = IndexError \/ e = ZeroDivisionError).
Proof.
  unfold LER, LER_list, ler_wrap.
  destruct y_true as [|t y_true].
  { cbn. split; [|split].
    - split; auto.
    - split; [discriminate | intros (H & _); congruence].
    - intros e H. injection H as <-. auto. }
  destruct y_pred as [|p y_pred].
  { cbn. split; [|split].
    - split; auto.
    - split; [discriminate | intros (_ & H & _); congruence].
    - intros e H. injection H as <-. auto. }
  cbn [rbind].
  destruct (ler_pairs_outcome (combine (t :: y_true) (p :: y_pred)) [])
    as [[Hall (rates & Hok)] | [Hex Hraise]].
  - rewrite Hok. cbn [rbind]. split; [|split].
    + split; [discriminate | intros [H | H]; discriminate].
    + split; [discriminate|]. intros (_ & _ & Hex).
      now apply Forall_not_Exists_empty in Hall.
    + discriminate.
  - rewrite Hraise. cbn [rbind]. split; [|split].
    + split; [discriminate | intros [H | H]; discriminate].
    + split; [|reflexivity]. intros _. repeat split; try discriminate. exact Hex.
    + intros e H. injection H as <-. auto.
Qed.

Lemma combine_app_r {B C : Type} (l : list B) (r extra : list C) :
  (List.length l <= List.length r)%nat -> combine l (r ++ extra) = combine l r.
Proof.
  revert r. induction l as [|x l IH]; intros r H; [reflexivity|].
  destruct r as [|y r]; cbn in *; [lia|]. f_equal. apply IH. lia.
Qed.

Lemma combine_app_l {B C : Type} (l extra : list B) (r : list C) :
  (List.length r <= List.length l)%nat -> combine (l ++ extra) r = combine l r.
Proof.
  revert r. induction l as [|x l IH]; intros r H.
  - destruct r; cbn in *; [|lia]. now destruct extra.
  - destruct r as [|y r]; cbn in *; [reflexivity|]. f_equal. apply IH. lia.
Qed.

(** X6. [LER] compares the pairs [zip] forms: predictions beyond the
    last reference are ignored, and so are references beyond the last
    prediction -- a missing prediction is no error. A single non-empty
    sequence is compared as a batch of one. *)
Theorem LER_compares_zipped_pairs (y_true y_pred extra : list (list A)) (s t : list A) :
  ((List.length y_true <= List.length y_pred)%nat ->
   LER eqb (Sequences y_true) (Sequences (y_pred ++ extra))
   = LER eqb (Sequences y_true) (Sequences y_pred)) /\
  ((List.length y_pred <= List.length y_true)%nat -> y_pred <> [] ->
   LER eqb (Sequences (y_true ++ extra)) (Sequences y_pred)
   = LER eqb (Sequences y_true) (Sequences y_pred)) /\
  (s <> [] -> t <> [] ->
   LER eqb (Single s) (Single t) = LER eqb (Sequences [s]) (Sequences [t])).
Proof.
  split; [|split].
  - intros Hlen. unfold LER, LER_list, ler_wrap.
    destruct y_true as [|a y_true]; [reflexivity|].
    destruct y_pred as [|b y_pred]; [cbn in Hlen; lia|].
    cbn [app rbind]. change (b :: y_pred ++ extra) with ((b :: y_pred) ++ extra).
    now rewrite combine_app_r.
  - intros Hlen Hne. unfold LER, LER_list, ler_wrap.
    destruct y_pred as [|b y_pred]; [congruence|].
    destruct y_true as [|a y_true]; [cbn in Hlen; lia|].
    cbn [app rbind]. change (a :: y_true ++ extra) with ((a :: y_true) ++ extra).
    now rewrite combine_app_l.
  - intros Hs Ht. destruct s; [congruence|]. destruct t; [congruence|]. reflexivity.
Qed.

Hypothesis eqb_spec : forall x y, eqb x y = true <-> x = y.

Lemma Qsum_nonneg (l : list Q) : Forall (fun r => 0 <= r) l -> 0 <= Qsum l.
Proof.
  induction 1 as [|r l Hr Hl IH]; unfold Qsum in *; cbn; [lra|]. lra.
Qed.

Lemma Qsum_zero (l : list Q) :
  Forall (fun r => 0 <= r) l -> (Qsum l == 0 <-> Forall (fun r => r == 0) l).
Proof.
  induction 1 as [|r l Hr Hl IH].
  - split; [constructor | reflexivity].
  - pose proof (Qsum_nonneg Hl) as Hs. unfold Qsum in *. cbn [fold_right].
    split.
    + intros E. constructor; [lra|]. apply IH. lra.
    + intros E. inversion E as [|? ? E1 E2]; subst. apply IH in E2. lra.
Qed.

Lemma rate_zero (d n : nat) (r : Q) :
  (0 < n)%nat -> r == inject_Z (Z.of_nat d) / inject_Z (Z.of_nat n) ->
  0 <= r /\ (r == 0 <-> d = 0%nat).
Proof.
  intros Hn Hr.
  assert (Hn' : 0 < inject_Z (Z.of_nat n)) by now apply count_nonzero.
  assert (Hd : 0 <= inject_Z (Z.of_nat d)).
  { change 0 with (inject_Z 0). rewrite <- Zle_Qle. lia. }
  split.
  - rewrite Hr. apply Qle_shift_div_l; [exact Hn' | lra].
  - rewrite Hr. split.
    + intros E.
      assert (E' : inject_Z (Z.of_nat d) == 0).
      { rewrite <- (Qmult_div_r (inject_Z (Z.of_nat d)) (inject_Z (Z.of_nat n)))
          by lra.
        rewrite E. ring. }
      change 0 with (inject_Z 0) in E'.
      apply (proj1 (inject_Z_injective _ _)) in E'. lia.
    + intros ->. cbn. reflexivity.
Qed.

(** X7. On non-empty references [LER] returns a rate that is not
    negative, and that is 0 exactly when every compared prediction equals
    its reference. *)
Theorem LER_zero_iff_every_pair_equal (y_true y_pred : list (list A)) :
  y_true <> [] -> y_pred <> [] -> Forall (fun y => y <> []) y_true ->
  exists q,
    LER eqb (Sequences y_true) (Sequences y_pred) = Ok (Fin q) /\
    0 <= q /\
    (q == 0 <-> Forall (fun p => fst p = snd p) (combine y_true y_pred)).
Proof.
  intros Ht Hp Hne.
  destruct (@LER_mean_of_rates A eqb y_true y_pred Ht Hp Hne) as (rates & HL & Hrates).
  assert (Hpairs : Forall (fun p : list A * list A => fst p <> [])
                          (combine y_true y_pred)).
  { apply Forall_forall. intros [a b] Hin. apply in_combine_l in Hin.
    rewrite Forall_forall in Hne. now apply Hne. }
  assert (Hr : rates <> []).
  { intros ->. inversion Hrates as [E|]; subst.
    destruct y_true; [congruence|]. destruct y_pred; [congruence|]. discriminate. }
  destruct (np_mean_finite Hr) as (m & Hm & Hmv).
  assert (Hn : 0 < inject_Z (Z.of_nat (List.length rates))).
  { apply count_nonzero. destruct rates; [congruence | cbn; lia]. }
  assert (Hfacts : Forall (fun r => 0 <= r) rates /\
                   (Forall (fun r => r == 0) rates <->
                    Forall (fun p => fst p = snd p) (combine y_true y_pred))).
  { clear HL Hr Hm Hmv Hn m. revert Hpairs.
    induction Hrates as [|r p rates pairs Hrp Hrest IH]; intros Hpairs.
    - split; [constructor|]. split; constructor.
    - inversion Hpairs as [|? ? Hp0 Hps]; subst.
      destruct (IH Hps) as [IH1 IH2].
      assert (Hlen : (0 < List.length (fst p))%nat)
        by (destruct (fst p); [congruence | cbn; lia]).
      destruct (@rate_zero _ _ _ Hlen Hrp) as [Hge Hz].
      split; [constructor; assumption|].
      split; intros E; inversion E as [|? ? E1 E2]; subst; constructor.
      + apply Hz in E1.
        destruct (@LevenshteinDistance_least _ eqb eqb_spec (fst p) (snd p))
          as [He _].
        rewrite E1 in He. exact (edits_zero He eq_refl).
      + now apply IH2.
      + apply Hz.
        destruct (@LevenshteinDistance_least _ eqb eqb_spec (fst p) (snd p))
          as [_ Hl].
        specialize (Hl 0%nat). rewrite <- E1 in Hl.
        specialize (Hl (edits_refl (fst p))). rewrite <- E1. lia.
      + now apply IH2. }
  destruct Hfacts as [Hge Hzero].
  exists m. split; [now rewrite HL, Hm|].
  pose proof (Qsum_nonneg Hge) as Hs.
  split.
  - rewrite Hmv. apply Qle_shift_div_l; [exact Hn | lra].
  - rewrite <- Hzero, <- (Qsum_zero Hge), Hmv. split.
    + intros E.
      rewrite <- (Qmult_div_r (Qsum rates) (inject_Z (Z.of_nat (List.length rates))))
        by lra.
      rewrite E. ring.
    + intros ->. field. lra.
Qed.
End LERBehaviour.

(* ================================================================== *)
(** ** The sorted trials of [det_curve] *)

Section ArgSortProofs.
Import Metrics.

Lemma Qltb_lt (a b : Q) : Qltb a b = true <-> a < b.
Proof.
  unfold Qltb. rewrite negb_true_iff, <- not_true_iff_false, Qle_bool_iff.
  split; [apply Qnot_le_lt | apply Qlt_not_le].
Qed.

Lemma Qltb_ge (a b : Q) : Qltb a b = false <-> b <= a.
Proof.
  unfold Qltb. rewrite negb_false_iff. apply Qle_bool_iff.
Qed.

Lemma insert_index_perm keys i sorted :
  Permutation (insert_index keys i sorted) (i :: sorted).
Proof.
  induction sorted as [|j rest IH]; cbn; [reflexivity|].
  destruct (Qltb _ _); [reflexivity|].
  rewrite IH. apply perm_swap.
Qed.

Lemma insert_index_sorted keys i sorted :
  StronglySorted (key_then_index keys) sorted ->
  Forall (fun j => (j < i)%nat) sorted ->
  StronglySorted (key_then_index keys) (insert_index keys i sorted).
Proof.
  induction 1 as [|j rest Hs IH Hall]; intros Hlt; cbn.
  - repeat constructor.
  - inversion Hlt as [|? ? Hj Hrest]; subst.
    destruct (Qltb (nth i keys 0) (nth j keys 0)) eqn:E.
    + apply Qltb_lt in E. constructor; [now constructor|].
      constructor; [now left|].
      eapply Forall_impl; [|exact Hall]. intros k [Hk | [Hk _]]; left; lra.
    + apply Qltb_ge in E. constructor; [now apply IH|].
      apply (Permutation_Forall (Permutation_sym (insert_index_perm keys i rest))).
      constructor; [|exact Hall].
      unfold key_then_index.
      destruct (Qlt_le_dec (nth j keys 0) (nth i keys 0)); [now left|].
      right. split; [lra | exact Hj].
Qed.

Lemma argsort_fold keys : forall k,
  let l := fold_left (fun sorted i => insert_index keys i sorted) (seq 0 k) [] in
  Permutation l (seq 0 k) /\ StronglySorted (key_then_index keys) l.
Proof.
  induction k as [|k [IHp IHs]]; cbn zeta.
  - cbn. split; constructor.
  - rewrite seq_S, fold_left_app. cbn [fold_left Nat.add].
    split.
    + rewrite insert_index_perm, IHp.
      replace (k :: seq 0 k) with ([k] ++ seq 0 k) by reflexivity.
      apply Permutation_app_comm.
    + apply insert_index_sorted; [exact IHs|].
      apply (Permutation_Forall (Permutation_sym IHp)).
      apply Forall_forall. intros j Hj. apply in_seq in Hj. lia.
Qed.

Lemma argsort_perm keys : Permutation (argsort keys) (seq 0 (List.length keys)).
Proof. apply argsort_fold. Qed.


Lemma sorted_nth (keys : list Q) :
  StronglySorted Qle keys ->
  forall i j, (i < j < List.length keys)%nat -> nth i keys 0 <= nth j keys 0.
Proof.
  induction 1 as [|x keys Hs IH Hall]; intros i j Hij; [cbn in Hij; lia|].
  destruct j as [|j]; [lia|]. destruct i as [|i]; cbn [nth].
  - rewrite Forall_forall in Hall. apply Hall, nth_In. cbn in Hij. lia.
  - apply IH. cbn in Hij. lia.
Qed.

Lemma insert_index_last keys i sorted :
  Forall (fun j => nth j keys 0 <= nth i keys 0) sorted ->
  insert_index keys i sorted = sorted ++ [i].
Proof.
  induction 1 as [|j rest Hj Hrest IH]; cbn; [reflexivity|].
  apply Qltb_ge in Hj. now rewrite Hj, IH.
Qed.

(** On keys that are in order already the stable sort moves nothing. *)
Lemma argsort_of_sorted keys :
  StronglySorted Qle keys -> argsort keys = seq 0 (List.length keys).
Proof.
  intros Hs. unfold argsort.
  assert (H : forall k, (k <= List.length keys)%nat ->
             fold_left (fun sorted i => insert_index keys i sorted) (seq 0 k) []
             = seq 0 k).
  { induction k as [|k IH]; intros Hk; [reflexivity|].
    rewrite seq_S, fold_left_app, IH by lia. cbn [fold_left Nat.add].
    apply insert_index_last. apply Forall_forall. intros j Hj.
    apply in_seq in Hj. apply (sorted_nth Hs). lia. }
  now apply H.
Qed.

End ArgSortProofs.

Section DetSorted.
Import Metrics.

Lemma det_marks_sorted ts fs : StronglySorted Qle (map snd (det_trials ts fs)).
Proof.
  unfold det_trials. rewrite map_app, !map_map. cbn [snd].
  induction fs as [|f fs IH]; cbn.
  - induction ts as [|t ts IH]; cbn; constructor; [exact IH|].
    apply Forall_map, Forall_forall. intros; lra.
  - constructor; [exact IH|].
    apply Forall_app. split; apply Forall_map, Forall_forall; intros; lra.
Qed.

(** The first of the two sorts of [det_curve] moves nothing: the marks are
    in order as the array is filled. What is left is the stable sort by
    score. *)
Lemma det_sorted_scores_argsort ts fs :
  det_sorted_scores ts fs
  = map (fun k => nth k (det_trials ts fs) (0, 0))
        (argsort (map fst (det_trials ts fs))).
Proof.
  unfold det_sorted_scores. fold (det_trials ts fs).
  rewrite (argsort_of_sorted (det_marks_sorted ts fs)), length_map.
  rewrite map_map. apply map_ext_in. intros k Hk.
  apply (Permutation_in _ (argsort_perm _)) in Hk. apply in_seq in Hk.
  rewrite length_map in Hk. rewrite seq_nth by lia. reflexivity.
Qed.

Lemma map_nth_seq {B : Type} (l : list B) (d : B) :
  map (fun k => nth k l d) (seq 0 (List.length l)) = l.
Proof.
  induction l as [|x l IH]; [reflexivity|].
  cbn [List.length seq map nth]. f_equal.
  rewrite <- seq_shift, map_map. exact IH.
Qed.



Lemma det_sorted_scores_perm (true_scores false_scores : list Q) :
  Permutation (det_sorted_scores true_scores false_scores)
              (det_trials true_scores false_scores).
Proof.
  rewrite det_sorted_scores_argsort.
  set (trials := det_trials true_scores false_scores).
  pose proof (argsort_perm (map fst trials)) as Hp.
  rewrite length_map in Hp.
  rewrite <- (map_nth_seq trials (0, 0)) at 2.
  now apply Permutation_map.
Qed.


End DetSorted.

(* ------------------------------------------------------------------ *)
(** *** The meaning of the two rates *)

Section DetRates.
Import Metrics.

Lemma trials_partition (l : list (Q * Q)) :
  Forall marked l ->
  (List.length (true_trials l) + List.length (false_trials l))%nat = List.length l.
Proof.
  induction 1 as [|p l Hp Hl IH]; [reflexivity|].
  unfold true_trials, false_trials in *. cbn [filter].
  destruct Hp as [-> | ->]; cbn; lia.
Qed.

Lemma marks_sum (l : list (Q * Q)) :
  Forall marked l ->
  Qsum (map snd l) == inject_Z (Z.of_nat (List.length (true_trials l))).
Proof.
  induction 1 as [|[s m] l Hp Hl IH]; [reflexivity|].
  unfold Qsum, true_trials in *. cbn [map fold_right filter snd].
  destruct Hp as [Hp | Hp]; cbn [snd] in Hp; subst m.
  - change (Qeq_bool 0 1) with false. cbn iota. rewrite IH. lra.
  - change (Qeq_bool 1 1) with true. cbn iota. cbn [List.length].
    rewrite IH, inject_succ. lra.
Qed.

Lemma cumsum_from_nth (xs : list Q) : forall acc k,
  (k < List.length xs)%nat ->
  nth k (cumsum_from acc xs) 0 == acc + Qsum (firstn (S k) xs).
Proof.
  induction xs as [|x xs IH]; intros acc k Hk; [cbn in Hk; lia|].
  destruct k as [|k].
  - cbn. unfold Qsum. destruct xs; cbn; lra.
  - cbn [cumsum_from nth]. rewrite IH by (cbn in Hk; lia).
    change (firstn (S (S k)) (x :: xs)) with (x :: firstn (S k) xs).
    unfold Qsum. cbn [fold_right]. lra.
Qed.

Lemma sumfalse_nth (c : Q) (xs : list Q) : forall start acc k,
  (k < List.length xs)%nat ->
  nth k (map (fun '(i, st) => c - (inject_Z (Z.of_nat i) - st))
             (combine (seq start (List.length xs)) (cumsum_from acc xs))) 0
  == c - (inject_Z (Z.of_nat (start + k)) - (acc + Qsum (firstn (S k) xs))).
Proof.
  induction xs as [|x xs IH]; intros start acc k Hk; [cbn in Hk; lia|].
  destruct k as [|k].
  - cbn. rewrite Nat.add_0_r. unfold Qsum. destruct xs; cbn; lra.
  - cbn [List.length seq cumsum_from combine map nth].
    rewrite IH by (cbn in Hk; lia).
    change (firstn (S (S k)) (x :: xs)) with (x :: firstn (S k) xs).
    unfold Qsum. cbn [fold_right].
    replace (S start + k)%nat with (start + S k)%nat by lia. lra.
Qed.

Lemma Forall_firstn {B : Type} (P : B -> Prop) n (l : list B) :
  Forall P l -> Forall P (firstn n l).
Proof.
  intros H. rewrite <- (firstn_skipn n l) in H. now apply Forall_app in H.
Qed.

Lemma false_trials_of_det_trials ts fs :
  List.length (false_trials (det_trials ts fs)) = List.length fs.
Proof.
  unfold false_trials, det_trials. rewrite filter_app, length_app.
  replace (filter _ (map (fun s => (s, 1)) ts)) with (@nil (Q * Q)).
  - rewrite Nat.add_0_r. induction fs; cbn; auto.
  - induction ts; cbn; auto.
Qed.

Lemma true_trials_of_det_trials ts fs :
  List.length (true_trials (det_trials ts fs)) = List.length ts.
Proof.
  unfold true_trials, det_trials. rewrite filter_app, length_app.
  replace (filter _ (map (fun s => (s, 0)) fs)) with (@nil (Q * Q)).
  - induction ts; cbn; auto.
  - induction fs; cbn; auto.
Qed.

Lemma filter_length_perm {B : Type} (f : B -> bool) (l l' : list B) :
  Permutation l l' -> List.length (filter f l) = List.length (filter f l').
Proof.
  induction 1; cbn; auto; try congruence.
  - destruct (f x); cbn; congruence.
  - destruct (f x), (f y); reflexivity.
Qed.

Lemma nth_map_default {B C : Type} (f : B -> C) (l : list B) (d : C) (d' : B) k :
  (k < List.length l)%nat -> nth k (map f l) d = f (nth k l d').
Proof.
  intros Hk. rewrite (nth_indep _ d (f d')) by now rewrite length_map.
  apply map_nth.
Qed.

(** With true and with false trials the rates are finite: [det_curve]
    returns these values, and the first row of the sorted array. *)
Lemma det_curve_finite_rates y_true y_score pos_label ts fs :
  ts <> [] -> fs <> [] ->
  exists s l rest,
    det_sorted_scores ts fs = (s, l) :: rest /\
    det_curve y_true y_score pos_label (Some ts) (Some fs)
    = Ok (map Fin (det_Pmiss ts fs), map Fin (det_Pfa ts fs), [s; l]).
Proof.
  intros Hts Hfs.
  assert (Hnt : (0 < List.length ts)%nat)
    by (destruct ts; [congruence | cbn; lia]).
  assert (Hnf : (0 < List.length fs)%nat)
    by (destruct fs; [congruence | cbn; lia]).
  pose proof (det_sorted_scores_length ts fs) as Hlen.
  unfold det_curve, det_Pmiss, det_Pfa. cbn [det_curve_split rbind].
  set (sorted := det_sorted_scores ts fs) in *.
  assert (Hhead : exists s l rest, sorted = (s, l) :: rest).
  { destruct sorted as [|[s l] rest]; [cbn in Hlen; lia|]. now exists s, l, rest. }
  destruct Hhead as (s & l & rest & Hhead).
  exists s, l, rest. split; [exact Hhead|].
  assert (Hmatch : forall P F : list npfloat,
             match sorted with
             | [] => Raise IndexError
             | (s0, l0) :: _ => Ok (P, F, [s0; l0])
             end = Ok (P, F, [s; l])) by (intros; now rewrite Hhead).
  rewrite Hmatch. f_equal. f_equal. f_equal.
  - rewrite map_map. apply map_ext. intros x. now apply np_div_count.
  - rewrite (map_map _ Fin). apply map_ext. intros x. now apply np_div_count.
Qed.

(** Entry [k] of the rates counts trials: the true ones among the [k + 1]
    lowest, and the false ones above them. *)
Lemma det_rates_nth ts fs k :
  ts <> [] -> fs <> [] ->
  (k < List.length ts + List.length fs)%nat ->
  let sorted := det_sorted_scores ts fs in
  nth k (det_Pmiss ts fs) 0
  == inject_Z (Z.of_nat (List.length (true_trials (firstn (S k) sorted))))
     / inject_Z (Z.of_nat (List.length ts)) /\
  nth k (det_Pfa ts fs) 0
  == inject_Z (Z.of_nat (List.length (false_trials (skipn (S k) sorted))))
     / inject_Z (Z.of_nat (List.length fs)).
Proof.
  intros Hts Hfs Hk sorted.
  assert (Hnt : (0 < List.length ts)%nat)
    by (destruct ts; [congruence | cbn; lia]).
  assert (Hnf : (0 < List.length fs)%nat)
    by (destruct fs; [congruence | cbn; lia]).
  pose proof (det_sorted_scores_length ts fs) as Hlen.
  pose proof (det_sorted_scores_marks ts fs) as Hmarks.
  pose proof (det_sorted_scores_perm ts fs) as Hperm.
  fold sorted in Hlen, Hmarks, Hperm.
  unfold det_Pmiss, det_Pfa. fold sorted.
  set (total := (List.length ts + List.length fs)%nat) in *.
  set (nt := inject_Z (Z.of_nat (List.length ts))).
  set (nf := inject_Z (Z.of_nat (List.length fs))).
  assert (Hnt' : 0 < nt) by now apply count_nonzero.
  assert (Hnf' : 0 < nf) by now apply count_nonzero.
  set (marks := map snd sorted).
  assert (Hlm : List.length marks = total) by (unfold marks; now rewrite length_map).
  set (sumfalse := map (fun '(k, st) => nf - (inject_Z (Z.of_nat k) - st))
                       (combine (seq 1 total) (cumsum marks))).
  assert (Hfirst : Forall marked (firstn (S k) sorted)) by now apply Forall_firstn.
  assert (Hsum : Qsum (firstn (S k) marks)
                 == inject_Z (Z.of_nat (List.length (true_trials (firstn (S k) sorted))))).
  { unfold marks. rewrite firstn_map. now apply marks_sum. }
  split.
  - rewrite (@nth_map_default _ _ (fun x => x / nt) (cumsum marks) 0 0 k)
      by (unfold cumsum; rewrite cumsum_from_length; lia).
    unfold cumsum. rewrite cumsum_from_nth by lia. rewrite Hsum. field. lra.
  - rewrite (@nth_map_default _ _ (fun x => x / nf) sumfalse 0 0 k).
    2:{ unfold sumfalse, cumsum.
        rewrite length_map, length_combine, length_seq, cumsum_from_length. lia. }
    unfold sumfalse, cumsum. rewrite <- Hlm.
    rewrite sumfalse_nth by lia. rewrite Hsum.
    pose proof (trials_partition Hfirst) as Hpart.
    rewrite length_firstn in Hpart.
    assert (Hall : List.length (false_trials sorted) = List.length fs).
    { unfold false_trials. rewrite (filter_length_perm _ Hperm).
      apply false_trials_of_det_trials. }
    rewrite <- (firstn_skipn (S k) sorted) in Hall at 1.
    unfold false_trials in Hall. rewrite filter_app, length_app in Hall.
    fold (false_trials (firstn (S k) sorted)) in Hall.
    fold (false_trials (skipn (S k) sorted)) in Hall.
    set (T := List.length (true_trials (firstn (S k) sorted))) in *.
    set (F := List.length (false_trials (firstn (S k) sorted))) in *.
    set (R := List.length (false_trials (skipn (S k) sorted))) in *.
    assert (E1 : (T + F = S k)%nat) by lia.
    assert (E2 : (F + R = List.length fs)%nat) by lia.
    assert (E1' : inject_Z (Z.of_nat T) + inject_Z (Z.of_nat F)
                  == inject_Z (Z.of_nat (1 + k))).
    { rewrite <- inject_Z_plus, <- Nat2Z.inj_add. now rewrite E1. }
    assert (E2' : inject_Z (Z.of_nat F) + inject_Z (Z.of_nat R) == nf).
    { unfold nf. rewrite <- inject_Z_plus, <- Nat2Z.inj_add. now rewrite E2. }
    setoid_replace (nf - (inject_Z (Z.of_nat (1 + k)) - (0 + inject_Z (Z.of_nat T))))
      with (inject_Z (Z.of_nat R)) by lra.
    reflexivity.
Qed.




(** The last point of the curve: every true trial missed, no false alarm. *)
Lemma det_rates_last ts fs :
  ts <> [] -> fs <> [] ->
  let total := (List.length ts + List.length fs)%nat in
  nth (total - 1) (det_Pmiss ts fs) 0 == 1 /\
  nth (total - 1) (det_Pfa ts fs) 0 == 0.
Proof.
  intros Hts Hfs total.
  assert (Hnt : (0 < List.length ts)%nat)
    by (destruct ts; [congruence | cbn; lia]).
  pose proof (det_sorted_scores_length ts fs) as Hlen.
  pose proof (det_sorted_scores_perm ts fs) as Hperm.
  destruct (@det_rates_nth ts fs (total - 1)%nat Hts Hfs) as [H1 H2];
    [subst total; lia|].
  replace (S (total - 1)) with (List.length (det_sorted_scores ts fs)) in H1, H2
    by (subst total; lia).
  rewrite firstn_all in H1. rewrite skipn_all in H2.
  assert (Hnt' : 0 < inject_Z (Z.of_nat (List.length ts))) by now apply count_nonzero.
  split.
  - rewrite H1. unfold true_trials.
    rewrite (filter_length_perm _ Hperm).
    fold (true_trials (det_trials ts fs)).
    rewrite true_trials_of_det_trials. field. lra.
  - rewrite H2. cbn [false_trials filter List.length]. unfold Qdiv.
    change (inject_Z (Z.of_nat 0)) with 0. ring.
Qed.

End DetRates.

(* ------------------------------------------------------------------ *)
(** *** The threshold, and inputs that are missing or empty *)

Section DetEdges.
Import Metrics.




Lemma zero_over_zero (l : list Q) :
  Forall (fun x => x == 0) l ->
  map (fun x => np_div (Fin x) (Fin (inject_Z (Z.of_nat 0)))) l
  = repeat NaN (List.length l).
Proof.
  induction 1 as [|x l Hx Hl IH]; [reflexivity|].
  cbn [map List.length repeat]. rewrite IH. f_equal.
  unfold np_div. change (Qeq_bool (inject_Z (Z.of_nat 0)) 0) with true.
  apply Qeq_bool_iff in Hx. now rewrite Hx.
Qed.

Lemma cumsum_from_zeros (xs : list Q) : forall acc,
  acc == 0 -> Forall (fun x => x = 0) xs ->
  Forall (fun x => x == 0) (cumsum_from acc xs).
Proof.
  induction xs as [|x xs IH]; intros acc Hacc Hx; cbn; constructor.
  - inversion Hx; subst. lra.
  - inversion Hx; subst. apply IH; [lra | assumption].
Qed.

Lemma sumfalse_ones (c : Q) (xs : list Q) : forall start m acc,
  c == 0 -> acc + 1 == inject_Z (Z.of_nat start) ->
  Forall (fun x => x = 1) xs ->
  Forall (fun x => x == 0)
         (map (fun '(i, st) => c - (inject_Z (Z.of_nat i) - st))
              (combine (seq start m) (cumsum_from acc xs))).
Proof.
  induction xs as [|x xs IH]; intros start m acc Hc Hacc Hx.
  - destruct m; cbn; constructor.
  - destruct m as [|m]; cbn [seq cumsum_from combine map]; constructor.
    + inversion Hx; subst. lra.
    + inversion Hx; subst. apply IH; [exact Hc | | assumption].
      rewrite inject_succ. lra.
Qed.

Lemma marks_of_false_only fs :
  Forall (fun x => x = 0) (map snd (det_sorted_scores [] fs)).
Proof.
  pose proof (det_sorted_scores_perm [] fs) as Hperm.
  apply Forall_map. apply (Permutation_Forall (Permutation_sym Hperm)).
  unfold det_trials. cbn [map]. rewrite app_nil_r.
  apply Forall_map, Forall_forall. reflexivity.
Qed.

Lemma marks_of_true_only ts :
  Forall (fun x => x = 1) (map snd (det_sorted_scores ts [])).
Proof.
  pose proof (det_sorted_scores_perm ts []) as Hperm.
  apply Forall_map. apply (Permutation_Forall (Permutation_sym Hperm)).
  unfold det_trials. cbn [map app].
  apply Forall_map, Forall_forall. reflexivity.
Qed.

(** X11. [det_curve] raises [ValueError] when scores of one kind are
    missing and [y_true] or [y_score] is too, and [IndexError] when there
    is no trial at all. With trials of one kind only it returns: the rate
    of the other kind is nan in every entry ([0 / 0]). *)
Theorem det_curve_missing_or_empty_input
        (y_true : option (list Z)) (y_score : option (list Q))
        (pos_label : option Z) :
  (forall true_scores false_scores,
      true_scores = None \/ false_scores = None ->
      y_true = None \/ y_score = None ->
      det_curve y_true y_score pos_label true_scores false_scores
      = Raise ValueError) /\
  det_curve y_true y_score pos_label (Some []) (Some []) = Raise IndexError /\
  (forall false_scores, false_scores <> [] ->
     exists Pfa threshold,
       det_curve y_true y_score pos_label (Some []) (Some false_scores)
       = Ok (repeat NaN (List.length false_scores), Pfa, threshold)) /\
  (forall true_scores, true_scores <> [] ->
     exists Pmiss threshold,
       det_curve y_true y_score pos_label (Some true_scores) (Some [])
       = Ok (Pmiss, repeat NaN (List.length true_scores), threshold)).
Proof.
  split; [|split; [|split]].
  - intros ts fs Hs Hy. unfold det_curve, det_curve_split.
    destruct Hs as [-> | ->], Hy as [-> | ->];
      try destruct ts; try destruct fs; try destruct y_true; try destruct y_score;
      reflexivity.
  - reflexivity.
  - intros fs Hne.
    pose proof (det_sorted_scores_length [] fs) as Hlen.
    pose proof (marks_of_false_only fs) as Hm.
    unfold det_curve. cbn [det_curve_split rbind List.length Nat.add].
    destruct (det_sorted_scores [] fs) as [|[s l] rest] eqn:E.
    { destruct fs; [congruence | cbn in Hlen; lia]. }
    do 2 eexists. f_equal. f_equal. f_equal.
    rewrite zero_over_zero.
    + unfold cumsum. rewrite cumsum_from_length, length_map. now rewrite Hlen.
    + apply cumsum_from_zeros; [reflexivity | exact Hm].
  - intros ts Hne.
    pose proof (det_sorted_scores_length ts []) as Hlen.
    pose proof (marks_of_true_only ts) as Hm.
    unfold det_curve. cbn [det_curve_split rbind List.length].
    destruct (det_sorted_scores ts []) as [|[s l] rest] eqn:E.
    { destruct ts; [congruence | cbn in Hlen; lia]. }
    do 2 eexists. f_equal. f_equal.
    rewrite zero_over_zero.
    + unfold cumsum.
      rewrite length_map, length_combine, length_seq, cumsum_from_length, length_map.
      rewrite Hlen.
      replace (Nat.min _ _) with (List.length ts) by (cbn [List.length]; lia).
      reflexivity.
    + apply sumfalse_ones; [reflexivity | reflexivity | exact Hm].
Qed.

Lemma select_partition {B : Type} (p : Z -> bool) (y : list Z) : forall (xs : list B),
  List.length y = List.length xs ->
  (List.length (select (map (fun l => negb (p l)) y) xs)
   + List.length (select (map p y) xs))%nat = List.length y.
Proof.
  induction y as [|l y IH]; intros xs Hlen; [reflexivity|].
  destruct xs as [|x xs]; [discriminate|].
  cbn [map select List.length]. injection Hlen as Hlen. specialize (IH xs Hlen).
  destruct (p l); cbn [negb List.length]; lia.
Qed.

(** X12. Given labels and scores of one length, [det_curve] is
    [det_curve] on the scores split by the label: true are the scores
    whose label is [pos_label] (1 when not given), false all the others;
    the [RuntimeError] of the count check cannot occur. *)
Theorem det_curve_splits_scores_by_label
        (y_true : list Z) (y_score : list Q) (pos_label : option Z) :
  List.length y_true = List.length y_score ->
  let pos := match pos_label with None => 1%Z | Some l => l end in
  det_curve (Some y_true) (Some y_score) pos_label None None
  = det_curve None None None
              (Some (select (map (Z.eqb pos) y_true) y_score))
              (Some (select (map (fun l => negb (Z.eqb pos l)) y_true) y_score)).
Proof.
  intros Hlen pos. unfold det_curve at 1. unfold det_curve_split, mask_select.
  fold pos. rewrite !length_map, Hlen, Nat.eqb_refl. cbn [negb rbind].
  rewrite <- Hlen, (select_partition (Z.eqb pos) y_true y_score Hlen), Nat.eqb_refl.
  reflexivity.
Qed.
End DetEdges.

(* ================================================================== *)
(** ** Properties of [compute_minDCF] *)

Section MinDCF.
Import Metrics.

Lemma argmin_from_finite (all : list Q) : forall (rest pre : list Q) best,
  all = pre ++ rest ->
  first_least all best (List.length pre) ->
  first_least all
    (argmin_from best (Fin (nth best all 0)) (List.length pre) (map Fin rest))
    (List.length all).
Proof.
  induction rest as [|x rest IH]; intros pre best Hall Hinv.
  - cbn. rewrite Hall, app_nil_r. rewrite Hall, app_nil_r in Hinv. exact Hinv.
  - cbn [map argmin_from np_lt].
    assert (Hx : nth (List.length pre) all 0 = x).
    { rewrite Hall, app_nth2, Nat.sub_diag by lia. reflexivity. }
    assert (Hall' : all = (pre ++ [x]) ++ rest) by now rewrite <- app_assoc.
    assert (Hl : List.length (pre ++ [x]) = S (List.length pre))
      by (rewrite length_app; cbn; lia).
    destruct Hinv as (Hb & Hle & Hlt).
    destruct (Qltb x (nth best all 0)) eqn:E.
    + apply Qltb_lt in E. rewrite <- Hx at 1. rewrite <- Hl.
      apply IH; [exact Hall'|]. rewrite Hl. split; [lia|]. split.
      * intros j Hj. rewrite Hx.
        destruct (Nat.eq_dec j (List.length pre)) as [-> | Hne];
          [rewrite Hx; lra|].
        specialize (Hle j). assert (j < List.length pre)%nat by lia. 
        specialize (Hle H). lra.
      * intros j Hj. rewrite Hx. specialize (Hle j Hj). lra.
    + apply Qltb_ge in E. rewrite <- Hl.
      apply IH; [exact Hall'|]. rewrite Hl. split; [lia|]. split.
      * intros j Hj.
        destruct (Nat.eq_dec j (List.length pre)) as [-> | Hne];
          [rewrite Hx; lra|].
        apply Hle. lia.
      * exact Hlt.
Qed.

Lemma np_argmin_finite (x : Q) (xs : list Q) :
  exists i, np_argmin (map Fin (x :: xs)) = Ok i /\
            first_least (x :: xs) i (List.length (x :: xs)).
Proof.
  cbn [map np_argmin]. eexists. split; [reflexivity|].
  apply (@argmin_from_finite (x :: xs) xs [x] 0%nat); [reflexivity|].
  cbn. split; [lia|]. split.
  - intros j Hj. assert (j = 0%nat) as -> by lia. cbn. lra.
  - intros j Hj. lia.
Qed.

Lemma DCF_vector_finite Cmiss Cfa Ptrue (pm : list Q) : forall pf,
  map (fun '(a, b) =>
         np_add (np_mul (np_mul (Fin Cmiss) a) (Fin Ptrue))
                (np_mul (np_mul (Fin Cfa) b) (Fin (1 - Ptrue))))
      (combine (map Fin pm) (map Fin pf))
  = map Fin (map (fun p => detection_cost Cmiss Cfa Ptrue (fst p) (snd p))
                 (combine pm pf)).
Proof.
  induction pm as [|a pm IH]; intros pf; [reflexivity|].
  destruct pf as [|b pf]; [reflexivity|].
  cbn [map combine]. now rewrite IH.
Qed.

Lemma nth_combine_costs Cmiss Cfa Ptrue (pm pf : list Q) j :
  (j < List.length pm)%nat -> List.length pm = List.length pf ->
  nth j (map (fun p => detection_cost Cmiss Cfa Ptrue (fst p) (snd p))
             (combine pm pf)) 0
  = detection_cost Cmiss Cfa Ptrue (nth j pm 0) (nth j pf 0).
Proof.
  intros Hj Hlen.
  rewrite (@nth_map_default _ _ _ (combine pm pf) 0 (0, 0) j)
    by (rewrite length_combine; lia).
  now rewrite combine_nth.
Qed.

(** On finite rates of one length the result is the first point of least
    cost. *)
Lemma compute_minDCF_finite (pm pf : list Q) (Cmiss Cfa Ptrue : Q) :
  List.length pm = List.length pf -> pm <> [] ->
  exists i,
    (i < List.length pm)%nat /\
    compute_minDCF (map Fin pm) (map Fin pf) Cmiss Cfa Ptrue
    = Ok (Fin (detection_cost Cmiss Cfa Ptrue (nth i pm 0) (nth i pf 0)),
          Fin (nth i pm 0), Fin (nth i pf 0)) /\
    (forall j, (j < List.length pm)%nat ->
               detection_cost Cmiss Cfa Ptrue (nth i pm 0) (nth i pf 0)
               <= detection_cost Cmiss Cfa Ptrue (nth j pm 0) (nth j pf 0)) /\
    (forall j, (j < i)%nat ->
               detection_cost Cmiss Cfa Ptrue (nth i pm 0) (nth i pf 0)
               < detection_cost Cmiss Cfa Ptrue (nth j pm 0) (nth j pf 0)).
Proof.
  intros Hlen Hne.
  unfold compute_minDCF.
  replace (List.length (map Fin pm) =? List.length (map Fin pf))%nat with true
    by (rewrite !length_map, Hlen; symmetry; apply Nat.eqb_refl).
  cbn [negb].
  rewrite DCF_vector_finite.
  set (costs := map (fun p => detection_cost Cmiss Cfa Ptrue (fst p) (snd p))
                    (combine pm pf)).
  assert (Hlc : List.length costs = List.length pm).
  { unfold costs. rewrite length_map, length_combine. lia. }
  destruct costs as [|c costs'] eqn:Ec.
  { destruct pm; [congruence | discriminate]. }
  destruct (np_argmin_finite c costs') as (i & Hi & Hb & Hle & Hlt).
  rewrite Hi. cbn [rbind]. rewrite <- Ec in *. clear Ec.
  rewrite Hlc in Hb.
  exists i. split; [exact Hb|].
  assert (Hcost : forall j, (j < List.length pm)%nat ->
            nth j costs 0
            = detection_cost Cmiss Cfa Ptrue (nth j pm 0) (nth j pf 0)).
  { intros j Hj. unfold costs. now apply nth_combine_costs. }
  split; [|split].
  - f_equal. f_equal; [f_equal|].
    + rewrite (@nth_map_default _ _ Fin costs NaN 0 i) by lia.
      now rewrite Hcost.
    + apply nth_map_default. lia.
    + apply nth_map_default. lia.
  - intros j Hj. rewrite <- !Hcost by lia. apply Hle. lia.
  - intros j Hj. rewrite <- !Hcost by lia. now apply Hlt.
Qed.


Lemma det_rates_lengths ts fs :
  List.length (det_Pmiss ts fs) = (List.length ts + List.length fs)%nat /\
  List.length (det_Pfa ts fs) = (List.length ts + List.length fs)%nat.
Proof.
  pose proof (det_sorted_scores_length ts fs) as Hlen.
  unfold det_Pmiss, det_Pfa, cumsum.
  rewrite !length_map, length_combine, length_seq, cumsum_from_length, length_map.
  rewrite Hlen. lia.
Qed.

Lemma count_ratio_nonneg (a b : nat) :
  (0 < b)%nat -> 0 <= inject_Z (Z.of_nat a) / inject_Z (Z.of_nat b).
Proof.
  intros Hb. apply count_nonzero in Hb.
  apply Qle_shift_div_l; [exact Hb|]. rewrite Qmult_0_l.
  change 0 with (inject_Z 0). rewrite <- Zle_Qle. lia.
Qed.

(** X14. [compute_minDCF] on the curve [det_curve] returns: with true and
    with false trials, costs that are not negative and a prior in [0, 1],
    the minimum exists, is not negative and is at most [Cmiss * Ptrue], the
    cost of the curve's last point, where every true trial is missed. *)
Theorem minDCF_of_det_curve_at_most_all_missed
        (true_scores false_scores : list Q) (Cmiss Cfa Ptrue : Q) :
  true_scores <> [] -> false_scores <> [] ->
  0 <= Cmiss -> 0 <= Cfa -> 0 <= Ptrue -> Ptrue <= 1 ->
  exists Pmiss Pfa threshold d pm pf,
    det_curve None None None (Some true_scores) (Some false_scores)
    = Ok (Pmiss, Pfa, threshold) /\
    compute_minDCF Pmiss Pfa Cmiss Cfa Ptrue = Ok (Fin d, Fin pm, Fin pf) /\
    d = detection_cost Cmiss Cfa Ptrue pm pf /\
    0 <= d /\ d <= Cmiss * Ptrue.
Proof.
  intros Hts Hfs HCm HCf HP0 HP1.
  destruct (det_curve_finite_rates None None None Hts Hfs)
    as (s & l & rest & _ & Hdc).
  destruct (det_rates_lengths true_scores false_scores) as [HlP HlF].
  assert (Hnt : (0 < List.length true_scores)%nat)
    by (destruct true_scores; [congruence | cbn; lia]).
  assert (Hnf : (0 < List.length false_scores)%nat)
    by (destruct false_scores; [congruence | cbn; lia]).
  set (Pm := det_Pmiss true_scores false_scores) in *.
  set (Pf := det_Pfa true_scores false_scores) in *.
  destruct (@compute_minDCF_finite Pm Pf Cmiss Cfa Ptrue)
    as (i & Hi & Hmin & Hle & _).
  { lia. }
  { intros E. rewrite E in HlP. cbn in HlP. lia. }
  exists (map Fin Pm), (map Fin Pf), [s; l],
         (detection_cost Cmiss Cfa Ptrue (nth i Pm 0) (nth i Pf 0)),
         (nth i Pm 0), (nth i Pf 0).
  split; [exact Hdc|]. split; [exact Hmin|]. split; [reflexivity|].
  rewrite HlP in Hi, Hle.
  destruct (@det_rates_nth true_scores false_scores i Hts Hfs Hi) as [Hpm Hpf].
  destruct (det_rates_last Hts Hfs) as [Hlm Hlf].
  fold Pm in Hpm, Hlm. fold Pf in Hpf, Hlf.
  split.
  - unfold detection_cost.
    assert (H1 : 0 <= nth i Pm 0) by (rewrite Hpm; now apply count_ratio_nonneg).
    assert (H2 : 0 <= nth i Pf 0) by (rewrite Hpf; now apply count_ratio_nonneg).
    assert (H3 : 0 <= 1 - Ptrue) by lra.
    assert (H4 : 0 <= Cmiss * nth i Pm 0 * Ptrue)
      by (repeat apply Qmult_le_0_compat; assumption).
    assert (H5 : 0 <= Cfa * nth i Pf 0 * (1 - Ptrue))
      by (repeat apply Qmult_le_0_compat; assumption).
    lra.
  - specialize (Hle (List.length true_scores + List.length false_scores - 1)%nat).
    eapply Qle_trans; [apply Hle; lia|].
    unfold detection_cost. rewrite Hlm, Hlf. ring_simplify. lra.
Qed.

End MinDCF.

(* ================================================================== *)
(** ** When [Cavg] returns *)

Section CavgOutcome.
Import Metrics.
Variable np_log : Q -> npfloat.

(** A cluster without a class: the sums stay the Python int [0] and the
    cost divides by [L = 0]. *)
Lemma cavg_cluster_empty (y : ndarray npfloat) (y_true : list Z) thresh Ptar Cfa Cmiss :
  cavg_cluster y y_true thresh Ptar Cfa Cmiss [] = Raise ZeroDivisionError.
Proof.
  unfold cavg_cluster. cbn [for_each rbind List.length]. unfold cavg_cost.
  cbn [Z.of_nat Z.sub Z.add Z.opp py_mul py_q py_truediv rbind].
  change (Qeq_bool (inject_Z (-1)) 0) with false. cbn iota.
  cbn [py_add py_mul py_q py_truediv rbind].
  change (Qeq_bool (inject_Z 0) 0) with true. reflexivity.
Qed.

Section OneMatrix.
Variables (y : ndarray npfloat) (y_true : list Z) (thresh : npfloat).
Variables (Ptar Cfa Cmiss : Q).
Hypothesis Hlen : List.length y_true = shape0 y.

Lemma cavg_cluster_returns (cluster : list Z) :
  Forall (valid_class y) cluster ->
  ((2 <= List.length cluster)%nat ->
   exists c, cavg_cluster y y_true thresh Ptar Cfa Cmiss cluster = Ok c) /\
  ((List.length cluster < 2)%nat ->
   cavg_cluster y y_true thresh Ptar Cfa Cmiss cluster = Raise ZeroDivisionError).
Proof.
  intros Hv. split.
  - intros HL. unfold cavg_cluster.
    destruct (@cavg_outer_loop np_log y y_true thresh Hlen cluster cluster
                               (PyInt 0) (PyInt 0) Hv Hv I I)
      as (fa & fr & Hloop & Hfa & Hfr & _).
    rewrite Hloop. cbn [rbind].
    destruct (@cavg_cost_finite np_log Ptar Cfa Cmiss _ fa fr HL Hfa Hfr)
      as (c & Hc & _).
    rewrite Hc. cbn [rbind]. eexists. reflexivity.
  - intros HL. destruct cluster as [|c [|c' cluster]]; [| |cbn in HL; lia].
    + apply cavg_cluster_empty.
    + apply cavg_cluster_singleton; [exact Hlen|]. now inversion Hv.
Qed.

Lemma cavg_clusters_returns (clusters : list (list Z)) : forall acc,
  Forall (Forall (valid_class y)) clusters ->
  (Forall (fun cluster => (2 <= List.length cluster)%nat) clusters /\
   exists costs,
     for_each (cavg_clusters y y_true thresh Ptar Cfa Cmiss) clusters acc = Ok costs /\
     List.length costs = (List.length acc + List.length clusters)%nat) \/
  (Exists (fun cluster => (List.length cluster < 2)%nat) clusters /\
   for_each (cavg_clusters y y_true thresh Ptar Cfa Cmiss) clusters acc
   = Raise ZeroDivisionError).
Proof.
  induction clusters as [|cl clusters IH]; intros acc Hv.
  - left. split; [constructor|]. exists acc. cbn. split; [reflexivity | lia].
  - inversion Hv as [|? ? Hcl Hv']; subst.
    destruct (cavg_cluster_returns Hcl) as [Hok Hraise].
    cbn [for_each]. unfold cavg_clusters at 1 3.
    destruct (le_lt_dec 2 (List.length cl)) as [HL | HL].
    + destruct (Hok HL) as (c & Hc). rewrite Hc. cbn [rbind].
      destruct (IH (acc ++ [c]) Hv') as [[Hall (costs & Hcosts & Hn)] | [Hex Hr]].
      * left. split; [now constructor|]. exists costs. split; [exact Hcosts|].
        rewrite Hn, length_app. cbn. lia.
      * right. split; [now apply Exists_cons_tl | exact Hr].
    + right. split; [now apply Exists_cons_hd|].
      now rewrite (Hraise HL).
Qed.
End OneMatrix.

Lemma cavg_thresh_zero_divisor Ptar Cfa Cmiss :
  Cmiss == 0 \/ Ptar == 1 ->
  cavg_thresh np_log Ptar Cfa Cmiss = Raise ZeroDivisionError.
Proof.
  intros H. unfold cavg_thresh, py_truediv. cbn [py_q].
  destruct (Qeq_bool Cmiss 0) eqn:E1; [reflexivity|]. cbn [rbind].
  destruct (Qeq_bool (1 - Ptar) 0) eqn:E2; [reflexivity|]. exfalso.
  apply Qeq_bool_neq in E1, E2. destruct H as [H | H]; [contradiction|].
  apply E2. lra.
Qed.

(** X15. When there is one label per row and the classes of the
    clusters are columns, the numpy path of [Cavg] either returns one cost
    per cluster or raises [ZeroDivisionError]. It returns exactly when
    [Cmiss <> 0], [Ptar <> 1] and every cluster has at least two
    classes. *)
Theorem Cavg_returns_iff_costs_and_clusters_allow
        (y_llr : ndarray Q) (y_true : list Z)
        (cluster_idx : option (list (list Z)))
        (Ptar Cfa Cmiss : Q) (probability_input : bool) :
  List.length y_true = shape0 y_llr ->
  Forall (Forall (valid_class y_llr)) (effective_clusters y_llr cluster_idx) ->
  let clusters := effective_clusters y_llr cluster_idx in
  let outcome := Cavg np_log y_llr y_true cluster_idx Ptar Cfa Cmiss
                      probability_input in
  ((exists costs total,
       outcome = Ok (costs, total) /\ List.length costs = List.length clusters)
   \/ outcome = Raise ZeroDivisionError) /\
  ((exists r, outcome = Ok r) <->
   ~ Cmiss == 0 /\ ~ Ptar == 1 /\
   Forall (fun cluster => (2 <= List.length cluster)%nat) clusters).
Proof.
  intros Hlen Hv clusters outcome.
  set (y := if probability_input
            then map_ndarray (llr_of_probability np_log) y_llr
            else map_ndarray Fin y_llr).
  assert (Hlen' : List.length y_true = shape0 y)
    by (subst y; destruct probability_input; exact Hlen).
  assert (Hsh : shape1 y = shape1 y_llr)
    by (subst y; destruct probability_input; reflexivity).
  assert (Hv' : Forall (Forall (valid_class y)) clusters).
  { eapply Forall_impl; [|exact Hv]. intros cl Hcl.
    eapply Forall_impl; [|exact Hcl]. intros k Hk.
    unfold valid_class in *. now rewrite Hsh. }
  assert (Hout : outcome
                 = rbind (cavg_thresh np_log Ptar Cfa Cmiss)
                         (fun thresh =>
                            rbind (for_each (cavg_clusters y y_true thresh Ptar Cfa Cmiss)
                                            clusters [])
                                  (fun cost => Ok (cost, np_mean cost)))).
  { subst outcome clusters. unfold Cavg. fold y.
    unfold effective_clusters. now rewrite Hsh. }
  rewrite Hout. clear Hout.
  destruct (Qeq_bool Cmiss 0) eqn:E1.
  { apply Qeq_bool_iff in E1.
    rewrite (@cavg_thresh_zero_divisor Ptar Cfa Cmiss (or_introl E1)). cbn [rbind].
    split; [now right|]. split; [intros [r H]; discriminate | tauto]. }
  destruct (Qeq_bool Ptar 1) eqn:E2.
  { apply Qeq_bool_iff in E2.
    rewrite (@cavg_thresh_zero_divisor Ptar Cfa Cmiss (or_intror E2)). cbn [rbind].
    split; [now right|]. split; [intros [r H]; discriminate | tauto]. }
  apply Qeq_bool_neq in E1, E2.
  rewrite (cavg_thresh_value np_log Cfa E1 E2). cbn [rbind].
  set (thresh := np_sub _ _).
  destruct (@cavg_clusters_returns y y_true thresh Ptar Cfa Cmiss Hlen' clusters [] Hv')
    as [[Hall (costs & Hcosts & Hn)] | [Hex Hr]].
  - rewrite Hcosts. cbn [rbind]. split.
    + left. exists costs, (np_mean costs). split; [reflexivity | exact Hn].
    + split; [intros _; auto|]. intros _. eexists. reflexivity.
  - rewrite Hr. cbn [rbind]. split; [now right|].
    split; [intros [r H]; discriminate|].
    intros (_ & _ & Hall). exfalso.
    apply Exists_exists in Hex. destruct Hex as (cl & Hin & Hlt).
    rewrite Forall_forall in Hall. specialize (Hall cl Hin). lia.
Qed.
End CavgOutcome.

Section CavgShapes.
Import Metrics.
Variable np_log : Q -> npfloat.



End CavgShapes.

Section CavgRange.
Import Metrics.
Variable np_log : Q -> npfloat.

Lemma filter_length_bound {B : Type} (f : B -> bool) (l : list B) :
  (List.length (filter f l) <= List.length l)%nat.
Proof. induction l as [|x l IH]; cbn; [lia|]. destruct (f x); cbn; lia. Qed.

Lemma class_hits_bound (hit : list npfloat -> bool) i (y_true : list Z) :
  forall rs : list (list npfloat),
  (List.length (filter (fun p => Z.eqb i (fst p) && hit (snd p)) (combine y_true rs))
   <= count_occ Z.eq_dec y_true i)%nat.
Proof.
  induction y_true as [|l y_true IH]; intros rs; [cbn; lia|].
  destruct rs as [|r rs]; [cbn; lia|].
  cbn [combine filter fst snd count_occ].
  specialize (IH rs).
  destruct (Z.eq_dec l i) as [-> | Hne].
  - rewrite Z.eqb_refl. destruct (hit r); cbn; lia.
  - replace (i =? l)%Z with false by (symmetry; apply Z.eqb_neq; congruence).
    cbn. exact IH.
Qed.

(** An error rate is a share of the samples of a class. *)
Lemma error_rate_range (hit : npfloat -> bool) (y : ndarray npfloat)
      (y_true : list Z) (i j : Z) :
  0 <= error_rate hit y y_true i j <= 1.
Proof.
  unfold error_rate.
  set (h := List.length _).
  set (n := count_occ Z.eq_dec y_true i).
  assert (Hh : (h <= Nat.max n 1)%nat).
  { subst h n.
    pose proof (class_hits_bound (fun r => hit (nth (Z.to_nat j) r NaN)) i y_true (rows y)).
    lia. }
  assert (Hn : (0 < Nat.max n 1)%nat) by lia.
  pose proof (count_nonzero Hn) as Hn'.
  assert (H0 : 0 <= inject_Z (Z.of_nat h)).
  { change 0 with (inject_Z 0). rewrite <- Zle_Qle. lia. }
  assert (H1 : inject_Z (Z.of_nat h) <= inject_Z (Z.of_nat (Nat.max n 1))).
  { rewrite <- Zle_Qle. lia. }
  split.
  - apply Qle_shift_div_l; [exact Hn' | lra].
  - apply Qle_shift_div_r; [exact Hn' | lra].
Qed.

Lemma Qsum_shares {B : Type} (f : B -> Q) (l : list B) :
  (forall x, In x l -> 0 <= f x <= 1) ->
  0 <= Qsum (map f l) <= inject_Z (Z.of_nat (List.length l)).
Proof.
  induction l as [|x l IH]; intros H.
  - unfold Qsum. cbn [map fold_right List.length Z.of_nat].
    change (inject_Z 0) with 0. lra.
  - assert (Hx := H x (or_introl eq_refl)).
    assert (Hl : forall z, In z l -> 0 <= f z <= 1) by (intros z Hz; apply H; now right).
    specialize (IH Hl). unfold Qsum in *. cbn [map fold_right List.length].
    rewrite inject_succ. lra.
Qed.

Lemma others_length i (cluster : list Z) :
  In i cluster ->
  (List.length (filter (fun j => negb (i =? j)%Z) cluster) + 1
   <= List.length cluster)%nat.
Proof.
  induction cluster as [|c cluster IH]; intros Hin; [destruct Hin|].
  cbn [filter List.length].
  destruct (i =? c)%Z eqn:E; cbn [negb List.length].
  - pose proof (filter_length_bound (fun j => negb (i =? j)%Z) cluster). lia.
  - destruct Hin as [-> | Hin]; [rewrite Z.eqb_refl in E; discriminate|].
    specialize (IH Hin). lia.
Qed.

Lemma Qmult_le_nonneg_l (c a b : Q) : 0 <= c -> a <= b -> c * a <= c * b.
Proof.
  intros Hc Hab. rewrite (Qmult_comm c a), (Qmult_comm c b).
  now apply Qmult_le_compat_r.
Qed.

(** The cost of a cluster of at least two classes is a percentage of the
    prior-weighted costs. *)
Lemma cluster_cost_spec_range Ptar Cfa Cmiss thresh (y : ndarray npfloat)
      (y_true cluster : list Z) :
  (2 <= List.length cluster)%nat ->
  0 <= Cmiss -> 0 <= Cfa -> 0 <= Ptar <= 1 ->
  0 <= cluster_cost_spec Ptar Cfa Cmiss thresh y y_true cluster
    <= 100 * (Cmiss * Ptar + Cfa * (1 - Ptar)).
Proof.
  intros HL HCm HCf [HP0 HP1]. unfold cluster_cost_spec.
  set (L := inject_Z (Z.of_nat (List.length cluster))).
  set (misses := Qsum (map (miss_rate thresh y y_true) cluster)).
  set (fas := Qsum (map _ cluster)).
  assert (HL2 : 2 <= L).
  { subst L. change 2 with (inject_Z 2). rewrite <- Zle_Qle. lia. }
  assert (Hm : 0 <= misses <= L).
  { subst misses L. apply Qsum_shares. intros i _. apply error_rate_range. }
  assert (Hf : 0 <= fas <= L * (L - 1)).
  { subst fas.
    assert (Hin : forall i, In i cluster ->
              0 <= Qsum (map (false_alarm_rate thresh y y_true i)
                             (filter (fun j => negb (i =? j)%Z) cluster))
                <= L - 1).
    { intros i Hi.
      pose proof (@Qsum_shares _ (false_alarm_rate thresh y y_true i)
                    (filter (fun j => negb (i =? j)%Z) cluster)
                    (fun j _ => error_rate_range _ y y_true i j)) as [H0 H1].
      split; [exact H0|].
      eapply Qle_trans; [exact H1|].
      pose proof (@others_length i cluster Hi) as Hlen.
      subst L. setoid_replace (inject_Z (Z.of_nat (List.length cluster)) - 1)
        with (inject_Z (Z.of_nat (List.length cluster) - 1))
        by (unfold Z.sub; rewrite inject_Z_plus, inject_Z_opp; reflexivity).
      rewrite <- Zle_Qle. lia. }
    clear Hm misses. revert Hin. generalize (L - 1) as b. intros b Hin.
    assert (Hgen : forall l : list Z, (forall i, In i l -> In i cluster) ->
              0 <= Qsum (map (fun i => Qsum (map (false_alarm_rate thresh y y_true i)
                                                 (filter (fun j => negb (i =? j)%Z) cluster)))
                             l)
                <= inject_Z (Z.of_nat (List.length l)) * b).
    { induction l as [|i l IH]; intros Hsub.
      - unfold Qsum. cbn [map fold_right List.length Z.of_nat].
        change (inject_Z 0) with 0. lra.
      - assert (Hi := Hin i (Hsub i (or_introl eq_refl))).
        assert (Hl : forall k, In k l -> In k cluster)
          by (intros k Hk; apply Hsub; now right).
        specialize (IH Hl). unfold Qsum in *. cbn [map fold_right List.length].
        rewrite inject_succ. lra. }
    apply Hgen. auto. }
  assert (HL0 : 0 < L) by lra.
  assert (HL1 : 0 < L - 1) by lra.
  assert (Hq : 0 <= fas / (L - 1) <= L).
  { split.
    - apply Qle_shift_div_l; [exact HL1 | lra].
    - apply Qle_shift_div_r; [exact HL1 | lra]. }
  assert (H1 : 0 <= Cmiss * Ptar) by (apply Qmult_le_0_compat; assumption).
  assert (H2 : 0 <= Cfa * (1 - Ptar)) by (apply Qmult_le_0_compat; lra).
  assert (H3 : 0 <= Cmiss * Ptar * misses <= Cmiss * Ptar * L).
  { split; [apply Qmult_le_0_compat; lra|].
    apply Qmult_le_nonneg_l; lra. }
  assert (H4 : 0 <= Cfa * (1 - Ptar) * (fas / (L - 1)) <= Cfa * (1 - Ptar) * L).
  { split; [apply Qmult_le_0_compat; lra|].
    apply Qmult_le_nonneg_l; lra. }
  setoid_replace (Cfa * (1 - Ptar) * fas / (L - 1))
    with (Cfa * (1 - Ptar) * (fas / (L - 1))) by (field; lra).
  split.
  - apply Qle_shift_div_l; [exact HL0|]. lra.
  - apply Qle_shift_div_r; [exact HL0|]. lra.
Qed.
Lemma Qsum_range (b : Q) (l : list Q) :
  Forall (fun q => 0 <= q <= b) l ->
  0 <= Qsum l <= inject_Z (Z.of_nat (List.length l)) * b.
Proof.
  induction 1 as [|q l Hq Hl IH]; unfold Qsum in *.
  - cbn [fold_right List.length Z.of_nat]. change (inject_Z 0) with 0. lra.
  - cbn [fold_right List.length]. rewrite inject_succ. lra.
Qed.

(** X22. With [Cmiss > 0], [Cfa >= 0] and [0 <= Ptar < 1], one label per
    row and clusters of two or more distinct classes that are columns,
    [Cavg] returns, and every cost it returns is a percentage between 0
    and [100 * (Cmiss * Ptar + Cfa * (1 - Ptar))], the cost of a detector
    that is always wrong; so is their mean when there is a cluster. *)
Theorem Cavg_costs_are_bounded_percentages
        (y_llr : ndarray Q) (y_true : list Z) (clusters : list (list Z))
        (Ptar Cfa Cmiss : Q) (probability_input : bool) :
  List.length y_true = shape0 y_llr ->
  Forall (fun cluster => NoDup cluster /\ (2 <= List.length cluster)%nat /\
                         Forall (valid_class y_llr) cluster) clusters ->
  0 < Cmiss -> 0 <= Cfa -> 0 <= Ptar -> Ptar < 1 ->
  let bound := 100 * (Cmiss * Ptar + Cfa * (1 - Ptar)) in
  exists costs total,
    Cavg np_log y_llr y_true (Some clusters) Ptar Cfa Cmiss probability_input
    = Ok (map Fin costs, total) /\
    Forall (fun q => 0 <= q <= bound) costs /\
    (clusters <> [] -> exists m, total = Fin m /\ 0 <= m <= bound).
Proof.
  intros Hlen Hcl HCm HCf HP0 HP1 bound.
  set (y := if probability_input
            then map_ndarray (llr_of_probability np_log) y_llr
            else map_ndarray Fin y_llr).
  set (thresh := np_sub (np_log (Cfa / Cmiss)) (np_log (Ptar / (1 - Ptar)))).
  assert (Hlen' : List.length y_true = shape0 y)
    by (subst y; destruct probability_input; exact Hlen).
  assert (Hcl' : Forall (fun cluster => NoDup cluster /\
                                        (2 <= List.length cluster)%nat /\
                                        Forall (valid_class y) cluster) clusters).
  { eapply Forall_impl; [|exact Hcl]. intros cl (H1 & H2 & H3).
    split; [exact H1|]. split; [exact H2|].
    eapply Forall_impl; [|exact H3]. intros c Hc.
    subst y; destruct probability_input; exact Hc. }
  destruct (@cavg_clusters_value np_log y y_true thresh Ptar Cfa Cmiss Hlen'
              clusters [] Hcl')
    as (costs & Hloop & Hcosts).
  assert (Hrange : Forall (fun q => 0 <= q <= bound) costs).
  { clear Hloop. induction Hcosts as [|q cl costs cls Hq Hrest IH]; constructor.
    - inversion Hcl' as [|? ? (_ & HL & _) _]; subst.
      rewrite Hq. apply cluster_cost_spec_range; try assumption; lra.
    - apply IH; [now inversion Hcl | now inversion Hcl']. }
  exists costs, (np_mean (map Fin costs)).
  split; [|split; [exact Hrange|]].
  - unfold Cavg. fold y.
    rewrite (@cavg_thresh_value np_log Ptar Cfa Cmiss) by lra.
    cbn [rbind]. fold thresh. rewrite Hloop. reflexivity.
  - intros Hne.
    assert (Hc : costs <> []).
    { intros ->. inversion Hcosts; subst. congruence. }
    destruct (np_mean_finite Hc) as (m & Hm & Hmv).
    exists m. split; [exact Hm|].
    pose proof (Qsum_range Hrange) as [Hs0 Hs1].
    assert (Hn : 0 < inject_Z (Z.of_nat (List.length costs))).
    { apply count_nonzero. destruct costs; [congruence | cbn; lia]. }
    rewrite Hmv. split.
    + apply Qle_shift_div_l; [exact Hn | lra].
    + apply Qle_shift_div_r; [exact Hn | lra].
Qed.
End CavgRange.

(* ================================================================== *)
(** ** Methods that only read the estimator *)

Section ReadOnly.
Variable ext : Externals.
Implicit Types (self : PLDA ext) (X F : matrix).

Lemma read_only_mbind {A B : Type} (m : method ext A) (k : A -> method ext B) :
  read_only m -> (forall a, read_only (k a)) -> read_only (mbind m k).
Proof.
  intros Hm Hk self. unfold mbind. specialize (Hm self).
  destruct (m self) as [self1 [a|e]]; cbn in Hm; subst self1.
  - apply Hk.
  - reflexivity.
Qed.

Lemma read_only_mret {A : Type} (a : A) : read_only (@mret ext A a).
Proof. intros self. reflexivity. Qed.

Lemma read_only_mraise {A : Type} e : read_only (@mraise ext A e).
Proof. intros self. reflexivity. Qed.

Lemma read_only_attr {A : Type} (f : PLDA ext -> A) : read_only (attr f).
Proof. intros self. reflexivity. Qed.

Lemma read_only_call {A : Type} (r : result A) : read_only (@call ext A r).
Proof. intros self. reflexivity. Qed.

Lemma read_only_array_attr e f : read_only (@array_attr ext e f).
Proof. intros self. unfold array_attr. now destruct (f self). Qed.

Lemma read_only_num_classes : read_only (@num_classes ext).
Proof. intros self. unfold num_classes. now destruct (_labels self). Qed.

Ltac read_only_step :=
  match goal with
  | |- read_only (mbind _ _) => apply read_only_mbind; [|intros ?]
  | |- read_only (mret _) => apply read_only_mret
  | |- read_only (mraise _) => apply read_only_mraise
  | |- read_only (attr _) => apply read_only_attr
  | |- read_only (call _) => apply read_only_call
  | |- read_only (array_attr _ _) => apply read_only_array_attr
  | |- read_only (@num_classes _) => apply read_only_num_classes
  | |- read_only (if ?b then _ else _) => destruct b
  | |- read_only (match ?x with _ => _ end) => destruct x
  end.

Lemma read_only_transform X : read_only (@transform ext X).
Proof. unfold transform. repeat read_only_step. Qed.

Lemma read_only_predict_log_proba X X_model :
  read_only (@predict_log_proba ext X X_model).
Proof. unfold predict_log_proba. repeat read_only_step. Qed.

Lemma read_only_compute_llk X : read_only (@compute_llk ext X).
Proof. unfold compute_llk. repeat read_only_step. Qed.

Lemma read_only_expectation_plda F cls_counts :
  read_only (@expectation_plda ext F cls_counts).
Proof. unfold expectation_plda. repeat read_only_step. Qed.

(** X17. [transform], [predict_log_proba], [compute_llk] and
    [expectation_plda] assign no attribute: whatever they return or raise,
    the estimator is as it was. *)
Theorem scoring_and_expectation_assign_nothing self X (X_model : option matrix)
        F (cls_counts : list Z) :
  fst (transform X self) = self /\
  fst (predict_log_proba X X_model self) = self /\
  fst (compute_llk X self) = self /\
  fst (expectation_plda F cls_counts self) = self.
Proof.
  split; [apply read_only_transform|].
  split; [apply read_only_predict_log_proba|].
  split; [apply read_only_compute_llk | apply read_only_expectation_plda].
Qed.
End ReadOnly.

(* ================================================================== *)
(** ** Pickling round trip, and initialising twice *)

Section Pickling.
Variable ext : Externals.
Implicit Types (self other : PLDA ext) (X F : matrix).

(** X18. What [__getstate__] returns restores the estimator: after
    [__setstate__] into any object, all sixteen pickled attributes are
    those of the original, and [transform] and [predict_log_proba] give
    what they give on the original. ([_num_classes] is not pickled.) *)
Theorem getstate_setstate_round_trip self other (states : pickled ext) :
  __getstate__ self = Ok states ->
  let back := restored other states in
  num_phi back = num_phi self /\ num_iter back = num_iter self /\
  _feat_dim back = _feat_dim self /\ _labels back = _labels self /\
  verbose_ back = verbose_ self /\ _normalizer back = _normalizer self /\
  _dtype back = _dtype self /\ _rand_state back = _rand_state self /\
  Sigma_ back = Sigma_ self /\ Phi_ back = Phi_ self /\
  Sb_ back = Sb_ self /\ St_ back = St_ self /\
  Lambda_ back = Lambda_ self /\ Uk_ back = Uk_ self /\
  Q_hat_ back = Q_hat_ self /\ X_model_ back = X_model_ self /\
  _num_classes back = _num_classes other /\
  (forall X, snd (transform X back) = snd (transform X self)) /\
  (forall X X_model,
      snd (predict_log_proba X X_model back)
      = snd (predict_log_proba X X_model self)).
Proof.
  intros H back. subst back.
  unfold __getstate__ in H.
  destruct self as [phi it fd ls vb nz dt rs Sg Ph Sb St [L|] [U|] [Qh|] [Xm|] nc];
    cbn in H; try discriminate.
  injection H as <-.
  unfold restored, __setstate__. cbn [fst p_num_phi p_num_iter p_feat_dim p_labels
    p_verbose p_normalizer p_dtype p_rand_state p_Sigma p_Phi p_Sb p_St p_Lambda
    p_Uk p_Q_hat p_X_model].
  repeat (split; [reflexivity|]).
  split.
  - intros X. unfold transform, mbind, attr, call, array_attr, mraise, is_fitted.
    cbn. destruct (normalizer_transform ext nz X) as [Xn|e]; cbn; [|reflexivity].
    reflexivity.
  - intros X X_model.
    unfold predict_log_proba, mbind, attr, call, array_attr, mraise, mret,
      is_fitted, num_classes.
    cbn.
    repeat match goal with
           | |- context [match ?x with _ => _ end] =>
               lazymatch x with
               | context [match _ with _ => _ end] => fail
               | _ => destruct x; cbn
               end
           end; reflexivity.
Qed.
End Pickling.

Section InitialiseOnce.
Variable ext : Externals.
Implicit Types (self : PLDA ext) (X F : matrix).

Ltac run_method :=
  unfold mbind, mret, mraise, attr, assign, call, array_attr; cbn.

(** Whatever becomes of it, [initialize] leaves the feature dimension
    set, and it does not create [_num_classes]. *)
Lemma initialize_sets_feat_dim self X labels :
  _num_classes self = None ->
  (exists d, _feat_dim (fst (initialize X labels self)) = Some d) /\
  _num_classes (fst (initialize X labels self)) = None.
Proof.
  intros Hnc.
  unfold initialize, needs_initialising, draw, num_classes. run_method.
  destruct (_feat_dim self) as [d|] eqn:Hfd; cbn.
  { rewrite Hnc. cbn. rewrite Hfd. eauto. }
  repeat match goal with
         | |- context [match ?x with _ => _ end] =>
             lazymatch x with
             | context [match _ with _ => _ end] => fail
             | _ => destruct x eqn:?; cbn
             end
         end; eauto.

Qed.

Lemma initialize_without_num_classes self X labels d :
  _feat_dim self = Some d -> _num_classes self = None ->
  initialize X labels self = (self, Raise AttributeError).
Proof.
  intros Hfd Hnc. unfold initialize, needs_initialising. run_method.
  now rewrite Hfd, Hnc.
Qed.

(** X19. [initialize] reads [self._num_classes] once the feature
    dimension is set, and [plda.py] assigns that attribute nowhere. Where
    no base class provides it, an estimator is initialised at most once:
    after a first [initialize], however it ended, every [initialize] raises
    [AttributeError] and changes nothing, and no [fit] returns. *)
Theorem initialize_happens_once self X labels :
  _num_classes self = None ->
  let self1 := fst (initialize X labels self) in
  (forall X' labels',
      initialize X' labels' self1 = (self1, Raise AttributeError)) /\
  (forall X' y', snd (fit X' y' self1) <> Ok tt).
Proof.
  intros Hnc self1.
  destruct (initialize_sets_feat_dim self X labels Hnc) as [[d Hfd] Hnc1].
  fold self1 in Hfd, Hnc1.
  split.
  - intros X' labels'. now apply initialize_without_num_classes with (d := d).
  - intros X' y' Hfit.
    destruct (fit X' y' self1) as [self2 r] eqn:E. cbn in Hfit. subst r.
    unfold fit in E.
    apply mbind_inv in E. destruct E as (s1 & [] & E1 & E).
    assert (s1 = self1) as ->.
    { unfold mret, mraise in E1. destruct (_ =? _)%nat; [now injection E1 | discriminate]. }
    apply mbind_inv in E. destruct E as (s2 & counts & E2 & E).
    assert (s2 = self1) as -> by (unfold call in E2; now injection E2).
    apply mbind_inv in E. destruct E as (s3 & nz & E3 & E).
    assert (s3 = self1) as -> by (unfold attr in E3; now injection E3).
    apply mbind_inv in E. destruct E as (s4 & nz' & E4 & E).
    assert (s4 = self1) as -> by (unfold call in E4; now injection E4).
    apply mbind_inv in E. destruct E as (s5 & [] & E5 & E).
    assert (s5 = set_normalizer nz' self1) as ->
      by (unfold assign in E5; now injection E5).
    apply mbind_inv in E. destruct E as (s6 & Xn & E6 & E).
    assert (s6 = set_normalizer nz' self1) as ->
      by (unfold call in E6; now injection E6).
    apply mbind_inv in E. destruct E as (s7 & [] & E7 & _).
    rewrite (@initialize_without_num_classes _ Xn (np_unique y') d) in E7;
      [discriminate | exact Hfd | exact Hnc1].
Qed.
End InitialiseOnce.

(* ================================================================== *)
(** ** What [initialize] and [fit] leave behind *)

Section InitializeOutcome.
Variable ext : Externals.
Implicit Types (self : PLDA ext) (X F : matrix) (y : list Z).

Ltac run_in H :=
  unfold mbind, mret, mraise, attr, assign, call, array_attr in H; cbn in H;
  repeat match type of H with
         | context [match ?x with _ => _ end] =>
             lazymatch x with
             | context [match _ with _ => _ end] => fail
             | _ => destruct x eqn:?; cbn in H; try discriminate H
             end
         end.

(** X20. A first [initialize] that returns has found
    [0 <= num_phi < feat_dim] and as many labels as classes. It has set the
    feature dimension, kept the labels of the constructor if there were
    any, drawn [Sigma_ = I / feat_dim + randn(feat_dim, feat_dim)] and
    [Phi_], the transposed normalised [randn(num_phi, feat_dim)], from the
    generator in this order, and set [Sb_] and [St_] to zero. The
    estimator is not fitted by it. *)
Theorem initialize_allocates_the_model self X labels self' :
  _feat_dim self = None ->
  initialize X labels self = (self', Ok tt) ->
  let d := shape1 X in
  (0 <= num_phi self < Z.of_nat d)%Z /\
  _feat_dim self' = Some (Z.of_nat d) /\
  _labels self' = Some (match _labels self with Some l => l | None => labels end) /\
  List.length (match _labels self with Some l => l | None => labels end)
  = List.length labels /\
  (exists noise rs R rs' Rn,
      randn ext (_rand_state self) d d = (noise, rs) /\
      shape0 noise = d /\ shape1 noise = d /\
      Sigma_ self'
      = Some (zip_matrix Qplus (mat_scale (1 / inject_Z (Z.of_nat d)) (np_eye d))
                         noise) /\
      randn ext rs (Z.to_nat (num_phi self)) d = (R, rs') /\
      normalizer_transform ext (_normalizer self) R = Ok Rn /\
      Phi_ self' = Some (mat_T Rn) /\
      _rand_state self' = rs') /\
  Sb_ self' = Some (np_zeros d d) /\
  St_ self' = Some (np_zeros d d) /\
  is_fitted self' = is_fitted self.
Proof.
  intros Hfd H d.
  unfold initialize, needs_initialising, draw, num_classes, dim in H.
  unfold mbind, mret, mraise, attr, assign, call, array_attr in H; cbn in H.
  rewrite Hfd in H. cbn in H.
  run_in H; injection H as <-; cbn.
  all: subst d; rewrite !Nat2Z.id in *.
  all: match goal with
       | E : mat_add _ _ = Ok _ |- _ =>
           unfold mat_add, elementwise in E; cbn [shape0 shape1 mat_scale np_eye] in E;
           destruct (negb _) eqn:Hshape in E; [discriminate E|];
           injection E as <-;
           apply negb_false_iff, andb_prop in Hshape; destruct Hshape as [Hs0 Hs1];
           apply Nat.eqb_eq in Hs0, Hs1
       end.
  all: repeat match goal with
              | E : (_ <=? _)%Z = false |- _ => apply Z.leb_gt in E
              | E : (_ <? _)%Z = false |- _ => apply Z.ltb_ge in E
              | E : (_ =? _)%nat = true |- _ => apply Nat.eqb_eq in E
              end.
  all: split; [lia|].
  all: split; [reflexivity|].
  all: split; [congruence|].
  all: split; [congruence|].
  all: split; [|split; [reflexivity|split; reflexivity]].
  all: do 5 eexists.
  all: split; [eassumption|].
  all: split; [symmetry; assumption|].
  all: split; [symmetry; assumption|].
  all: split; [reflexivity|].
  all: split; [eassumption|].
  all: split; [eassumption|].
  all: split; reflexivity.
Qed.
End InitializeOutcome.

Section FitOutcome.
Variable ext : Externals.
Implicit Types (self : PLDA ext) (X F : matrix) (y : list Z).

Ltac run_in H :=
  unfold mbind, mret, mraise, attr, assign, call, array_attr in H; cbn in H;
  repeat match type of H with
         | context [match ?x with _ => _ end] =>
             lazymatch x with
             | context [match _ with _ => _ end] => fail
             | _ => destruct x eqn:?; cbn in H; try discriminate H
             end
         end.

Lemma read_only_ok {A : Type} (m : method ext A) self self' (r : result A) :
  m self = (self', r) -> read_only m -> self' = self.
Proof. intros H Hm. specialize (Hm self). rewrite H in Hm. exact Hm. Qed.

Lemma initialize_ok_keeps self X labels self' :
  initialize X labels self = (self', Ok tt) ->
  num_phi self' = num_phi self /\
  _normalizer self' = _normalizer self /\
  _labels self' = Some (match _labels self with Some l => l | None => labels end).
Proof.
  intros H. unfold initialize, needs_initialising, draw, num_classes in H.
  run_in H; injection H as <-; cbn; repeat split; congruence.
Qed.

Lemma update_caches_ok self self' :
  _update_caches self = (self', Ok tt) ->
  exists L Uk Qh,
    self' = set_Q_hat (Some Qh) (set_Uk (Some Uk) (set_Lambda (Some L) self)).
Proof.
  intros H. unfold _update_caches in H. run_in H. injection H as <-. eauto.
Qed.

Lemma maximization_ok self self' X X_sqr F Ey Eyy :
  maximization_plda X X_sqr F Ey Eyy self = (self', Ok tt) ->
  exists P S, self' = set_Sigma (Some S) (set_Phi (Some P) self).
Proof.
  intros H. unfold maximization_plda in H. run_in H. injection H as <-. eauto.
Qed.

Lemma em_iteration_ok self self' X X_sqr F y_counts u k :
  em_iteration X X_sqr F y_counts u k self = (self', Ok tt) ->
  exists P S, self' = set_Sigma S (set_Phi P self).
Proof.
  intros H. unfold em_iteration in H.
  apply mbind_inv in H. destruct H as (s1 & [Ey Eyy] & H1 & H).
  apply read_only_ok in H1; [|apply read_only_expectation_plda]. subst s1.
  apply mbind_inv in H. destruct H as (s2 & [] & H2 & H).
  apply maximization_ok in H2. destruct H2 as (P & S & ->).
  apply mbind_inv in H. destruct H as (s3 & v & H3 & H).
  unfold attr in H3. injection H3 as <- _.
  destruct (1 <? _)%Z.
  - apply mbind_inv in H. destruct H as (s4 & llk & H4 & H).
    apply read_only_ok in H4; [|apply read_only_compute_llk]. subst s4.
    unfold mret in H. injection H as <-. eauto.
  - unfold mret in H. injection H as <-. eauto.
Qed.

Lemma set_model_twice self (P P' S S' : option matrix) :
  set_Sigma S' (set_Phi P' (set_Sigma S (set_Phi P self)))
  = set_Sigma S' (set_Phi P' self).
Proof. reflexivity. Qed.

Lemma em_loop_ok X X_sqr F y_counts (ks : list nat) : forall self self',
  mfor (em_iteration X X_sqr F y_counts) ks tt self = (self', Ok tt) ->
  exists P S, self' = set_Sigma S (set_Phi P self).
Proof.
  induction ks as [|k ks IH]; intros self self' H.
  - cbn in H. unfold mret in H. injection H as <-.
    exists (Phi_ self), (Sigma_ self). now destruct self.
  - cbn [mfor] in H. apply mbind_inv in H. destruct H as (s1 & [] & H1 & H).
    apply em_iteration_ok in H1. destruct H1 as (P & S & ->).
    apply IH in H. destruct H as (P' & S' & ->).
    exists P', S'. apply set_model_twice.
Qed.

(** X21. A [fit] that returns leaves the estimator fitted and allocated,
    so that [__getstate__] succeeds. It has as many labels as samples,
    [num_phi] as before, the normaliser fitted on the data, the feature
    dimension of the normalised data, and for labels those of the
    constructor, or else the distinct values of [y]. *)
Theorem fit_leaves_estimator_fitted self X y self' :
  fit X y self = (self', Ok tt) ->
  is_fitted self' = true /\ allocated self' = true /\
  shape0 X = List.length y /\
  num_phi self' = num_phi self /\
  (exists nz Xn,
      normalizer_fit ext (_normalizer self) X y = Ok nz /\
      normalizer_transform ext nz X = Ok Xn /\
      _normalizer self' = nz /\
      _feat_dim self' = Some (Z.of_nat (shape1 Xn))) /\
  _labels self'
  = Some (match _labels self with Some l => l | None => np_unique y end) /\
  (exists states, __getstate__ self' = Ok states).
Proof.
  intros H. unfold fit in H.
  apply mbind_inv in H. destruct H as (s & [] & H1 & H).
  assert (Hlen : shape0 X = List.length y /\ s = self).
  { unfold mret, mraise in H1. destruct (shape0 X =? _)%nat eqn:E; [|discriminate].
    apply Nat.eqb_eq in E. split; [exact E | now injection H1]. }
  destruct Hlen as [Hlen ->]. clear H1.
  apply mbind_inv in H. destruct H as (s & counts & H1 & H).
  unfold call in H1. injection H1 as <- Hcounts.
  apply mbind_inv in H. destruct H as (s & nz0 & H1 & H).
  unfold attr in H1. injection H1 as <- <-.
  apply mbind_inv in H. destruct H as (s & nz & H1 & H).
  unfold call in H1. injection H1 as <- Hfit.
  apply mbind_inv in H. destruct H as (s & [] & H1 & H).
  unfold assign in H1. injection H1 as <-.
  apply mbind_inv in H. destruct H as (s & Xn & H1 & H).
  unfold call in H1. injection H1 as <- Htr.
  apply mbind_inv in H. destruct H as (si & [] & Hinit & H).
  destruct (initialize_ok_locks _ _ _ Hinit) as (Hfd & ls & Hls & Hlslen).
  destruct (initialize_ok_keeps _ _ _ Hinit) as (Hphi & Hnz & Hlabels).
  cbn in Hphi, Hnz, Hlabels.
  apply mbind_inv in H. destruct H as (s & k & H1 & H).
  apply read_only_ok in H1; [|apply read_only_num_classes]. subst s.
  apply mbind_inv in H. destruct H as (s & fd & H1 & H).
  unfold attr in H1. injection H1 as <- _.
  apply mbind_inv in H. destruct H as (s & d & H1 & H).
  assert (s = si) as ->.
  { destruct fd; [unfold call in H1; now injection H1 | discriminate]. }
  clear H1.
  apply mbind_inv in H. destruct H as (s & F & H1 & H).
  unfold call in H1. injection H1 as <- _.
  apply mbind_inv in H. destruct H as (s & X_sqr & H1 & H).
  unfold call in H1. injection H1 as <- _.
  apply mbind_inv in H. destruct H as (s & n & H1 & H).
  unfold attr in H1. injection H1 as <- _.
  apply mbind_inv in H. destruct H as (sm & [] & Hloop & H).
  apply em_loop_ok in Hloop. destruct Hloop as (P & S & ->).
  apply mbind_inv in H. destruct H as (s & Phi & H1 & H).
  unfold array_attr in H1. cbn in H1. destruct P as [P|]; [|discriminate].
  injection H1 as <- <-.
  apply mbind_inv in H. destruct H as (s & Sb & H1 & H).
  unfold call in H1. injection H1 as <- _.
  apply mbind_inv in H. destruct H as (s & [] & H1 & H).
  unfold assign in H1. injection H1 as <-.
  apply mbind_inv in H. destruct H as (s & Sigma & H1 & H).
  unfold array_attr in H1. cbn in H1. destruct S as [S|]; [|discriminate].
  injection H1 as <- <-.
  apply mbind_inv in H. destruct H as (s & St & H1 & H).
  unfold call in H1. injection H1 as <- _.
  apply mbind_inv in H. destruct H as (s & [] & H1 & H).
  unfold assign in H1. injection H1 as <-.
  apply mbind_inv in H. destruct H as (su & [] & Hup & H).
  apply update_caches_ok in Hup. destruct Hup as (L & Uk & Qh & ->).
  apply mbind_inv in H. destruct H as (s & model_vecs & H1 & H).
  unfold call in H1. injection H1 as <- _.
  apply mbind_inv in H. destruct H as (s & Uk' & H1 & H).
  unfold array_attr in H1. cbn in H1. injection H1 as <- _.
  apply mbind_inv in H. destruct H as (s & Xm & H1 & H).
  unfold call in H1. injection H1 as <- _.
  unfold assign in H. injection H as <-.
  split; [reflexivity|]. split; [reflexivity|]. split; [exact Hlen|].
  split; [exact Hphi|]. split.
  - exists nz, Xn. repeat split; assumption.
  - split; [exact Hlabels|]. eexists. reflexivity.
Qed.
End FitOutcome.

Section ExpectationShapes.
Variable ext : Externals.
Implicit Types (self : PLDA ext) (X F : matrix) (y : list Z).

Lemma elementwise_shape f (a b c : matrix) :
  elementwise f a b = Ok c -> same_shape c a.
Proof.
  unfold elementwise. destruct (negb _); [discriminate|].
  intros H. injection H as <-. split; reflexivity.
Qed.

Lemma set_row_shape (m m' : matrix) i v :
  set_row m i v = Ok m' -> same_shape m' m.
Proof.
  unfold set_row. destruct (norm_index i (shape0 m)); [|discriminate].
  destruct (negb _); [discriminate|].
  intros H. injection H as <-. split; reflexivity.
Qed.

Lemma expectation_class_shape F cls_counts uniqFreqs invTerms PhiT_invS
      (Ey Eyy Ey' Eyy' : matrix) clz :
  expectation_class F cls_counts uniqFreqs invTerms PhiT_invS (Ey, Eyy) clz
  = Ok (Ey', Eyy') ->
  same_shape Ey' Ey /\ same_shape Eyy' Eyy.
Proof.
  unfold expectation_class.
  destruct (item cls_counts clz) as [n|]; cbn [rbind]; [|discriminate].
  destruct (get_row F _) as [Fc|]; cbn [rbind]; [|discriminate].
  destruct (np_dot_vec PhiT_invS Fc) as [v|]; cbn [rbind]; [|discriminate].
  destruct (first_index n uniqFreqs) as [idx|]; cbn [rbind]; [|discriminate].
  destruct (item invTerms idx) as [Cyy|]; cbn [rbind]; [|discriminate].
  destruct (np_dot_vec Cyy v) as [row|]; cbn [rbind]; [|discriminate].
  destruct (set_row Ey _ row) as [Ey1|] eqn:E1; cbn [rbind]; [|discriminate].
  destruct (mat_add Eyy _) as [Eyy1|] eqn:E2; cbn [rbind]; [|discriminate].
  intros H. injection H as <- <-.
  split; [now apply set_row_shape in E1 | now apply elementwise_shape in E2].
Qed.

Lemma expectation_loop_shape F cls_counts uniqFreqs invTerms PhiT_invS
      (ks : list nat) : forall (Ey Eyy Ey' Eyy' : matrix),
  for_each (expectation_class F cls_counts uniqFreqs invTerms PhiT_invS)
           ks (Ey, Eyy) = Ok (Ey', Eyy') ->
  same_shape Ey' Ey /\ same_shape Eyy' Eyy.
Proof.
  induction ks as [|k ks IH]; intros Ey Eyy Ey' Eyy' H.
  - cbn in H. injection H as <- <-. repeat split.
  - cbn [for_each] in H.
    destruct (expectation_class _ _ _ _ _ _ k) as [[Ey1 Eyy1]|] eqn:E;
      cbn [rbind] in H; [|discriminate].
    apply expectation_class_shape in E. apply IH in H.
    unfold same_shape in *. intuition congruence.
Qed.

(** X23. The arrays [expectation_plda] returns have the shapes its caller
    documents: [Ey] is [num_classes x num_phi] and [Eyy] is
    [num_phi x num_phi], with [num_classes] the rows of [F]. Hence
    [np.dot(Ey.T, F)] of [maximization_plda] cannot fail on them, and
    gives [solve] a right-hand side with as many rows as [Eyy.T]. *)
Theorem expectation_plda_shapes_fit_the_maximization self F cls_counts self'
        (Ey Eyy : matrix) :
  expectation_plda F cls_counts self = (self', Ok (Ey, Eyy)) ->
  let p := Z.to_nat (num_phi self) in
  (0 <= num_phi self)%Z /\
  shape0 Ey = shape0 F /\ shape1 Ey = p /\
  shape0 Eyy = p /\ shape1 Eyy = p /\
  np_dot (mat_T Ey) F = Ok (matmul (mat_T Ey) F) /\
  shape0 (matmul (mat_T Ey) F) = shape1 (mat_T Eyy) /\
  shape1 (matmul (mat_T Ey) F) = shape1 F.
Proof.
  intros H p. unfold expectation_plda in H.
  apply mbind_inv in H. destruct H as (s & phi & H1 & H).
  unfold attr in H1. injection H1 as <- <-.
  apply mbind_inv in H. destruct H as (s & p' & H1 & H).
  unfold call, dim in H1.
  destruct (num_phi self <? 0)%Z eqn:Hphi; [discriminate|].
  injection H1 as <- <-. apply Z.ltb_ge in Hphi. fold p in H.
  apply mbind_inv in H. destruct H as (s & Sigma & H1 & H).
  apply read_only_ok in H1; [|apply read_only_array_attr]. subst s.
  apply mbind_inv in H. destruct H as (s & Phi & H1 & H).
  apply read_only_ok in H1; [|apply read_only_array_attr]. subst s.
  apply mbind_inv in H. destruct H as (s & t & H1 & H).
  unfold call in H1. injection H1 as <- _.
  apply mbind_inv in H. destruct H as (s & PP & H1 & H).
  unfold call in H1. injection H1 as <- _.
  apply mbind_inv in H. destruct H as (s & invTerms & H1 & H).
  unfold call in H1. injection H1 as <- _.
  apply mbind_inv in H. destruct H as (s & [Ey1 Eyy1] & H1 & H).
  unfold call in H1. injection H1 as <- Hloop.
  apply expectation_loop_shape in Hloop. destruct Hloop as [[He0 He1] [Hy0 Hy1]].
  cbn [np_zeros shape0 shape1] in He0, He1, Hy0, Hy1.
  apply mbind_inv in H. destruct H as (s & weighted & H1 & H).
  unfold call in H1. injection H1 as <- _.
  apply mbind_inv in H. destruct H as (s & outer & H1 & H).
  unfold call in H1. injection H1 as <- _.
  apply mbind_inv in H. destruct H as (s & Eyy2 & H1 & H).
  unfold call in H1. injection H1 as <- Hadd.
  apply elementwise_shape in Hadd. destruct Hadd as [Ha0 Ha1].
  unfold mret in H. injection H as _ <- <-.
  split; [exact Hphi|]. split; [exact He0|]. split; [exact He1|].
  split; [congruence|]. split; [congruence|].
  split.
  - unfold np_dot. cbn [mat_T shape0 shape1]. now rewrite He0, Nat.eqb_refl.
  - cbn [matmul mat_T shape0 shape1]. split; congruence.
Qed.
End ExpectationShapes.

(* ================================================================== *)
(** ** The properties at concrete inputs *)

(** The new estimator of the examples is not fitted. *)
Lemma unfitted_calls_raise_example :
  transform example_X example_plda = (example_plda, Raise RuntimeError) /\
  predict_log_proba example_X None example_plda = (example_plda, Raise RuntimeError) /\
  __getstate__ example_plda = Raise RuntimeError.
Proof.
  apply (@unfitted_calls_raise Reference.externals example_plda example_X None).
  left. reflexivity.
Defined.

(** C2 does not hold as stated: the inconsistent bundle is accepted. *)
Lemma setstate_accepts_inconsistent_bundle :
  bundle_consistent example_plda inconsistent_bundle = false /\
  snd (__setstate__ example_plda inconsistent_bundle) = Ok tt /\
  num_phi (restored example_plda inconsistent_bundle) = 7%Z /\
  _feat_dim (restored example_plda inconsistent_bundle) = Some 3%Z /\
  Phi_ (restored example_plda inconsistent_bundle) = Some (matrix_of_rows [[1]]).
Proof. repeat split. Qed.

(** Two features against two latent dimensions. *)
Lemma initialize_rejects_example :
  let X := matrix_of_rows [[1; 2]; [3; 4]] in
  snd (initialize X [0; 1]%Z example_plda) = Raise RuntimeError /\
  allocated (fst (initialize X [0; 1]%Z example_plda)) = false /\
  is_fitted (fst (initialize X [0; 1]%Z example_plda)) = is_fitted example_plda /\
  (forall X' labels',
      (Z.of_nat (shape1 X') <= num_phi example_plda)%Z ->
      allocated (fst (initialize X' labels' (fst (initialize X [0; 1]%Z example_plda))))
      = false) /\
  (forall X', shape1 X' = shape1 X ->
              initialize X' [0; 1]%Z example_plda = initialize X [0; 1]%Z example_plda).
Proof.
  apply (@initialize_rejects_num_phi_ge_feat_dim Reference.externals example_plda
           (matrix_of_rows [[1; 2]; [3; 4]]) [0; 1]%Z).
  - reflexivity.
  - reflexivity.
  - cbn. lia.
Defined.

(** Two classes in one cluster, the default costs. *)
Lemma Cavg_two_classes_example :
  let y_llr := mk_ndarray 2 2 [[1; -1]; [-2 # 1; 2]] in
  let y := Metrics.map_ndarray Fin y_llr in
  let thresh := np_sub (Reference.np_log (1 / 1))
                       (Reference.np_log ((1 # 2) / (1 - (1 # 2)))) in
  exists costs total,
    Metrics.Cavg Reference.np_log y_llr [0; 1]%Z (Some [[0; 1]%Z]) (1 # 2) 1 1 false
    = Ok (map Fin costs, total) /\
    Forall2 (fun q cluster =>
               q == cluster_cost_spec (1 # 2) 1 1 thresh y [0; 1]%Z cluster)
            costs [[0; 1]%Z] /\
    total = np_mean (map Fin costs) /\
    ([[0; 1]%Z] <> [] ->
     exists m, total = Fin m /\
               m == Qsum costs / inject_Z (Z.of_nat (List.length [[0; 1]%Z]))).
Proof.
  apply (@Cavg_numpy_computes_cluster_costs Reference.np_log
           (mk_ndarray 2 2 [[1; -1]; [-2 # 1; 2]]) [0; 1]%Z [[0; 1]%Z]
           (1 # 2) 1 1 false).
  - reflexivity.
  - constructor; [|constructor].
    split; [|split].
    + constructor; [intros [H|[]]; discriminate H|].
      constructor; [intros []|constructor].
    + cbn. lia.
    + constructor; [unfold valid_class; cbn; lia|].
      constructor; [unfold valid_class; cbn; lia|constructor].
  - intros H. discriminate H.
  - intros H. discriminate H.
Defined.

(** One column: the default cluster has a single class. *)
Lemma Cavg_one_column_example :
  let y_llr := mk_ndarray 2 1 [[1]; [2]] in
  Metrics.Cavg Reference.np_log y_llr [0; 0]%Z None (1 # 2) 1 1 false
  = Raise ZeroDivisionError /\
  (forall thresh,
      Metrics.cavg_cluster (Metrics.map_ndarray Fin y_llr) [0; 0]%Z thresh
                           (1 # 2) 1 1 [0%Z]
      = Raise ZeroDivisionError).
Proof.
  apply (@Cavg_singleton_cluster_raises Reference.np_log
           (mk_ndarray 2 1 [[1]; [2]]) [0; 0]%Z None (1 # 2) 1 1 false 0%Z).
  - reflexivity.
  - constructor; [|constructor].
    constructor; [unfold valid_class; cbn; lia|constructor].
  - left. reflexivity.
Defined.

(** "kitten" and "sitting", either way round. *)
Lemma LevenshteinDistance_symmetric_example :
  Metrics.LevenshteinDistance Ascii.eqb (list_ascii_of_string "kitten")
                              (list_ascii_of_string "sitting")
  = Metrics.LevenshteinDistance Ascii.eqb (list_ascii_of_string "sitting")
                                (list_ascii_of_string "kitten").
Proof.
  apply (@LevenshteinDistance_symmetric ascii Ascii.eqb Ascii.eqb_eq).
Defined.

Lemma LevenshteinDistance_zero_iff_equal_example :
  Metrics.LevenshteinDistance Ascii.eqb (list_ascii_of_string "kitten")
                              (list_ascii_of_string "sitting") = 0%nat
  <-> list_ascii_of_string "kitten" = list_ascii_of_string "sitting".
Proof.
  apply (@LevenshteinDistance_zero_iff_equal ascii Ascii.eqb Ascii.eqb_eq).
Defined.

(** From "kitten" to "sitting" through "sitten". *)
Lemma LevenshteinDistance_triangle_example :
  (Metrics.LevenshteinDistance Ascii.eqb (list_ascii_of_string "kitten")
                               (list_ascii_of_string "sitting")
   <= Metrics.LevenshteinDistance Ascii.eqb (list_ascii_of_string "kitten")
                                  (list_ascii_of_string "sitten")
      + Metrics.LevenshteinDistance Ascii.eqb (list_ascii_of_string "sitten")
                                    (list_ascii_of_string "sitting"))%nat.
Proof.
  apply (@LevenshteinDistance_triangle ascii Ascii.eqb Ascii.eqb_eq).
Defined.

Lemma LevenshteinDistance_bounds_example :
  let s1 := list_ascii_of_string "kitten" in
  let s2 := list_ascii_of_string "sitting" in
  (Nat.max (List.length s1) (List.length s2) - Nat.min (List.length s1) (List.length s2)
   <= Metrics.LevenshteinDistance Ascii.eqb s1 s2
   <= Nat.max (List.length s1) (List.length s2))%nat.
Proof.
  apply (@LevenshteinDistance_bounds ascii Ascii.eqb Ascii.eqb_eq).
Defined.

(** A prediction that is its reference. *)
Lemma LER_zero_iff_every_pair_equal_example :
  let y := [["a"; "b"; "c"]%string] in
  exists q,
    Metrics.LER String.eqb (Metrics.Sequences y) (Metrics.Sequences y) = Ok (Fin q) /\
    0 <= q /\
    (q == 0 <-> Forall (fun p => fst p = snd p) (combine y y)).
Proof.
  apply (@LER_zero_iff_every_pair_equal string String.eqb String.eqb_eq
           [["a"; "b"; "c"]%string] [["a"; "b"; "c"]%string]).
  - discriminate.
  - discriminate.
  - repeat constructor. discriminate.
Defined.



(** The labels and scores of the docstring of [det_curve]. *)
Lemma det_curve_splits_scores_by_label_example :
  Metrics.det_curve (Some [0; 0; 1; 1]%Z) (Some [1 # 10; 4 # 10; 35 # 100; 8 # 10])
                    None None None
  = Metrics.det_curve None None None
      (Some (select (map (Z.eqb 1) [0; 0; 1; 1]%Z) [1 # 10; 4 # 10; 35 # 100; 8 # 10]))
      (Some (select (map (fun l => negb (Z.eqb 1 l)) [0; 0; 1; 1]%Z)
                    [1 # 10; 4 # 10; 35 # 100; 8 # 10])).
Proof.
  apply (@det_curve_splits_scores_by_label [0; 0; 1; 1]%Z
           [1 # 10; 4 # 10; 35 # 100; 8 # 10] None).
  reflexivity.
Defined.

(** The default costs and an even prior. *)
Lemma minDCF_of_det_curve_at_most_all_missed_example :
  exists Pmiss Pfa threshold d pm pf,
    Metrics.det_curve None None None (Some [35 # 100; 8 # 10]) (Some [1 # 10; 4 # 10])
    = Ok (Pmiss, Pfa, threshold) /\
    Metrics.compute_minDCF Pmiss Pfa 1 1 (1 # 2) = Ok (Fin d, Fin pm, Fin pf) /\
    d = detection_cost 1 1 (1 # 2) pm pf /\
    0 <= d /\ d <= 1 * (1 # 2).
Proof.
  apply (@minDCF_of_det_curve_at_most_all_missed
           [35 # 100; 8 # 10] [1 # 10; 4 # 10] 1 1 (1 # 2));
    try discriminate; unfold Qle; cbn; lia.
Defined.

(** Two classes in one cluster. *)
Lemma Cavg_returns_iff_costs_and_clusters_allow_example :
  let y_llr := mk_ndarray 2 2 [[1; -1]; [-2 # 1; 2]] in
  let clusters := effective_clusters y_llr (Some [[0; 1]%Z]) in
  let outcome := Metrics.Cavg Reference.np_log y_llr [0; 1]%Z (Some [[0; 1]%Z])
                              (1 # 2) 1 1 false in
  ((exists costs total,
       outcome = Ok (costs, total) /\ List.length costs = List.length clusters)
   \/ outcome = Raise ZeroDivisionError) /\
  ((exists r, outcome = Ok r) <->
   ~ 1 == 0 /\ ~ (1 # 2) == 1 /\
   Forall (fun cluster => (2 <= List.length cluster)%nat) clusters).
Proof.
  apply (@Cavg_returns_iff_costs_and_clusters_allow Reference.np_log
           (mk_ndarray 2 2 [[1; -1]; [-2 # 1; 2]]) [0; 1]%Z (Some [[0; 1]%Z])
           (1 # 2) 1 1 false).
  - reflexivity.
  - constructor; [|constructor].
    constructor; [unfold valid_class; cbn; lia|].
    constructor; [unfold valid_class; cbn; lia|constructor].
Defined.


(** The fitted estimator of the examples, pickled and restored into a new
    one. *)
Lemma getstate_setstate_round_trip_example :
  let back := restored example_plda fitted_bundle in
  num_phi back = num_phi fitted_plda /\ num_iter back = num_iter fitted_plda /\
  _feat_dim back = _feat_dim fitted_plda /\ _labels back = _labels fitted_plda /\
  verbose_ back = verbose_ fitted_plda /\ _normalizer back = _normalizer fitted_plda /\
  _dtype back = _dtype fitted_plda /\ _rand_state back = _rand_state fitted_plda /\
  Sigma_ back = Sigma_ fitted_plda /\ Phi_ back = Phi_ fitted_plda /\
  Sb_ back = Sb_ fitted_plda /\ St_ back = St_ fitted_plda /\
  Lambda_ back = Lambda_ fitted_plda /\ Uk_ back = Uk_ fitted_plda /\
  Q_hat_ back = Q_hat_ fitted_plda /\ X_model_ back = X_model_ fitted_plda /\
  _num_classes back = _num_classes example_plda /\
  (forall X, snd (transform X back) = snd (transform X fitted_plda)) /\
  (forall X X_model,
      snd (predict_log_proba X X_model back)
      = snd (predict_log_proba X X_model fitted_plda)).
Proof.
  apply (@getstate_setstate_round_trip Reference.externals fitted_plda example_plda
           fitted_bundle).
  reflexivity.
Defined.

(** The new estimator of the examples has no [_num_classes]. *)
Lemma initialize_happens_once_example :
  let self1 := fst (initialize example_X [0; 1]%Z example_plda) in
  (forall X' labels',
      initialize X' labels' self1 = (self1, Raise AttributeError)) /\
  (forall X' y', snd (fit X' y' self1) <> Ok tt).
Proof.
  apply (@initialize_happens_once Reference.externals example_plda example_X
           [0; 1]%Z).
  reflexivity.
Defined.

(** Three features against two latent dimensions, two classes. *)
Lemma initialize_allocates_the_model_example :
  let self := example_plda in
  let self' := fst (initialize example_X [0; 1]%Z example_plda) in
  let d := shape1 example_X in
  (0 <= num_phi self < Z.of_nat d)%Z /\
  _feat_dim self' = Some (Z.of_nat d) /\
  _labels self' = Some (match _labels self with Some l => l | None => [0; 1]%Z end) /\
  List.length (match _labels self with Some l => l | None => [0; 1]%Z end)
  = List.length [0; 1]%Z /\
  (exists noise rs R rs' Rn,
      randn Reference.externals (_rand_state self) d d = (noise, rs) /\
      shape0 noise = d /\ shape1 noise = d /\
      Sigma_ self'
      = Some (zip_matrix Qplus (mat_scale (1 / inject_Z (Z.of_nat d)) (np_eye d))
                         noise) /\
      randn Reference.externals rs (Z.to_nat (num_phi self)) d = (R, rs') /\
      normalizer_transform Reference.externals (_normalizer self) R = Ok Rn /\
      Phi_ self' = Some (mat_T Rn) /\
      _rand_state self' = rs') /\
  Sb_ self' = Some (np_zeros d d) /\
  St_ self' = Some (np_zeros d d) /\
  is_fitted self' = is_fitted self.
Proof.
  apply (@initialize_allocates_the_model Reference.externals example_plda example_X
           [0; 1]%Z (fst (initialize example_X [0; 1]%Z example_plda))).
  - reflexivity.
  - vm_compute. reflexivity.
Defined.

(** The balanced data set: [fit] returns. *)
Lemma fit_leaves_estimator_fitted_example :
  let self := balanced_plda in
  let self' := fst (fit balanced_X balanced_y balanced_plda) in
  is_fitted self' = true /\ allocated self' = true /\
  shape0 balanced_X = List.length balanced_y /\
  num_phi self' = num_phi self /\
  (exists nz Xn,
      normalizer_fit Reference.externals_svd (_normalizer self) balanced_X balanced_y
      = Ok nz /\
      normalizer_transform Reference.externals_svd nz balanced_X = Ok Xn /\
      _normalizer self' = nz /\
      _feat_dim self' = Some (Z.of_nat (shape1 Xn))) /\
  _labels self'
  = Some (match _labels self with Some l => l | None => np_unique balanced_y end) /\
  (exists states, __getstate__ self' = Ok states).
Proof.
  apply (@fit_leaves_estimator_fitted Reference.externals_svd balanced_plda
           balanced_X balanced_y
           (fst (fit balanced_X balanced_y balanced_plda))).
  vm_compute. reflexivity.
Defined.

(** Two classes in one cluster, the default costs and an even prior: the
    bound is 100. *)
Lemma Cavg_costs_are_bounded_percentages_example :
  exists costs total,
    Metrics.Cavg Reference.np_log (mk_ndarray 2 2 [[1; -1]; [-2 # 1; 2]])
                 [0; 1]%Z (Some [[0; 1]%Z]) (1 # 2) 1 1 false
    = Ok (map Fin costs, total) /\
    Forall (fun q => 0 <= q <= 100 * (1 * (1 # 2) + 1 * (1 - (1 # 2)))) costs /\
    ([[0; 1]%Z] <> [] ->
     exists m, total = Fin m /\ 0 <= m <= 100 * (1 * (1 # 2) + 1 * (1 - (1 # 2)))).
Proof.
  apply (@Cavg_costs_are_bounded_percentages Reference.np_log
           (mk_ndarray 2 2 [[1; -1]; [-2 # 1; 2]]) [0; 1]%Z [[0; 1]%Z]
           (1 # 2) 1 1 false).
  - reflexivity.
  - constructor; [|constructor].
    split; [|split].
    + constructor; [intros [H|[]]; discriminate H|].
      constructor; [intros []|constructor].
    + cbn. lia.
    + constructor; [unfold valid_class; cbn; lia|].
      constructor; [unfold valid_class; cbn; lia|constructor].
  - reflexivity.
  - discriminate.
  - discriminate.
  - reflexivity.
Defined.

(** The E-step on the class sums of the small data set, from the fitted
    estimator. *)
Lemma expectation_plda_shapes_fit_the_maximization_example :
  let Ey := np_zeros 2 2 in
  let Eyy := matrix_of_rows [[4; 0]; [0; 4]] in
  expectation_plda example_F [2; 2]%Z fitted_plda = (fitted_plda, Ok (Ey, Eyy)) /\
  (0 <= num_phi fitted_plda)%Z /\
  shape0 Ey = shape0 example_F /\ shape1 Ey = Z.to_nat (num_phi fitted_plda) /\
  shape0 Eyy = Z.to_nat (num_phi fitted_plda) /\
  shape1 Eyy = Z.to_nat (num_phi fitted_plda) /\
  np_dot (mat_T Ey) example_F = Ok (matmul (mat_T Ey) example_F) /\
  shape0 (matmul (mat_T Ey) example_F) = shape1 (mat_T Eyy) /\
  shape1 (matmul (mat_T Ey) example_F) = shape1 example_F.
Proof.
  assert (H : expectation_plda example_F [2; 2]%Z fitted_plda
              = (fitted_plda,
                 Ok (np_zeros 2 2, matrix_of_rows [[4; 0]; [0; 4]])))
    by (vm_compute; reflexivity).
  split; [exact H|].
  exact (@expectation_plda_shapes_fit_the_maximization Reference.externals
           fitted_plda example_F [2; 2]%Z fitted_plda
           (np_zeros 2 2) (matrix_of_rows [[4; 0]; [0; 4]]) H).
Defined.
